(** * Word-Guru: the guess scorer, the game session, the daily selector and
    the score store, embedded from [game.py], [daily.py] and
    [persistence.py], with the word file of [io_utils.py] and the
    interactive loop of [__main__.py].

    Python values are modelled as follows.
    - [str] is a list of characters with code points 0..255.  [strip],
      [isalpha] and the JSON codec are Python's on all of them.  [upper] is
      Python's on every character whose capital is again one character
      below 256, that is on all but the micro sign, the sharp s and the y
      with diaeresis; a guess or a word that holds one of these three is
      left unmodelled, and so is a word file that is not ASCII text.
    - Python [int] is [Z]; [len] results are converted with [Z.of_nat].
    - A [dict] used as a counter is a [gmap] read with a default of 0.
    - A list indexed or assigned by position uses stdpp's lookup and insert;
      an index out of range raises [IndexError] as in Python.
    - An exception is a value of [exn]; a call returns [Ok v] or [Raise e]
      together with the state it leaves behind.
    - What the program prints is not part of the state. *)

From Stdlib Require Import ZArith NArith Ascii String.
From Stdlib Require DecimalFacts DecimalPos.
From stdpp Require Import base option list gmap strings.

Local Open Scope Z_scope.

(** ** Python strings *)

Abbreviation str := (list ascii).

(** A string literal of the source. *)
Definition lit (s : string) : str := list_ascii_of_string s.

Definition ord (c : ascii) : N := N_of_ascii c.

Definition isupper_chr (c : ascii) : bool :=
  ((65 <=? ord c) && (ord c <=? 90))%N.

Definition islower_chr (c : ascii) : bool :=
  ((97 <=? ord c) && (ord c <=? 122))%N.

(** [c.isalpha()] for a code point below 256: the letters A-Z and a-z, the
    ordinal indicators (170, 186), the micro sign (181) and the letters of
    192..255, which leaves out the signs of multiplication (215) and of
    division (247). *)
Definition isalpha_chr (c : ascii) : bool :=
  isupper_chr c || islower_chr c
  || ((ord c =? 170) || (ord c =? 181) || (ord c =? 186)
      || (192 <=? ord c) && negb (ord c =? 215) && negb (ord c =? 247))%N.

(** [c.isspace()] for a code point below 256: TAB, LF, VT, FF, CR, the
    separators FS, GS, RS, US, the space, NEL and the no-break space. *)
Definition isspace_chr (c : ascii) : bool :=
  ((9 <=? ord c) && (ord c <=? 13) || (28 <=? ord c) && (ord c <=? 32)
   || (ord c =? 133) || (ord c =? 160))%N.

(** The characters [c] for which [c.upper()] is one character below 256:
    all but the micro sign (its capital is U+039C), the sharp s (it becomes
    the two letters SS) and the y with diaeresis (its capital is U+0178). *)
Definition upper_fits_chr (c : ascii) : bool :=
  negb ((ord c =? 181) || (ord c =? 223) || (ord c =? 255))%N.

(** [c.upper()] for a character that [upper_fits_chr] admits: a-z and the
    small letters of 224..254 (but the division sign) move down by 32, every
    other character is its own capital. *)
Definition upper_chr (c : ascii) : ascii :=
  if islower_chr c || ((224 <=? ord c) && (ord c <=? 254) && negb (ord c =? 247))%N
  then ascii_of_N (ord c - 32) else c.

(** [s.upper()], for a string of such characters. *)
Definition upper (s : str) : str := map upper_chr s.

Definition upper_fits (s : str) : bool := forallb upper_fits_chr s.

Fixpoint lstrip (s : str) : str :=
  match s with
  | c :: r => if isspace_chr c then lstrip r else s
  | [] => []
  end.

Definition rstrip (s : str) : str := rev (lstrip (rev s)).

(** [s.strip()] *)
Definition strip (s : str) : str := rstrip (lstrip s).

(** [s.isalpha()]: at least one character and all of them letters. *)
Definition isalpha (s : str) : bool :=
  match s with
  | [] => false
  | _ => forallb isalpha_chr s
  end.

(** The characters of an ASCII text. *)
Definition is_ascii (c : ascii) : bool := (ord c <? 128)%N.

Definition ascii_text (s : str) : bool := forallb is_ascii s.

(** ** Exceptions and results *)

Inductive exn :=
(* game.py *)
| RuntimeError_not_started      (* "Game not started. Call start_game() first." *)
| ValueError_length (n : nat)   (* "Guess must be n letters long" *)
| ValueError_letters            (* "Guess must contain only letters" *)
| ValueError_no_words           (* "No words available for the game" *)
(* daily.py *)
| ValueError_empty_words        (* "Words list cannot be empty" *)
(* persistence.py *)
| ValueError_not_a_list         (* "Score file should contain a list of scores" *)
| RuntimeError_loading          (* "Error loading scores from ..." *)
| RuntimeError_loading_unexpected (* "Unexpected error loading scores from ..." *)
| ValueError_score_not_dict     (* "Score must be a dictionary" *)
| ValueError_score_missing (fields : list str) (* "Score missing required fields: ..." *)
| ValueError_score_player       (* "Score 'player' must be a string" *)
| ValueError_score_word         (* "Score 'word' must be a string" *)
| ValueError_score_attempts     (* "Score 'attempts' must be a non-negative integer" *)
| ValueError_score_won          (* "Score 'won' must be a boolean" *)
| ValueError_score_date         (* "Score 'date' must be a string" *)
| RuntimeError_saving           (* "Error saving score to ..." *)
(* raised by the interpreter and the standard library *)
| JSONDecodeError
| OSError
| KeyError
| IndexError.

(** [isinstance(e, ValueError)]; [json.JSONDecodeError] is a subclass. *)
Definition is_ValueError (e : exn) : bool :=
  match e with
  | ValueError_length _ | ValueError_letters | ValueError_no_words
  | ValueError_empty_words | ValueError_not_a_list | ValueError_score_not_dict
  | ValueError_score_missing _ | ValueError_score_player | ValueError_score_word
  | ValueError_score_attempts | ValueError_score_won | ValueError_score_date
  | JSONDecodeError => true
  | _ => false
  end.

(** The outcome of a call.  [Unmodelled] marks a run that leaves what this
    development covers (a word or a guess with a character that [upper_fits]
    leaves out, a JSON
    escape of a code point above 255, a JSON number with a fraction or an
    exponent, a text too deeply nested for the decoder's fuel); nothing is
    stated about such runs.  The interpreter's limits on recursion depth and
    on the number of digits of an integer literal are not modelled. *)
Inductive result (A : Type) :=
| Ok (a : A)
| Raise (e : exn)
| Unmodelled.
Arguments Ok {A} a.
Arguments Raise {A} e.
Arguments Unmodelled {A}.

#[global] Instance result_ret : MRet result := fun A a => Ok a.

#[global] Instance result_bind : MBind result := fun A B k r =>
  match r with
  | Ok a => k a
  | Raise e => Raise e
  | Unmodelled => Unmodelled
  end.

(** ** Python values and the [json] module

    The values a score store holds: [None], [bool], [int], [str], [list] and
    [dict] with string keys.  A [dict] keeps its items in insertion order. *)

#[local] Set Warnings "-register-all".

Inductive value :=
| VNone
| VBool (b : bool)
| VInt (z : Z)
| VStr (s : str)
| VList (l : list value)
| VDict (d : list (str * value)).

Definition chr (n : N) : ascii := ascii_of_N n.
Definition quote_chr : ascii := chr 34.
Definition newline_chr : ascii := chr 10.

(** *** [json.dump(obj, f, indent=2, ensure_ascii=False)] *)

Definition hex_chr (n : N) : ascii :=
  if (n <? 10)%N then chr (48 + n) else chr (87 + n).

(** [ESCAPE_DCT] of [json.encoder]. *)
Definition escape_chr (c : ascii) : str :=
  if decide (c = "\"%char) then lit "\\"
  else if decide (c = quote_chr) then ["\"%char; quote_chr]
  else if decide (c = chr 8) then lit "\b"
  else if decide (c = chr 12) then lit "\f"
  else if decide (c = chr 10) then lit "\n"
  else if decide (c = chr 13) then lit "\r"
  else if decide (c = chr 9) then lit "\t"
  else if (ord c <? 32)%N
       then lit "\u00" ++ [hex_chr (ord c / 16); hex_chr (ord c mod 16)]
  else [c].

(** [encode_basestring] *)
Definition encode_basestring (s : str) : str :=
  quote_chr :: flat_map escape_chr s ++ [quote_chr].

Fixpoint uint_chars (d : Decimal.uint) : str :=
  match d with
  | Decimal.Nil => []
  | Decimal.D0 d => "0"%char :: uint_chars d
  | Decimal.D1 d => "1"%char :: uint_chars d
  | Decimal.D2 d => "2"%char :: uint_chars d
  | Decimal.D3 d => "3"%char :: uint_chars d
  | Decimal.D4 d => "4"%char :: uint_chars d
  | Decimal.D5 d => "5"%char :: uint_chars d
  | Decimal.D6 d => "6"%char :: uint_chars d
  | Decimal.D7 d => "7"%char :: uint_chars d
  | Decimal.D8 d => "8"%char :: uint_chars d
  | Decimal.D9 d => "9"%char :: uint_chars d
  end.

(** [int.__repr__] *)
Definition int_repr (z : Z) : str :=
  if z <? 0 then "-"%char :: uint_chars (N.to_uint (Z.abs_N z))
  else uint_chars (N.to_uint (Z.abs_N z)).

(** ['\n' + indent * level] with [indent = "  "]. *)
Definition newline_indent (level : nat) : str :=
  newline_chr :: replicate (2 * level) " "%char.

(** [_iterencode] at nesting depth [level]. *)
Fixpoint iterencode (level : nat) (o : value) : str :=
  match o with
  | VNone => lit "null"
  | VBool true => lit "true"
  | VBool false => lit "false"
  | VInt z => int_repr z
  | VStr s => encode_basestring s
  | VList [] => lit "[]"
  | VList (first :: others) =>
      "["%char :: newline_indent (S level) ++ iterencode (S level) first
      ++ flat_map (fun v => ","%char :: newline_indent (S level)
                             ++ iterencode (S level) v) others
      ++ newline_indent level ++ ["]"%char]
  | VDict [] => lit "{}"
  | VDict ((key, first) :: others) =>
      "{"%char :: newline_indent (S level)
      ++ encode_basestring key ++ lit ": " ++ iterencode (S level) first
      ++ flat_map (fun kv => ","%char :: newline_indent (S level)
                              ++ encode_basestring kv.1 ++ lit ": "
                              ++ iterencode (S level) kv.2) others
      ++ newline_indent level ++ ["}"%char]
  end.

Definition json_dumps (o : value) : str := iterencode 0 o.

(** *** [json.loads] *)

(** [WHITESPACE_STR = ' \t\n\r'] *)
Definition is_json_ws (c : ascii) : bool :=
  bool_decide (c = " "%char) || bool_decide (c = chr 9)
  || bool_decide (c = chr 10) || bool_decide (c = chr 13).

Fixpoint skip_ws (s : str) : str :=
  match s with
  | c :: r => if is_json_ws c then skip_ws r else s
  | [] => []
  end.

Definition hex_digit (c : ascii) : option N :=
  if ((48 <=? ord c) && (ord c <=? 57))%N then Some (ord c - 48)%N
  else if ((97 <=? ord c) && (ord c <=? 102))%N then Some (ord c - 87)%N
  else if ((65 <=? ord c) && (ord c <=? 70))%N then Some (ord c - 55)%N
  else None.

(** [_decode_uXXXX] *)
Definition decode_uXXXX (a b c d : ascii) : option N :=
  a ← hex_digit a; b ← hex_digit b; c ← hex_digit c; d ← hex_digit d;
  Some (((a * 16 + b) * 16 + c) * 16 + d)%N.

(** [BACKSLASH] of [json.decoder]. *)
Definition backslash (esc : ascii) : option ascii :=
  if decide (esc = quote_chr) then Some quote_chr
  else if decide (esc = "\"%char) then Some "\"%char
  else if decide (esc = "/"%char) then Some "/"%char
  else if decide (esc = "b"%char) then Some (chr 8)
  else if decide (esc = "f"%char) then Some (chr 12)
  else if decide (esc = "n"%char) then Some (chr 10)
  else if decide (esc = "r"%char) then Some (chr 13)
  else if decide (esc = "t"%char) then Some (chr 9)
  else None.

(** [scanstring(s, end, strict=True)], from the character after the opening
    quote: the decoded string and the text after the closing quote. *)
Fixpoint scanstring (s : str) : result (str * str) :=
  match s with
  | [] => Raise JSONDecodeError
  | c :: r =>
      if decide (c = quote_chr) then Ok ([], r)
      else if decide (c = "\"%char) then
        match r with
        | [] => Raise JSONDecodeError
        | esc :: r1 =>
            if decide (esc = "u"%char) then
              match r1 with
              | x1 :: x2 :: x3 :: x4 :: r2 =>
                  match decode_uXXXX x1 x2 x3 x4 with
                  | Some uni =>
                      if (uni <? 256)%N
                      then '(t, rest) ← scanstring r2; Ok (chr uni :: t, rest)
                      else Unmodelled
                  | None => Raise JSONDecodeError
                  end
              | _ => Raise JSONDecodeError
              end
            else
              match backslash esc with
              | Some char => '(t, rest) ← scanstring r1; Ok (char :: t, rest)
              | None => Raise JSONDecodeError
              end
        end
      else if (ord c <? 32)%N then Raise JSONDecodeError
      else '(t, rest) ← scanstring r; Ok (c :: t, rest)
  end.

Definition is_digit (c : ascii) : bool := ((48 <=? ord c) && (ord c <=? 57))%N.

Definition digit_uint (c : ascii) (d : Decimal.uint) : Decimal.uint :=
  match ord c with
  | 48%N => Decimal.D0 d | 49%N => Decimal.D1 d | 50%N => Decimal.D2 d
  | 51%N => Decimal.D3 d | 52%N => Decimal.D4 d | 53%N => Decimal.D5 d
  | 54%N => Decimal.D6 d | 55%N => Decimal.D7 d | 56%N => Decimal.D8 d
  | _ => Decimal.D9 d
  end.

(** The longest run of decimal digits at the head of [s]. *)
Fixpoint scan_digits (s : str) : Decimal.uint * str :=
  match s with
  | c :: r =>
      if is_digit c
      then let '(d, rest) := scan_digits r in (digit_uint c d, rest)
      else (Decimal.Nil, s)
  | [] => (Decimal.Nil, [])
  end.

(** [s.startswith(p)], used for [string[idx:idx + n] == p]. *)
Fixpoint startswith (s p : str) {struct p} : bool :=
  match p, s with
  | [], _ => true
  | c :: p', d :: s' => bool_decide (c = d) && startswith s' p'
  | _ :: _, [] => false
  end.

(** Group 1 of [NUMBER_RE]: an optional minus sign, then either a single 0
    or a non-zero digit followed by digits; read with [int]. *)
Definition scan_integer (s : str) : option (Z * str) :=
  let '(negative, s1) :=
    match s with
    | c :: r => if decide (c = "-"%char) then (true, r) else (false, s)
    | [] => (false, s)
    end in
  match s1 with
  | c :: r =>
      if decide (c = "0"%char) then Some (0, r)
      else if is_digit c then
        let '(d, rest) := scan_digits s1 in
        let n := Z.of_N (N.of_uint d) in
        Some (if negative then - n else n, rest)
      else None
  | [] => None
  end.

(** Group 2 of [NUMBER_RE], a dot and at least one digit, matches at the
    head of [s]. *)
Definition starts_frac (s : str) : bool :=
  match s with
  | c :: d :: _ => bool_decide (c = "."%char) && is_digit d
  | _ => false
  end.

(** Group 3 of [NUMBER_RE], an e or E, an optional sign and at least one
    digit, matches at the head of [s]. *)
Definition starts_exp (s : str) : bool :=
  match s with
  | e :: r =>
      (bool_decide (e = "e"%char) || bool_decide (e = "E"%char))
      && match r with
         | d :: r' =>
             is_digit d
             || ((bool_decide (d = "+"%char) || bool_decide (d = "-"%char))
                 && match r' with d' :: _ => is_digit d' | [] => false end)
         | [] => false
         end
  | [] => false
  end.

(** [dict(pairs)]: a repeated key keeps its first position and takes the
    last value. *)
Fixpoint dict_set (d : list (str * value)) (k : str) (v : value) : list (str * value) :=
  match d with
  | [] => [(k, v)]
  | (k', v') :: d' => if decide (k' = k) then (k, v) :: d' else (k', v') :: dict_set d' k v
  end.

Definition dict_of_pairs (pairs : list (str * value)) : list (str * value) :=
  foldl (fun d kv => dict_set d kv.1 kv.2) [] pairs.

(** [scan_once], [JSONArray] and [JSONObject] of [json.scanner] and
    [json.decoder].  Each returns the decoded value and the rest of the text.
    [fuel] bounds the nesting of calls; [json_loads] gives enough of it. *)
Fixpoint scan_once (fuel : nat) (s : str) : result (value * str) :=
  match fuel with
  | O => Unmodelled
  | S fuel =>
      match s with
      | [] => Raise JSONDecodeError
      | nextchar :: r =>
          if decide (nextchar = quote_chr) then
            '(t, rest) ← scanstring r; Ok (VStr t, rest)
          else if decide (nextchar = "{"%char) then
            match skip_ws r with
            | c :: r1 =>
                if decide (c = "}"%char) then Ok (VDict [], r1)
                else if decide (c = quote_chr) then
                  '(pairs, rest) ← object_loop fuel r1;
                  Ok (VDict (dict_of_pairs pairs), rest)
                else Raise JSONDecodeError
            | [] => Raise JSONDecodeError
            end
          else if decide (nextchar = "["%char) then
            match skip_ws r with
            | c :: r1 =>
                if decide (c = "]"%char) then Ok (VList [], r1)
                else '(values, rest) ← array_loop fuel (skip_ws r); Ok (VList values, rest)
            | [] => Raise JSONDecodeError
            end
          else if startswith s (lit "null") then Ok (VNone, drop 4 s)
          else if startswith s (lit "true") then Ok (VBool true, drop 4 s)
          else if startswith s (lit "false") then Ok (VBool false, drop 5 s)
          else
            match scan_integer s with
            | Some (n, rest) =>
                if starts_frac rest || starts_exp rest then Unmodelled
                else Ok (VInt n, rest)
            | None =>
                if startswith s (lit "NaN") || startswith s (lit "Infinity")
                   || startswith s (lit "-Infinity")
                then Unmodelled
                else Raise JSONDecodeError
            end
      end
  end
with array_loop (fuel : nat) (s : str) : result (list value * str) :=
  match fuel with
  | O => Unmodelled
  | S fuel =>
      '(v, rest) ← scan_once fuel s;
      match skip_ws rest with
      | c :: r =>
          if decide (c = "]"%char) then Ok ([v], r)
          else if decide (c = ","%char) then
            '(values, rest') ← array_loop fuel (skip_ws r); Ok (v :: values, rest')
          else Raise JSONDecodeError
      | [] => Raise JSONDecodeError
      end
  end
with object_loop (fuel : nat) (s : str) : result (list (str * value) * str) :=
  match fuel with
  | O => Unmodelled
  | S fuel =>
      '(key, rest) ← scanstring s;
      match skip_ws rest with
      | c :: r =>
          if decide (c = ":"%char) then
            '(v, rest1) ← scan_once fuel (skip_ws r);
            match skip_ws rest1 with
            | c1 :: r1 =>
                if decide (c1 = "}"%char) then Ok ([(key, v)], r1)
                else if decide (c1 = ","%char) then
                  match skip_ws r1 with
                  | c2 :: r2 =>
                      if decide (c2 = quote_chr) then
                        '(pairs, rest2) ← object_loop fuel r2;
                        Ok ((key, v) :: pairs, rest2)
                      else Raise JSONDecodeError
                  | [] => Raise JSONDecodeError
                  end
                else Raise JSONDecodeError
            | [] => Raise JSONDecodeError
            end
          else Raise JSONDecodeError
      | [] => Raise JSONDecodeError
      end
  end.

(** [json.loads(s)]: one value between optional whitespace, and nothing
    after it. *)
Definition json_loads (s : str) : result value :=
  '(obj, rest) ← scan_once (S (length s)) (skip_ws s);
  match skip_ws rest with
  | [] => Ok obj
  | _ :: _ => Raise JSONDecodeError
  end.

(** ** The world outside the process: files, the clock, the generator *)

(** What a path that exists holds: a text file, or something that cannot be
    opened for reading (a directory, a file without read permission). *)
Inductive node :=
| File (content : str)
| Unreadable.

(** [datetime.datetime], in UTC. *)
Record datetime := Datetime {
  year : Z; month : Z; day : Z;
  hour : Z; minute : Z; second : Z; microsecond : Z
}.

(** [datetime.date] *)
Record date := Date { date_year : Z; date_month : Z; date_day : Z }.

Record world := World {
  files : gmap string node;         (* path -> what it holds *)
  unwritable : gset string;         (* paths that cannot be created or written *)
  now : datetime;                   (* datetime.now(timezone.utc) *)
  rng : nat -> nat;                 (* the k-th draw of the random generator *)
  draws : nat                       (* draws made so far *)
}.

(** [dt.date()] *)
Definition date_of (dt : datetime) : date := Date (year dt) (month dt) (day dt).

(** ["%0{width}d" % n] for [n >= 0]. *)
Definition zero_padded (width : nat) (n : Z) : str :=
  let digits := int_repr n in
  replicate (width - length digits) "0"%char ++ digits.

(** [str(date)], that is [date.isoformat()]: YYYY-MM-DD. *)
Definition str_of_date (d : date) : str :=
  zero_padded 4 (date_year d) ++ lit "-" ++ zero_padded 2 (date_month d)
  ++ lit "-" ++ zero_padded 2 (date_day d).

(** [dt.isoformat()] for an aware UTC datetime. *)
Definition isoformat (dt : datetime) : str :=
  str_of_date (date_of dt) ++ lit "T" ++ zero_padded 2 (hour dt) ++ lit ":"
  ++ zero_padded 2 (minute dt) ++ lit ":" ++ zero_padded 2 (second dt)
  ++ (if microsecond dt =? 0 then [] else lit "." ++ zero_padded 6 (microsecond dt))
  ++ lit "+00:00".

(** [s.replace(old, new)] for a non-empty [old]; [skip] characters of a
    match just replaced are still to be passed over. *)
Fixpoint replace_from (old new : str) (skip : nat) (s : str) : str :=
  match s with
  | [] => []
  | c :: r =>
      match skip with
      | S k => replace_from old new k r
      | O =>
          if startswith s old
          then new ++ replace_from old new (length old - 1) r
          else c :: replace_from old new 0 r
      end
  end.

Definition replace (s old new : str) : str := replace_from old new 0 s.

(** Reading in text mode translates ["\r\n"] and ["\r"] to ["\n"]. *)
Fixpoint universal_newlines (s : str) : str :=
  match s with
  | [] => []
  | c :: r =>
      if decide (c = chr 13) then
        newline_chr ::
          match r with
          | c' :: r' =>
              if decide (c' = newline_chr) then universal_newlines r'
              else universal_newlines r
          | [] => []
          end
      else c :: universal_newlines r
  end.

(** ** persistence.py *)

(** [try: body except (json.JSONDecodeError, ValueError): ... except Exception: ...]
    of [load_scores]. *)
Definition loading_handlers {A} (body : result A) : result A :=
  match body with
  | Raise e =>
      if is_ValueError e then Raise RuntimeError_loading
      else Raise RuntimeError_loading_unexpected
  | r => r
  end.

Definition load_scores (w : world) (path : string) : result (list value) :=
  match files w !! path with
  | None => Ok []                                   (* not path.exists() *)
  | Some node =>
      loading_handlers
        match node with
        | Unreadable => Raise OSError               (* open(path, 'r') *)
        | File text =>
            let content := strip (universal_newlines text) in
            match content with
            | [] => Ok []                           (* if not content *)
            | _ =>
                scores ← json_loads content;
                match scores with
                | VList l => Ok l
                | _ => Raise ValueError_not_a_list
                end
            end
        end
  end.

(** [d[key]] *)
Fixpoint getitem (d : list (str * value)) (key : str) : result value :=
  match d with
  | [] => Raise KeyError
  | (k, v) :: d' => if decide (k = key) then Ok v else getitem d' key
  end.

Definition required_fields : list str :=
  [lit "player"; lit "word"; lit "attempts"; lit "won"; lit "date"].

(** [isinstance(v, str)], [isinstance(v, bool)] and [isinstance(v, int)];
    [bool] is a subclass of [int]. *)
Definition isinstance_str (v : value) : bool :=
  match v with VStr _ => true | _ => false end.
Definition isinstance_bool (v : value) : bool :=
  match v with VBool _ => true | _ => false end.
Definition isinstance_int (v : value) : bool :=
  match v with VInt _ | VBool _ => true | _ => false end.

(** [v < 0] for an instance of [int]: [False] is 0 and [True] is 1. *)
Definition lt_zero (v : value) : bool :=
  match v with
  | VInt z => z <? 0
  | _ => false
  end.

(** The checks of [save_score] before the [try]. *)
Definition validate_score (score : value) : result unit :=
  match score with
  | VDict d =>
      let missing_fields :=
        filter (fun f => f ∉ map fst d) required_fields in
      match missing_fields with
      | _ :: _ => Raise (ValueError_score_missing missing_fields)
      | [] =>
          player ← getitem d (lit "player");
          if negb (isinstance_str player) then Raise ValueError_score_player else
          word ← getitem d (lit "word");
          if negb (isinstance_str word) then Raise ValueError_score_word else
          attempts ← getitem d (lit "attempts");
          if negb (isinstance_int attempts) || lt_zero attempts
          then Raise ValueError_score_attempts else
          won ← getitem d (lit "won");
          if negb (isinstance_bool won) then Raise ValueError_score_won else
          date ← getitem d (lit "date");
          if negb (isinstance_str date) then Raise ValueError_score_date else
          Ok ()
      end
  | _ => Raise ValueError_score_not_dict
  end.

(** [path.parent.mkdir(...)], [open(path, 'w')] and the write. *)
Definition write_text (w : world) (path : string) (text : str) : result world :=
  if decide (path ∈ unwritable w) then Raise OSError
  else Ok (World (<[path := File text]> (files w)) (unwritable w) (now w) (rng w) (draws w)).

Definition save_score (w : world) (path : string) (score : value) : result world :=
  _ ← validate_score score;
  match
    scores ← load_scores w path;
    let scores := scores ++ [score] in
    write_text w path (json_dumps (VList scores))
  with
  | Raise _ => Raise RuntimeError_saving           (* except Exception *)
  | r => r
  end.

Definition create_score (w : world) (player word : str) (attempts : Z) (won : bool)
  : value :=
  VDict [(lit "player", VStr player); (lit "word", VStr word);
         (lit "attempts", VInt attempts); (lit "won", VBool won);
         (lit "date", VStr (replace (isoformat (now w)) (lit "+00:00") (lit "Z")))].

(** ** [hashlib.sha256] (FIPS 180-4), on bytes and 32-bit words held in [Z] *)

Definition wrap32 (x : Z) : Z := x mod 2 ^ 32.

Definition rotr (n x : Z) : Z :=
  wrap32 (Z.lor (Z.shiftr x n) (Z.shiftl x (32 - n))).

Definition Ch (x y z : Z) : Z :=
  Z.lxor (Z.land x y) (Z.land (Z.lxor x 0xffffffff) z).

Definition Maj (x y z : Z) : Z :=
  Z.lxor (Z.lxor (Z.land x y) (Z.land x z)) (Z.land y z).

Definition Sigma0 (x : Z) : Z := Z.lxor (Z.lxor (rotr 2 x) (rotr 13 x)) (rotr 22 x).
Definition Sigma1 (x : Z) : Z := Z.lxor (Z.lxor (rotr 6 x) (rotr 11 x)) (rotr 25 x).
Definition sigma0 (x : Z) : Z := Z.lxor (Z.lxor (rotr 7 x) (rotr 18 x)) (Z.shiftr x 3).
Definition sigma1 (x : Z) : Z := Z.lxor (Z.lxor (rotr 17 x) (rotr 19 x)) (Z.shiftr x 10).

(** The constants of FIPS 180-4, sections 4.2.2 and 5.3.3: the first 32 bits
    of the fractional parts of the cube roots of the first 64 primes, and of
    the square roots of the first 8 primes. *)
Definition is_prime (n : Z) : bool :=
  (1 <? n) && forallb (fun d => negb (n mod Z.of_nat d =? 0)) (seq 2 (Z.to_nat n - 2)).

Definition first_primes : list Z :=
  filter (fun n => is_prime n = true) (map Z.of_nat (seq 2 310)).

(** The integer cube root of [n], found bit by bit below [2 ^ bits]. *)
Fixpoint cube_root (bits : nat) (n r : Z) : Z :=
  match bits with
  | O => r
  | S b =>
      let r' := r + 2 ^ Z.of_nat b in
      cube_root b n (if r' * r' * r' <=? n then r' else r)
  end.

Definition sha256_K : list Z :=
  Eval vm_compute in
    map (fun p => wrap32 (cube_root 40 (p * 2 ^ 96) 0)) first_primes.

Definition sha256_H0 : list Z :=
  Eval vm_compute in
    map (fun p => wrap32 (Z.sqrt (p * 2 ^ 64))) (take 8 first_primes).

(** Big-endian bytes of [x], [n] of them. *)
Fixpoint be_bytes (n : nat) (x : Z) : list Z :=
  match n with
  | O => []
  | S n' => be_bytes n' (Z.shiftr x 8) ++ [x mod 256]
  end.

(** The message, a 1 bit, zero bits up to 56 modulo 64 bytes, and the
    length in bits on 8 bytes. *)
Definition sha256_pad (msg : list Z) : list Z :=
  let len := Z.of_nat (length msg) in
  msg ++ [0x80] ++ replicate (Z.to_nat ((55 - len) mod 64)) 0 ++ be_bytes 8 (8 * len).

(** Big-endian 32-bit words of a byte sequence. *)
Fixpoint be_words (count : nat) (bytes : list Z) : list Z :=
  match count with
  | O => []
  | S count' =>
      match bytes with
      | a :: b :: c :: d :: rest =>
          (((a * 256 + b) * 256 + c) * 256 + d) :: be_words count' rest
      | _ => []
      end
  end.

(** The message schedule: [n] more words after the ones in [W]. *)
Fixpoint schedule (n : nat) (W : list Z) : list Z :=
  match n with
  | O => W
  | S n' =>
      let t := length W in
      let at_ k := default 0 (W !! (t - k)%nat) in
      schedule n'
        (W ++ [wrap32 (sigma1 (at_ 2%nat) + at_ 7%nat + sigma0 (at_ 15%nat) + at_ 16%nat)])
  end.

(** One round on the working variables [a..h]. *)
Definition sha256_round (vars : list Z) (kw : Z * Z) : list Z :=
  match vars with
  | [a; b; c; d; e; f; g; h] =>
      let T1 := h + Sigma1 e + Ch e f g + kw.1 + kw.2 in
      let T2 := Sigma0 a + Maj a b c in
      [wrap32 (T1 + T2); a; b; c; wrap32 (d + T1); e; f; g]
  | _ => vars
  end.

Definition sha256_block (H : list Z) (block : list Z) : list Z :=
  let W := schedule 48 (be_words 16 block) in
  let vars := foldl sha256_round H (zip sha256_K W) in
  zip_with (fun x y => wrap32 (x + y)) H vars.

Fixpoint sha256_blocks (count : nat) (H : list Z) (bytes : list Z) : list Z :=
  match count with
  | O => H
  | S count' => sha256_blocks count' (sha256_block H (take 64 bytes)) (drop 64 bytes)
  end.

(** [hashlib.sha256(msg).digest()] *)
Definition sha256 (msg : list Z) : list Z :=
  let padded := sha256_pad msg in
  flat_map (be_bytes 4) (sha256_blocks (length padded / 64) sha256_H0 padded).

(** [digest.hex()]: two lower-case hexadecimal digits per byte. *)
Definition hex (bytes : list Z) : str :=
  flat_map (fun b => [hex_chr (Z.to_N b / 16); hex_chr (Z.to_N b mod 16)]) bytes.

(** [s.encode()]: UTF-8. *)
Definition encode (s : str) : list Z :=
  flat_map (fun c =>
    let n := Z.of_N (ord c) in
    if n <? 128 then [n] else [Z.lor 0xc0 (Z.shiftr n 6); Z.lor 0x80 (Z.land n 0x3f)]) s.

Definition hexdigest (msg : list Z) : str := hex (sha256 msg).

(** [int(s, 16)] on a run of hexadecimal digits. *)
Definition int_base16 (s : str) : result Z :=
  match s with
  | [] => Unmodelled
  | _ =>
      foldl (fun acc c =>
               n ← acc;
               match hex_digit c with
               | Some d => Ok (n * 16 + Z.of_N d)
               | None => Unmodelled
               end) (Ok 0) s
  end.

(** [l[i]] for a Python integer index. *)
Definition list_getitem {A} (l : list A) (i : Z) : result A :=
  let len := Z.of_nat (length l) in
  let j := if i <? 0 then i + len else i in
  if (j <? 0) || (len <=? j) then Raise IndexError
  else match l !! Z.to_nat j with
       | Some x => Ok x
       | None => Raise IndexError
       end.

(** ** daily.py *)

(** [word.upper().strip()] *)
Definition normalize (s : str) : result str :=
  if upper_fits s then Ok (strip (upper s)) else Unmodelled.

Definition select_daily_word (w : world) (words : list str) (date : option date)
  : result str :=
  match words with
  | [] => Raise ValueError_empty_words
  | _ =>
      let date :=
        match date with
        | None => date_of (now w)
        | Some d => d
        end in
      let date_string := str_of_date date in
      let hash_hex := hexdigest (encode date_string) in
      seed ← int_base16 (take 8 hash_hex);
      let word_index := seed `mod` Z.of_nat (length words) in
      word ← list_getitem words word_index;
      normalize word
  end.

(** ** The scorer (the two passes of [WordGuruGame.check_guess]) *)

Inductive status := Correct | Present | Absent | Pending.

Inductive mark := Check_mark | Question_mark | Tilde_mark | Cross_mark.

#[global] Instance status_eq_dec : EqDecision status.
Proof. solve_decision. Defined.

(** [d.get(letter, 0)] *)
Definition get0 (d : gmap ascii Z) (letter : ascii) : Z := default 0 (d !! letter).

(** [for letter in word: counts[letter] = counts.get(letter, 0) + 1] *)
Definition count_letters (word : str) : gmap ascii Z :=
  foldl (fun counts letter => <[letter := get0 counts letter + 1]> counts) ∅ word.

(** The locals the two loops update. *)
Record feedback := Feedback {
  letter_statuses : list status;
  feedback_summary : list (ascii * mark);
  used_target_letters : gmap ascii Z
}.

(** First pass, [for i, letter in enumerate(guess)], from index [i] on. *)
Fixpoint first_pass (current_word : str) (i : nat) (guess : str) (fb : feedback)
  : result feedback :=
  match guess with
  | [] => Ok fb
  | letter :: rest =>
      match current_word !! i with
      | None => Raise IndexError
      | Some t =>
          first_pass current_word (S i) rest
            (if decide (letter = t)
             then Feedback (letter_statuses fb ++ [Correct])
                           (feedback_summary fb ++ [(letter, Check_mark)])
                           (<[letter := get0 (used_target_letters fb) letter + 1]>
                              (used_target_letters fb))
             else Feedback (letter_statuses fb ++ [Pending])
                           (feedback_summary fb ++ [(letter, Question_mark)])
                           (used_target_letters fb))
      end
  end.

(** Second pass, from index [i] on. *)
Fixpoint second_pass (target_letter_counts : gmap ascii Z) (i : nat) (guess : str)
    (fb : feedback) : result feedback :=
  match guess with
  | [] => Ok fb
  | letter :: rest =>
      match letter_statuses fb !! i with
      | None => Raise IndexError
      | Some Pending =>
          let available_count :=
            get0 target_letter_counts letter - get0 (used_target_letters fb) letter in
          second_pass target_letter_counts (S i) rest
            (if 0 <? available_count
             then Feedback (<[i := Present]> (letter_statuses fb))
                           (<[i := (letter, Tilde_mark)]> (feedback_summary fb))
                           (<[letter := get0 (used_target_letters fb) letter + 1]>
                              (used_target_letters fb))
             else Feedback (<[i := Absent]> (letter_statuses fb))
                           (<[i := (letter, Cross_mark)]> (feedback_summary fb))
                           (used_target_letters fb))
      | Some _ => second_pass target_letter_counts (S i) rest fb
      end
  end.

(** Lines 112-141: the letter feedback for a normalised guess. *)
Definition letter_feedback (current_word guess : str) : result feedback :=
  let target_letter_counts := count_letters current_word in
  fb ← first_pass current_word 0 guess (Feedback [] [] ∅);
  second_pass target_letter_counts 0 guess fb.

(** ** game.py: the session *)

Record WordGuruGame := Game {
  word_list : list str;
  max_attempts : Z;
  scores_path : option string;
  player : str;
  daily_mode : bool;
  current_word : option str;
  attempts : list str;
  game_over : bool;
  won : bool
}.

(** Assignments to the four attributes a session changes after [__init__]. *)
Definition set_current_word (g : WordGuruGame) (word : option str) : WordGuruGame :=
  Game (word_list g) (max_attempts g) (scores_path g) (player g) (daily_mode g)
       word (attempts g) (game_over g) (won g).
Definition set_attempts (g : WordGuruGame) (l : list str) : WordGuruGame :=
  Game (word_list g) (max_attempts g) (scores_path g) (player g) (daily_mode g)
       (current_word g) l (game_over g) (won g).
Definition set_game_over (g : WordGuruGame) (b : bool) : WordGuruGame :=
  Game (word_list g) (max_attempts g) (scores_path g) (player g) (daily_mode g)
       (current_word g) (attempts g) b (won g).
Definition set_won (g : WordGuruGame) (b : bool) : WordGuruGame :=
  Game (word_list g) (max_attempts g) (scores_path g) (player g) (daily_mode g)
       (current_word g) (attempts g) (game_over g) b.

(** [WordGuruGame(word_list, max_attempts, scores_path, player, daily_mode)] *)
Definition __init__ (word_list : list str) (max_attempts : Z)
    (scores_path : option string) (player : str) (daily_mode : bool)
  : result WordGuruGame :=
  words ← mapM normalize word_list;
  Ok (Game words max_attempts scores_path player daily_mode None [] false false).

(** [random.choice(seq)] for a non-empty [seq]. *)
Definition random_choice {A} (w : world) (seq : list A) : world * result A :=
  (World (files w) (unwritable w) (now w) (rng w) (S (draws w)),
   match seq !! (rng w (draws w) `mod` length seq)%nat with
   | Some x => Ok x
   | None => Raise IndexError
   end).

Definition start_game (w : world) (g : WordGuruGame)
  : world * WordGuruGame * result unit :=
  match word_list g with
  | [] => (w, g, Raise ValueError_no_words)
  | _ =>
      let '(w1, chosen) :=
        if daily_mode g then (w, select_daily_word w (word_list g) None)
        else random_choice w (word_list g) in
      match chosen with
      | Ok word =>
          (w1,
           set_won (set_game_over (set_attempts (set_current_word g (Some word)) []) false) false,
           Ok ())
      | Raise e => (w1, g, Raise e)
      | Unmodelled => (w1, g, Unmodelled)
      end
  end.

(** [_save_game_score]: a failure to save is reported and swallowed. *)
Definition _save_game_score (w : world) (g : WordGuruGame) : result world :=
  match scores_path g, current_word g with
  | Some path, Some word =>
      let score :=
        create_score w (player g) word (Z.of_nat (length (attempts g))) (won g) in
      match save_score w path score with
      | Ok w' => Ok w'
      | Raise _ => Ok w
      | Unmodelled => Unmodelled
      end
  | _, _ => Ok w
  end.

Definition check_guess (w : world) (g : WordGuruGame) (guess : str)
  : world * WordGuruGame * result (list status * list (ascii * mark)) :=
  match current_word g with
  | None => (w, g, Raise RuntimeError_not_started)
  | Some target =>
      match normalize guess with
      | Ok guess =>
          if negb (length guess =? length target)%nat
          then (w, g, Raise (ValueError_length (length target)))
          else if negb (isalpha guess)
          then (w, g, Raise ValueError_letters)
          else
            let g := set_attempts g (attempts g ++ [guess]) in
            match letter_feedback target guess with
            | Ok fb =>
                let g :=
                  if decide (guess = target)
                  then set_game_over (set_won g true) true else g in
                let g :=
                  if max_attempts g <=? Z.of_nat (length (attempts g))
                  then set_game_over g true else g in
                if game_over g then
                  match _save_game_score w g with
                  | Ok w' => (w', g, Ok (letter_statuses fb, feedback_summary fb))
                  | Raise e => (w, g, Raise e)
                  | Unmodelled => (w, g, Unmodelled)
                  end
                else (w, g, Ok (letter_statuses fb, feedback_summary fb))
            | Raise e => (w, g, Raise e)
            | Unmodelled => (w, g, Unmodelled)
            end
      | Raise e => (w, g, Raise e)
      | Unmodelled => (w, g, Unmodelled)
      end
  end.

Definition is_finished (g : WordGuruGame) : bool := game_over g.

(** A caller that submits the guesses one after the other and carries on
    after a rejected one, as the loop of [play_interactive_game] does. *)
Fixpoint submit_all (w : world) (g : WordGuruGame) (guesses : list str)
  : world * WordGuruGame :=
  match guesses with
  | [] => (w, g)
  | guess :: rest =>
      let '(w', g', _) := check_guess w g guess in submit_all w' g' rest
  end.

(** ** Exceptions and outcomes of the code around the session *)

(** An exception of [exn], or one that only the code below raises. *)
Inductive raised :=
| Exn (e : exn)
| OverflowError                 (* "date value out of range" *)
| FileNotFoundError             (* "Words file not found: ..." *)
| RuntimeError_words.           (* "Error loading words from ..." *)

(** The outcome of a call of the code below; [Outside] marks a run that
    leaves what this development covers, as [Unmodelled] does. *)
Inductive outcome (A : Type) :=
| Returns (a : A)
| Raises (e : raised)
| Outside.
Arguments Returns {A} a.
Arguments Raises {A} e.
Arguments Outside {A}.

(** ** The calendar of [datetime] *)

Definition is_leap (y : Z) : bool :=
  (y `mod` 4 =? 0) && (negb (y `mod` 100 =? 0) || (y `mod` 400 =? 0)).

Definition days_in_month (y m : Z) : Z :=
  if m =? 2 then (if is_leap y then 29 else 28)
  else if (m =? 4) || (m =? 6) || (m =? 9) || (m =? 11) then 30
  else 31.

(** The values a [datetime.date] and a [datetime.datetime] can hold. *)
Definition valid_date (d : date) : bool :=
  (1 <=? date_year d) && (date_year d <=? 9999)
  && (1 <=? date_month d) && (date_month d <=? 12)
  && (1 <=? date_day d) && (date_day d <=? days_in_month (date_year d) (date_month d)).

Definition valid_datetime (dt : datetime) : bool :=
  valid_date (date_of dt)
  && (0 <=? hour dt) && (hour dt <? 24) && (0 <=? minute dt) && (minute dt <? 60)
  && (0 <=? second dt) && (second dt <? 60)
  && (0 <=? microsecond dt) && (microsecond dt <? 1000000).

(** [d + datetime.timedelta(days=1)] for a date [d]: the day after [d];
    the day after 9999-12-31 is out of range. *)
Definition next_day (d : date) : outcome date :=
  if date_day d <? days_in_month (date_year d) (date_month d)
  then Returns (Date (date_year d) (date_month d) (date_day d + 1))
  else if date_month d <? 12 then Returns (Date (date_year d) (date_month d + 1) 1)
  else if date_year d <? 9999 then Returns (Date (date_year d + 1) 1 1)
  else Raises OverflowError.

(** The days before the first of January of the year [y], and before the
    first of the month [m] in that year. *)
Definition days_before_year (y : Z) : Z :=
  let y := y - 1 in y * 365 + y `div` 4 - y `div` 100 + y `div` 400.

Definition days_before_month (y m : Z) : Z :=
  foldr Z.add 0 (map (days_in_month y) (seqZ 1 (m - 1))).

(** [d.toordinal()]: the number of the day, 0001-01-01 being day 1. *)
Definition toordinal (d : date) : Z :=
  days_before_year (date_year d) + days_before_month (date_year d) (date_month d)
  + date_day d.

(** [datetime.timedelta] *)
Record timedelta := Timedelta { days : Z; seconds : Z; microseconds : Z }.

(** [timedelta(days, seconds, microseconds)]: the constructor carries whole
    seconds and whole days over, so that [0 <= seconds < 86400] and
    [0 <= microseconds < 1000000]. *)
Definition new_timedelta (d s us : Z) : timedelta :=
  let s := s + us `div` 1000000 in
  Timedelta (d + s `div` 86400) (s `mod` 86400) (us `mod` 1000000).

(** [a - b] for two aware datetimes in UTC. *)
Definition datetime_sub (a b : datetime) : timedelta :=
  new_timedelta
    (toordinal (date_of a) - toordinal (date_of b))
    ((second a + minute a * 60 + hour a * 3600)
     - (second b + minute b * 60 + hour b * 3600))
    (microsecond a - microsecond b).

(** [datetime.datetime.combine(d, datetime.time.min, timezone.utc)] *)
Definition combine_min (d : date) : datetime :=
  Datetime (date_year d) (date_month d) (date_day d) 0 0 0 0.

(** ** daily.py: the daily reset *)

Definition get_next_daily_reset (w : world) : outcome datetime :=
  let now := now w in
  match next_day (date_of now) with
  | Returns tomorrow => Returns (combine_min tomorrow)
  | Raises e => Raises e
  | Outside => Outside
  end.

(** [time_until_next_daily()] reads the clock at line 85, in the world [w],
    and again inside [get_next_daily_reset], in the world [w_reset]. *)
Definition time_until_next_daily (w w_reset : world) : outcome str :=
  let now := now w in
  match get_next_daily_reset w_reset with
  | Returns next_reset =>
      let delta := datetime_sub next_reset now in
      let hours := seconds delta `div` 3600 in
      let minutes := (seconds delta `mod` 3600) `div` 60 in
      let seconds := seconds delta `mod` 60 in
      Returns
        (if 0 <? hours then int_repr hours ++ lit "h " ++ int_repr minutes ++ lit "m"
         else if 0 <? minutes
         then int_repr minutes ++ lit "m " ++ int_repr seconds ++ lit "s"
         else int_repr seconds ++ lit "s")
  | Raises e => Raises e
  | Outside => Outside
  end.

(** ** daily.py: [is_daily_completed] *)

(** [score.get(key, default)]; [None] stands for the AttributeError of a
    value that is not a dict. *)
Definition dict_get (score : value) (key : str) (default : value) : option value :=
  match score with
  | VDict d =>
      Some match getitem d key with
           | Ok v => v
           | _ => default
           end
  | _ => None
  end.

(** [v == s] for a string [s]. *)
Definition eq_str (v : value) (s : str) : bool :=
  match v with
  | VStr t => bool_decide (t = s)
  | _ => false
  end.

(** [v.startswith(prefix)]; [None] stands for the AttributeError of a value
    that is not a string. *)
Definition value_startswith (v : value) (prefix : str) : option bool :=
  match v with
  | VStr s => Some (startswith s prefix)
  | _ => None
  end.

(** The loop of lines 123-127 over [scores], already reversed: [Some true]
    when it returns [True], [Some false] when it ends, [None] when it
    raises. *)
Fixpoint completed_today (player today_str : str) (scores : list value) : option bool :=
  match scores with
  | [] => Some false
  | score :: rest =>
      match dict_get score (lit "player") VNone with
      | None => None
      | Some p =>
          if eq_str p player then
            match dict_get score (lit "date") (VStr []) with
            | None => None
            | Some score_date =>
                match value_startswith score_date today_str with
                | None => None
                | Some true => Some true
                | Some false => completed_today player today_str rest
                end
            end
          else completed_today player today_str rest
      end
  end.

Definition is_daily_completed (w : world) (player : str) (scores_path : option string)
  : result bool :=
  match scores_path with
  | None => Ok false
  | Some path =>
      if decide (path = EmptyString) then Ok false       (* not scores_path *)
      else
        match load_scores w path with
        | Ok scores =>
            let today_str := str_of_date (date_of (now w)) in
            match completed_today player today_str (reverse scores) with
            | Some b => Ok b
            | None => Ok false                           (* except Exception *)
            end
        | Raise _ => Ok false                            (* except Exception *)
        | Unmodelled => Unmodelled
        end
  end.

(** ** io_utils.py: [load_words] *)

(** The lines a text file yields, each with its line feed; the last one may
    have none. *)
Fixpoint lines (s : str) : list str :=
  match s with
  | [] => []
  | c :: r =>
      if decide (c = newline_chr) then [c] :: lines r
      else match lines r with
           | [] => [[c]]
           | line :: rest => (c :: line) :: rest
           end
  end.

Definition load_words (w : world) (path : string) : outcome (list str) :=
  match files w !! path with
  | None => Raises FileNotFoundError
  | Some Unreadable => Raises RuntimeError_words           (* except Exception *)
  | Some (File text) =>
      if negb (ascii_text text) then Outside
      else
        let words :=
          foldl (fun words line =>
                   let line := upper (strip line) in
                   match line with
                   | [] => words
                   | _ => if startswith line (lit "#") then words else words ++ [line]
                   end)
                [] (lines (universal_newlines text)) in
        match words with
        | [] => Raises RuntimeError_words                  (* the ValueError, caught *)
        | _ => Returns words
        end
  end.

(** ** __main__.py: the interactive loop *)

(** What [input()] meets: a line of text, or the interrupt key; the end of
    the list is the end of the input. *)
Inductive keyboard :=
| Line (text : str)
| Interrupt.

(** The [while] loop of [play_interactive_game]; what is printed is not
    modelled. *)
Fixpoint play_loop (w : world) (game : WordGuruGame) (stdin : list keyboard)
  : world * WordGuruGame * list keyboard * outcome unit :=
  match stdin with
  | [] => (w, game, [], Returns ())                      (* finished, or EOFError *)
  | key :: rest =>
      if is_finished game then (w, game, stdin, Returns ())
      else
        match key with
        | Interrupt => (w, game, rest, Returns ())       (* KeyboardInterrupt *)
        | Line text =>
            let guess := strip text in
            match guess with
            | [] => play_loop w game rest                (* continue *)
            | _ =>
                let '(w', game', r) := check_guess w game guess in
                match r with
                | Ok _ =>
                    if is_finished game' && daily_mode game' then
                      match time_until_next_daily w' w' with
                      | Returns _ => play_loop w' game' rest
                      | Raises e => (w', game', rest, Raises e)
                      | Outside => (w', game', rest, Outside)
                      end
                    else play_loop w' game' rest
                | Raise e =>
                    if is_ValueError e then play_loop w' game' rest
                    else (w', game', rest, Raises (Exn e))
                | Unmodelled => (w', game', rest, Outside)
                end
            end
        end
  end.

Definition play_interactive_game (w : world) (game : WordGuruGame)
    (stdin : list keyboard) : world * WordGuruGame * list keyboard * outcome unit :=
  let '(w1, game1, r) := start_game w game in
  match r with
  | Ok _ => play_loop w1 game1 stdin
  | Raise e => (w1, game1, stdin, Raises (Exn e))
  | Unmodelled => (w1, game1, stdin, Outside)
  end.

(** * The vocabulary of the properties *)

Definition mark1 (letter t : ascii) : status :=
  if decide (letter = t) then Correct else Pending.

Definition bump (U : gmap ascii Z) (c : ascii) : gmap ascii Z :=
  <[c := get0 U c + 1]> U.

(** The counter after the first pass over [g] against [t]. *)
Fixpoint used1 (U : gmap ascii Z) (g t : str) : gmap ascii Z :=
  match g, t with
  | letter :: g', x :: t' =>
      used1 (if decide (letter = x) then bump U letter else U) g' t'
  | _, _ => U
  end.

(** The statuses after the second pass over [g], from the statuses [ss] of
    the first pass and the counter [U]. *)
Fixpoint pass2 (counts U : gmap ascii Z) (g : str) (ss : list status) : list status :=
  match g, ss with
  | letter :: g', s :: ss' =>
      match s with
      | Pending =>
          if 0 <? get0 counts letter - get0 U letter
          then Present :: pass2 counts (bump U letter) g' ss'
          else Absent :: pass2 counts U g' ss'
      | _ => s :: pass2 counts U g' ss'
      end
  | _, _ => ss
  end.

(** The number of entries of [l] equal to [s]. *)
Definition count_status (s : status) (l : list status) : nat :=
  length (filter (fun x => x = s) l).

(** The number of positions [i] with [guess[i] == target[i]]. *)
Definition matching_positions (target guess : str) : nat :=
  length (filter (fun i => guess !! i = target !! i) (seq 0 (length guess))).

(** The number of occurrences of the letter [c] in [w]. *)
Definition occurrences (c : ascii) (w : str) : nat :=
  length (filter (fun x => x = c) w).

(** The number of positions of [guess] that hold the letter [c] and are
    marked [s]. *)
Definition marked_as (s : status) (c : ascii) (guess : str) (statuses : list status)
  : nat :=
  length (filter (fun p => p.1 = c /\ p.2 = s) (zip guess statuses)).

(** Positions of [guess] holding [c] that are marked correct or present. *)
Definition claimed (c : ascii) (guess : str) (statuses : list status) : nat :=
  (marked_as Correct c guess statuses + marked_as Present c guess statuses)%nat.

(** The statuses the first pass writes. *)
Definition first_pass_status (s : status) : Prop := s = Correct \/ s = Pending.

(** The words of the data model: non-empty, letters A to Z only. *)
Definition uppercase_alphabetic (s : str) : bool :=
  match s with
  | [] => false
  | _ => forallb isupper_chr s
  end.

(** The pattern of the guess precondition: one or more of A-Z, a-z. *)
Definition matches_letters (s : str) : bool :=
  match s with
  | [] => false
  | _ => forallb (fun c => ((65 <=? ord c) && (ord c <=? 90)
                            || (97 <=? ord c) && (ord c <=? 122))%N) s
  end.

(** A guess that passes both validations against [target]. *)
Definition valid_guess (target raw : str) : bool :=
  upper_fits raw
  && (length (strip (upper raw)) =? length target)%nat
  && isalpha (strip (upper raw)).

(** The session after the accepted guess [guess]. *)
Definition after_guess (g : WordGuruGame) (target guess : str) : WordGuruGame :=
  let g := set_attempts g (attempts g ++ [guess]) in
  let g := if decide (guess = target) then set_game_over (set_won g true) true else g in
  if max_attempts g <=? Z.of_nat (length (attempts g)) then set_game_over g true else g.

(** A world with no files, and the session of a player who lost a
    one-attempt game on APPLE with the guess GRAPE. *)
Definition world0 : world :=
  World ∅ ∅ (Datetime 2024 6 15 12 0 0 0) (fun _ => 0%nat) 0.

(** The small and the capital e with an acute accent. *)
Definition small_e_acute : ascii := ascii_of_N 233.
Definition capital_e_acute : ascii := ascii_of_N 201.

Definition apple_session (max_attempts : Z) (attempts : list str) (game_over won : bool)
  : WordGuruGame :=
  Game [lit "APPLE"] max_attempts None (lit "anonymous") false
       (Some (lit "APPLE")) attempts game_over won.

(** The unsigned integer a run of hexadecimal digits denotes: the digit at
    distance [k] from the end counts [16 ^ k]. *)
Fixpoint hex_value (s : str) : Z :=
  match s with
  | [] => 0
  | c :: r => Z.of_N (default 0%N (hex_digit c)) * 16 ^ Z.of_nat (length r) + hex_value r
  end.

Definition is_byte (b : Z) : Prop := 0 <= b < 256.

Definition is_hex_digit (c : ascii) : Prop := is_Some (hex_digit c).

(** The seed of a date: the first eight hexadecimal characters of the
    SHA-256 digest of its ISO form, read as an unsigned integer. *)
Definition daily_seed (d : date) : Z :=
  hex_value (take 8 (hexdigest (encode (str_of_date d)))).

(** Every dictionary of the value has distinct keys. *)
Fixpoint well_formed (v : value) : bool :=
  match v with
  | VList l => forallb well_formed l
  | VDict d =>
      bool_decide (NoDup (map fst d)) && forallb (fun kv => well_formed kv.2) d
  | _ => true
  end.

(** Fuel that suffices to decode the encoding of a value. *)
Fixpoint value_size (v : value) : nat :=
  match v with
  | VList l => S (list_sum (map (fun x => S (value_size x)) l))
  | VDict d => S (list_sum (map (fun kv => S (value_size kv.2)) d))
  | _ => 1
  end.

(** What may follow an encoded value: nothing, a comma or a newline. *)
Definition delimited (rest : str) : Prop :=
  match rest with
  | [] => True
  | c :: _ => c = ","%char \/ c = newline_chr
  end.

(** The first character of an encoding starts a value. *)
Definition starts_value (c : ascii) : Prop :=
  is_json_ws c = false /\ c <> "]"%char /\ c <> "}"%char /\ c <> ","%char.

Definition decodes (x : value) : Prop :=
  forall (level : nat) (rest : str) (fuel : nat),
    well_formed x = true -> delimited rest -> (value_size x <= fuel)%nat ->
    scan_once fuel (iterencode level x ++ rest) = Ok (x, rest).

(** The text of the items of a list after the first, and of a dictionary
    after the first. *)
Definition more_items (level : nat) (xs : list value) : str :=
  flat_map (fun v => ","%char :: newline_indent (S level) ++ iterencode (S level) v) xs.

Definition more_pairs (level : nat) (d : list (str * value)) : str :=
  flat_map (fun kv => ","%char :: newline_indent (S level)
                        ++ encode_basestring kv.1 ++ lit ": "
                        ++ iterencode (S level) kv.2) d.

(** A character other than the carriage return. *)
Definition plain_chr (c : ascii) : bool := negb (bool_decide (c = chr 13)).

Definition plain_text (s : str) : bool := forallb plain_chr s.

Definition scores_json : string := "scores.json"%string.

(** A world whose only file is the store, holding [text]. *)
Definition world_with_store (text : str) : world :=
  World {[scores_json := File text]} ∅ (now world0) (rng world0) 0.

Definition sample_score : value :=
  VDict [(lit "player", VStr (lit "alice")); (lit "word", VStr (lit "APPLE"));
         (lit "attempts", VInt 3); (lit "won", VBool true);
         (lit "date", VStr (lit "2024-01-01T12:00:00Z"))].

(** The mark of the summary that stands for a status. *)
Definition mark_of (s : status) : mark :=
  match s with
  | Correct => Check_mark
  | Present => Tilde_mark
  | Absent => Cross_mark
  | Pending => Question_mark
  end.

(** The summary that goes with the statuses [ss] of the guess [g]. *)
Definition summary_of (g : str) (ss : list status) : list (ascii * mark) :=
  zip_with (fun letter s => (letter, mark_of s)) g ss.

(** Neither end of the string is a blank. *)
Definition trimmed (s : str) : Prop :=
  match s with [] => True | c :: _ => isspace_chr c = false end
  /\ match rev s with [] => True | c :: _ => isspace_chr c = false end.

(** The guesses a session on [target] accepts, as it records them. *)
Definition accepted (target : str) (guesses : list str) : list str :=
  map (fun raw => strip (upper raw))
      (filter (fun raw => valid_guess target raw = true) guesses).

(** What [start_game] establishes and every guess keeps. *)
Definition session_invariant (target : str) (g : WordGuruGame) : Prop :=
  current_word g = Some target
  /\ Forall (fun a => length a = length target /\ isalpha a = true) (attempts g)
  /\ (won g = true <-> target ∈ attempts g)
  /\ (game_over g = true
      <-> attempts g <> []
          /\ (target ∈ attempts g
              \/ max_attempts g <= Z.of_nat (length (attempts g)))).

(** The microseconds from the start of 0001-01-01 to [dt]. *)
Definition instant (dt : datetime) : Z :=
  ((toordinal (date_of dt) * 86400 + hour dt * 3600 + minute dt * 60 + second dt)
   * 1000000 + microsecond dt).

(** The whole seconds from [dt] to the next midnight, and none at midnight
    sharp. *)
Definition seconds_to_midnight (dt : datetime) : Z :=
  let elapsed := hour dt * 3600 + minute dt * 60 + second dt in
  if (elapsed =? 0) && (microsecond dt =? 0) then 0
  else 86400 - elapsed - (if microsecond dt =? 0 then 0 else 1).

(** [datetime.date.max] *)
Definition last_day : date := Date 9999 12 31.

(** The record is of [player] and its date starts with [today_str]. *)
Definition played_on (player today_str : str) (score : value) : bool :=
  match dict_get score (lit "player") VNone, dict_get score (lit "date") (VStr []) with
  | Some p, Some (VStr d) => eq_str p player && startswith d today_str
  | _, _ => false
  end.

(** A caller that saves the records one after the other. *)
Fixpoint save_all (w : world) (path : string) (scores : list value) : result world :=
  match scores with
  | [] => Ok w
  | score :: rest => w' ← save_score w path score; save_all w' path rest
  end.

(** A line of the word file that counts as a word, once trimmed and
    upper-cased: it is not empty and is not a comment. *)
Definition word_line (line : str) : bool :=
  match line with
  | [] => false
  | _ => negb (startswith line (lit "#"))
  end.

(** The session [start_game] leaves, on the word [word]. *)
Definition started (g : WordGuruGame) (word : str) : WordGuruGame :=
  set_won (set_game_over (set_attempts (set_current_word g (Some word)) []) false) false.

(** The value of an [attempts] field that the validation lets through. *)
Definition counts_attempts (v : value) : Prop :=
  (exists b, v = VBool b) \/ (exists z, v = VInt z /\ 0 <= z).

(** * Properties *)

(** ** What the two passes compute *)

Lemma first_pass_ok (t : str) : forall (g : str) (i : nat) (fb : feedback),
  (length g + i <= length t)%nat ->
  exists sm,
    first_pass t i g fb
    = Ok (Feedback (letter_statuses fb ++ zip_with mark1 g (drop i t)) sm
                   (used1 (used_target_letters fb) g (drop i t)))
    /\ length sm = (length (feedback_summary fb) + length g)%nat.
Proof.
  induction g as [|letter g IH]; intros i fb Hlen; cbn [first_pass length] in *.
  - exists (feedback_summary fb). rewrite app_nil_r. destruct fb; simpl. split; [done | lia].
  - destruct (lookup_lt_is_Some_2 t i) as [x Hx]; [lia |].
    rewrite Hx, (drop_S _ _ _ Hx). cbn [zip_with used1].
    edestruct (IH (S i)) as [sm [-> Hsm]]; [lia |].
    exists sm. unfold mark1, bump.
    destruct (decide (letter = x)); cbn [letter_statuses feedback_summary used_target_letters] in *;
      rewrite <- app_assoc; (split; [done |]);
      rewrite Hsm, length_app; simpl; lia.
Qed.

Lemma second_pass_ok (counts : gmap ascii Z) : forall (g : str) (i : nat) (fb : feedback),
  (i + length g <= length (letter_statuses fb))%nat ->
  length (feedback_summary fb) = length (letter_statuses fb) ->
  exists sm U,
    second_pass counts i g fb
    = Ok (Feedback (take i (letter_statuses fb)
                    ++ pass2 counts (used_target_letters fb) g (drop i (letter_statuses fb)))
                   sm U)
    /\ length sm = length (feedback_summary fb).
Proof.
  induction g as [|letter g IH]; intros i fb Hlen Hsm; cbn [second_pass pass2 length] in *.
  - exists (feedback_summary fb), (used_target_letters fb).
    rewrite take_drop. by destruct fb.
  - destruct (lookup_lt_is_Some_2 (letter_statuses fb) i) as [s Hs]; [lia |].
    rewrite Hs, (drop_S _ _ _ Hs).
    assert (Hstep : forall fb' x,
      letter_statuses fb' = <[i := x]> (letter_statuses fb) ->
      length (feedback_summary fb') = length (feedback_summary fb) ->
      exists sm U,
        second_pass counts (S i) g fb'
        = Ok (Feedback (take i (letter_statuses fb)
                        ++ x :: pass2 counts (used_target_letters fb') g
                                  (drop (S i) (letter_statuses fb))) sm U)
        /\ length sm = length (feedback_summary fb)).
    { intros fb' x Hst Hl.
      edestruct (IH (S i) fb') as (sm & U & -> & Hsm').
      - rewrite Hst, length_insert. lia.
      - rewrite Hl, Hst, length_insert. done.
      - exists sm, U. rewrite Hst. split; [| congruence].
        rewrite (take_S_r _ _ x), take_insert_ge, drop_insert_lt by
          (try apply list_lookup_insert_eq; lia).
        by rewrite <- app_assoc. }
    destruct s.
    + edestruct (Hstep fb Correct) as (sm & U & -> & ?);
        [by rewrite list_insert_id | done | eauto].
    + edestruct (Hstep fb Present) as (sm & U & -> & ?);
        [by rewrite list_insert_id | done | eauto].
    + edestruct (Hstep fb Absent) as (sm & U & -> & ?);
        [by rewrite list_insert_id | done | eauto].
    + destruct (0 <? _) eqn:Hav.
      * edestruct Hstep as (sm & U & -> & ?); [| | eauto]; simpl;
          [done | by rewrite length_insert].
      * edestruct Hstep as (sm & U & -> & ?); [| | eauto]; simpl;
          [done | by rewrite length_insert].
Qed.

(** The result of the scorer, in closed form. *)
Lemma letter_feedback_ok (t g : str) :
  length g = length t ->
  exists sm U,
    letter_feedback t g
    = Ok (Feedback (pass2 (count_letters t) (used1 ∅ g t) g (zip_with mark1 g t)) sm U)
    /\ length sm = length g.
Proof.
  intros Hlen. unfold letter_feedback.
  destruct (first_pass_ok t g 0 (Feedback [] [] ∅)) as (sm1 & -> & Hsm1); [lia |].
  simpl in *. rewrite drop_0.
  edestruct (second_pass_ok (count_letters t) g 0) as (sm & U & -> & Hsm); simpl.
  - rewrite length_zip_with. lia.
  - rewrite length_zip_with. lia.
  - rewrite drop_0. exists sm, U. split; [done |]. simpl in Hsm. lia.
Qed.

(** ** Counting *)

Lemma filter_seq_S (P : nat -> Prop) `{forall i, Decision (P i)} (n : nat) :
  forall k, length (filter P (seq (S k) n)) = length (filter (fun i => P (S i)) (seq k n)).
Proof.
  induction n as [|n IH]; intros k; [done |].
  cbn [seq]. rewrite !filter_cons.
  destruct (decide (P (S k))); simpl; by rewrite IH.
Qed.

Lemma matching_positions_cons (x c : ascii) (t g : str) :
  matching_positions (x :: t) (c :: g)
  = ((if decide (c = x) then 1 else 0) + matching_positions t g)%nat.
Proof.
  unfold matching_positions. cbn [length seq]. rewrite filter_cons.
  pose proof (filter_seq_S (fun i => (c :: g) !! i = (x :: t) !! i) (length g) 0) as Hs.
  simpl in Hs.
  destruct (decide ((c :: g) !! 0%nat = (x :: t) !! 0%nat)) as [Heq | Hne],
    (decide (c = x)) as [Heq' | Hne']; simpl in *; rewrite ?Hs; congruence.
Qed.

Lemma filter_none {A} (P : A -> Prop) `{!forall x, Decision (P x)} (l : list A) :
  (forall x, x ∈ l -> ~ P x) -> filter P l = [].
Proof.
  induction l as [|x l IH]; intros Hl; [done |].
  rewrite filter_cons_False by (apply Hl; left).
  apply IH. intros y Hy. apply Hl. by right.
Qed.

Lemma matching_positions_nil_r (g : str) : matching_positions [] g = 0%nat.
Proof.
  unfold matching_positions. rewrite filter_none; [done |].
  intros i Hi%elem_of_seq.
  destruct (lookup_lt_is_Some_2 g i) as [y Hy]; [lia |]. by rewrite Hy.
Qed.

Lemma count_correct_mark1 : forall (g t : str),
  count_status Correct (zip_with mark1 g t) = matching_positions t g.
Proof.
  induction g as [|c g IH]; intros [|x t]; try done.
  - by rewrite matching_positions_nil_r.
  - rewrite matching_positions_cons. cbn [zip_with]. unfold count_status in *.
    rewrite filter_cons, <- IH. unfold mark1.
    destruct (decide (c = x)); simpl; done.
Qed.

Lemma pass2_length (counts : gmap ascii Z) : forall (g : str) (ss : list status) U,
  length (pass2 counts U g ss) = length ss.
Proof.
  induction g as [|c g IH]; intros [|s ss] U; try done.
  cbn [pass2]. destruct s; try (simpl; by rewrite IH).
  destruct (0 <? _); simpl; by rewrite IH.
Qed.

Lemma pass2_count_correct (counts : gmap ascii Z) :
  forall (g : str) (ss : list status) U,
  count_status Correct (pass2 counts U g ss) = count_status Correct ss.
Proof.
  unfold count_status.
  induction g as [|c g IH]; intros [|s ss] U; try done.
  cbn [pass2]. destruct s; rewrite ?filter_cons; simpl; rewrite ?IH; try done.
  destruct (0 <? _); rewrite filter_cons; simpl; by rewrite IH.
Qed.

(** ** Duplicate letters *)

Lemma marked_as_cons (s : status) (c x : ascii) (y : status) (g : str) (ss : list status) :
  marked_as s c (x :: g) (y :: ss)
  = ((if decide (x = c /\ y = s) then 1 else 0) + marked_as s c g ss)%nat.
Proof.
  unfold marked_as. cbn [zip zip_with]. rewrite filter_cons. cbn [fst snd].
  by repeat case_decide.
Qed.

Lemma marked_as_nil_r (s : status) (c : ascii) (g : str) : marked_as s c g [] = 0%nat.
Proof. by destruct g. Qed.

Lemma get0_bump (U : gmap ascii Z) (c c' : ascii) :
  get0 (bump U c) c' = get0 U c' + (if decide (c = c') then 1 else 0).
Proof.
  unfold bump, get0. destruct (decide (c = c')) as [-> | Hne].
  - by rewrite lookup_insert_eq.
  - rewrite lookup_insert_ne by done. lia.
Qed.

Lemma count_letters_get0 (c : ascii) (w : str) :
  get0 (count_letters w) c = Z.of_nat (occurrences c w).
Proof.
  unfold count_letters.
  enough (forall m, get0 (foldl (fun counts letter =>
                      <[letter := get0 counts letter + 1]> counts) m w) c
                    = get0 m c + Z.of_nat (occurrences c w)) as Hgen
    by (rewrite Hgen; unfold get0; rewrite lookup_empty; simpl; lia).
  induction w as [|x w IH]; intros m; simpl.
  - unfold occurrences. simpl. lia.
  - rewrite IH. fold (bump m x). rewrite get0_bump.
    unfold occurrences. rewrite filter_cons.
    destruct (decide (x = c)); simpl; lia.
Qed.

Lemma used1_get0 (c : ascii) : forall (g t : str) (U : gmap ascii Z),
  get0 (used1 U g t) c
  = get0 U c + Z.of_nat (marked_as Correct c g (zip_with mark1 g t)).
Proof.
  induction g as [|x g IH]; intros [|y t] U; simpl; try (unfold marked_as; simpl; lia).
  rewrite IH, marked_as_cons. unfold mark1.
  destruct (decide (x = y)) as [-> | Hxy].
  - rewrite get0_bump. destruct (decide (y = c)), (decide (y = c /\ Correct = Correct));
      try tauto; lia.
  - destruct (decide (x = c /\ Pending = Correct)) as [[_ ?] | _]; [done | lia].
Qed.

Lemma exact_le_occurrences (c : ascii) : forall (g t : str),
  (marked_as Correct c g (zip_with mark1 g t) <= occurrences c t)%nat.
Proof.
  induction g as [|x g IH]; intros [|y t]; try (unfold marked_as; simpl; lia).
  cbn [zip_with]. rewrite marked_as_cons. unfold occurrences in *.
  rewrite filter_cons. specialize (IH t).
  set (rest := zip_with mark1 g t) in *. unfold mark1.
  destruct (decide (x = y)) as [-> | Hxy];
    destruct (decide (_ /\ _)) as [[? ?] | ?]; destruct (decide (y = c));
    simpl; try lia; congruence.
Qed.

Lemma pass2_marked_correct (counts : gmap ascii Z) (c : ascii) :
  forall (g : str) (ss : list status) U,
  marked_as Correct c g (pass2 counts U g ss) = marked_as Correct c g ss.
Proof.
  induction g as [|x g IH]; intros [|s ss] U; try done.
  cbn [pass2]. destruct s; rewrite ?marked_as_cons, ?IH; try done.
  destruct (0 <? _); rewrite !marked_as_cons, IH;
    repeat (destruct (decide (_ /\ _)) as [[? ?] | ?]); try done.
Qed.

Lemma pass2_present_bound (counts : gmap ascii Z) (c : ascii) :
  forall (g : str) (ss : list status) U,
  Forall first_pass_status ss ->
  get0 U c <= get0 counts c ->
  get0 U c + Z.of_nat (marked_as Present c g (pass2 counts U g ss)) <= get0 counts c.
Proof.
  induction g as [|x g IH]; intros [|s ss] U Hss HU;
    try (rewrite ?marked_as_nil_r; unfold marked_as; simpl; lia).
  apply Forall_cons in Hss as [Hs Hss]. cbn [pass2].
  destruct Hs as [-> | ->].
  - rewrite marked_as_cons. specialize (IH ss U Hss HU).
    destruct (decide (_ /\ _)) as [[? ?] | ?]; [done | lia].
  - destruct (0 <? _) eqn:Hav; rewrite marked_as_cons.
    + apply Z.ltb_lt in Hav.
      specialize (IH ss (bump U x) Hss). rewrite get0_bump in IH.
      destruct (decide (x = c)) as [-> | Hne];
        destruct (decide (_ /\ _)) as [[? ?] | ?]; try tauto; try lia.
    + specialize (IH ss U Hss HU).
      destruct (decide (_ /\ _)) as [[? ?] | ?]; [done | lia].
Qed.

Lemma mark1_first_pass_status (g t : str) : Forall first_pass_status (zip_with mark1 g t).
Proof.
  revert t. induction g as [|x g IH]; intros [|y t]; simpl; try constructor; [| done].
  unfold mark1, first_pass_status. destruct (decide (x = y)); tauto.
Qed.

Lemma mark1_correct_iff (g t : str) (i : nat) :
  zip_with mark1 g t !! i = Some Correct
  <-> exists c, g !! i = Some c /\ t !! i = Some c.
Proof.
  rewrite lookup_zip_with_Some. unfold mark1. split.
  - intros (x & y & Hm & Hx & Hy). destruct (decide (x = y)); [| done]. subst. eauto.
  - intros (c & Hg & Ht). exists c, c. by rewrite decide_True.
Qed.

Lemma pass2_correct_iff (counts : gmap ascii Z) :
  forall (g : str) (ss : list status) U (i : nat),
  pass2 counts U g ss !! i = Some Correct <-> ss !! i = Some Correct.
Proof.
  induction g as [|x g IH]; intros [|s ss] U i; try done.
  cbn [pass2]. destruct s, i as [|i]; simpl; rewrite ?IH; try done;
    destruct (0 <? _); simpl; rewrite ?IH; done.
Qed.

Lemma pass2_no_pending (counts : gmap ascii Z) :
  forall (g : str) (ss : list status) U,
  length ss = length g ->
  Forall (fun s => s = Correct \/ s = Present \/ s = Absent) (pass2 counts U g ss).
Proof.
  induction g as [|x g IH]; intros [|s ss] U Hlen; try done.
  cbn [pass2]. simpl in Hlen.
  destruct s; try (constructor; [tauto | apply IH; lia]).
  destruct (0 <? _); (constructor; [tauto | apply IH; lia]).
Qed.

(** Once the supply of [c] is used up, no later [c] is marked present. *)
Lemma pass2_exhausted (counts : gmap ascii Z) (c : ascii) :
  forall (g : str) (ss : list status) U (j : nat),
  Forall first_pass_status ss ->
  get0 counts c - get0 U c <= 0 ->
  g !! j = Some c ->
  pass2 counts U g ss !! j <> Some Present.
Proof.
  induction g as [|x g IH]; intros [|s ss] U j Hss HU Hj; try done.
  apply Forall_cons in Hss as [Hs Hss]. cbn [pass2].
  destruct Hs as [-> | ->].
  - destruct j as [|j]; [done |]. simpl. by apply IH.
  - destruct (0 <? _) eqn:Hav.
    + apply Z.ltb_lt in Hav. destruct j as [|j]; simpl in *.
      * injection Hj as ->. lia.
      * apply IH; [done | | done]. rewrite get0_bump.
        destruct (decide (x = c)) as [-> | ?]; lia.
    + destruct j as [|j]; [done |]. simpl. by apply IH.
Qed.

(** If a later occurrence of [c] is marked present, so is every earlier one
    that is not an exact match. *)
Lemma pass2_earlier_first (counts : gmap ascii Z) (c : ascii) :
  forall (g : str) (ss : list status) U (i j : nat),
  Forall first_pass_status ss ->
  (i < j)%nat ->
  g !! i = Some c -> g !! j = Some c ->
  pass2 counts U g ss !! j = Some Present ->
  pass2 counts U g ss !! i = Some Correct \/ pass2 counts U g ss !! i = Some Present.
Proof.
  induction g as [|x g IH]; intros [|s ss] U i j Hss Hij Hi Hj Hp; try done.
  apply Forall_cons in Hss as [Hs Hss]. cbn [pass2] in *.
  destruct j as [|j]; [lia |].
  destruct i as [|i].
  - simpl in Hi. injection Hi as ->.
    destruct Hs as [-> | ->]; [by left |].
    destruct (0 <? _) eqn:Hav; [by right |].
    apply Z.ltb_ge in Hav. simpl in Hp, Hj.
    by destruct (pass2_exhausted counts c g ss U j).
  - simpl in Hi, Hj.
    destruct Hs as [-> | ->]; simpl in *.
    + apply (IH ss U i j); [done | lia | done..].
    + destruct (0 <? _); simpl in *.
      * apply (IH ss (bump U x) i j); [done | lia | done..].
      * apply (IH ss U i j); [done | lia | done..].
Qed.

(** ** Words and normalisation *)

Lemma forallb_Forall_true {A} (f : A -> bool) (l : list A) :
  forallb f l = true <-> Forall (fun x => f x = true) l.
Proof.
  induction l as [|x l IH]; simpl; [by split |].
  by rewrite andb_true_iff, Forall_cons, IH.
Qed.

Lemma isupper_facts (c : ascii) :
  isupper_chr c = true ->
  is_ascii c = true /\ islower_chr c = false /\ isspace_chr c = false
  /\ isalpha_chr c = true.
Proof.
  unfold isupper_chr, is_ascii, islower_chr, isspace_chr, isalpha_chr.
  intros [H1%N.leb_le H2%N.leb_le]%andb_true_iff.
  repeat split.
  - apply N.ltb_lt. lia.
  - apply andb_false_iff. left. apply N.leb_gt. lia.
  - rewrite !orb_false_iff, !andb_false_iff, !N.leb_gt, !N.eqb_neq. lia.
  - apply orb_true_iff. left. apply orb_true_iff. left.
    apply andb_true_iff. split; apply N.leb_le; lia.
Qed.

(** What [upper] and [isalpha] are on an ASCII character. *)
Lemma is_ascii_facts (c : ascii) :
  is_ascii c = true ->
  upper_fits_chr c = true
  /\ isalpha_chr c = (isupper_chr c || islower_chr c)
  /\ upper_chr c = (if islower_chr c then ascii_of_N (ord c - 32) else c).
Proof.
  unfold is_ascii, upper_fits_chr, isalpha_chr, upper_chr, isupper_chr, islower_chr.
  intros H%N.ltb_lt.
  assert (H1 : (ord c =? 181)%N = false) by (apply N.eqb_neq; lia).
  assert (H2 : (ord c =? 223)%N = false) by (apply N.eqb_neq; lia).
  assert (H3 : (ord c =? 255)%N = false) by (apply N.eqb_neq; lia).
  assert (H4 : (ord c =? 170)%N = false) by (apply N.eqb_neq; lia).
  assert (H5 : (ord c =? 186)%N = false) by (apply N.eqb_neq; lia).
  assert (H6 : (192 <=? ord c)%N = false) by (apply N.leb_gt; lia).
  assert (H7 : (224 <=? ord c)%N = false) by (apply N.leb_gt; lia).
  rewrite H1, H2, H3, H4, H5, H6, H7. simpl. by rewrite !orb_false_r.
Qed.

Lemma ascii_upper_fits (s : str) : ascii_text s = true -> upper_fits s = true.
Proof.
  unfold ascii_text, upper_fits. rewrite !forallb_Forall_true.
  intros H. eapply Forall_impl; [done |]. intros c Hc. by apply is_ascii_facts.
Qed.

Lemma lstrip_id (s : str) :
  match s with [] => True | c :: _ => isspace_chr c = false end -> lstrip s = s.
Proof. destruct s as [|c s]; simpl; [done |]. by intros ->. Qed.

Lemma strip_id (s : str) :
  Forall (fun c => isspace_chr c = false) s -> strip s = s.
Proof.
  intros Hs. unfold strip, rstrip.
  rewrite (lstrip_id s) by (by destruct Hs).
  rewrite lstrip_id, rev_involutive; [done |].
  destruct (rev s) as [|c r] eqn:Hr; [done |].
  rewrite Forall_forall in Hs. apply Hs.
  apply list_elem_of_In, in_rev. rewrite Hr. by left.
Qed.

Lemma uppercase_forall (s : str) :
  uppercase_alphabetic s = true -> s <> [] /\ Forall (fun c => isupper_chr c = true) s.
Proof.
  destruct s as [|c s]; [done |]. unfold uppercase_alphabetic.
  intros H. split; [done |]. by apply forallb_Forall_true.
Qed.

Lemma uppercase_normalize (s : str) :
  uppercase_alphabetic s = true -> normalize s = Ok s /\ isalpha s = true.
Proof.
  intros [Hne Hs]%uppercase_forall. unfold normalize.
  assert (Ha : upper_fits s = true).
  { apply ascii_upper_fits, forallb_Forall_true. eapply Forall_impl; [done |].
    intros c Hc. by apply isupper_facts. }
  assert (Hu : upper s = s).
  { clear Hne Ha. unfold upper. induction Hs as [|c s Hc _ IH]; [done |]. simpl.
    rewrite IH. apply isupper_facts in Hc as (Hc & Hl & _).
    apply is_ascii_facts in Hc as (_ & _ & ->). by rewrite Hl. }
  rewrite Ha, Hu, strip_id.
  - split; [done |]. destruct s as [|c s]; [done |]. unfold isalpha.
    apply forallb_Forall_true. eapply Forall_impl; [done |].
    intros x Hx. by apply isupper_facts.
  - eapply Forall_impl; [done |]. intros c Hc. by apply isupper_facts.
Qed.

(** On an ASCII string [isalpha] is the pattern of letters; beyond ASCII it
    accepts more. *)
Lemma isalpha_matches_letters (s : str) :
  ascii_text s = true -> isalpha s = matches_letters s.
Proof.
  destruct s as [|c s]; [done |]. unfold isalpha, matches_letters, ascii_text.
  generalize (c :: s). intros l Hl. induction l as [|x l IH]; [done |].
  cbn [forallb] in *. apply andb_true_iff in Hl as [Hx Hl].
  rewrite (IH Hl). by apply is_ascii_facts in Hx as (_ & -> & _).
Qed.

Lemma matches_letters_isalpha (s : str) :
  matches_letters s = true -> isalpha s = true.
Proof.
  destruct s as [|c s]; [done |]. unfold isalpha, matches_letters.
  rewrite !forallb_Forall_true. intros H. eapply Forall_impl; [done |].
  intros x Hx. unfold isalpha_chr, isupper_chr, islower_chr. simpl in Hx. by rewrite Hx.
Qed.

Example upper_accented :
  upper (lit "appl" ++ [small_e_acute]) = lit "APPL" ++ [capital_e_acute]
  /\ isalpha (lit "APPL" ++ [capital_e_acute]) = true
  /\ upper_fits (lit "appl" ++ [small_e_acute]) = true.
Proof. repeat split; vm_compute; reflexivity. Qed.

(** Of the 256 characters 117 are alphabetic, and [upper] moves 56. *)
Example character_tables :
  length (filter (fun n => isalpha_chr (ascii_of_nat n) = true) (seq 0 256)) = 117%nat
  /\ length (filter (fun n => upper_chr (ascii_of_nat n) <> ascii_of_nat n) (seq 0 256))
     = 56%nat.
Proof. split; vm_compute; reflexivity. Qed.

(** ** One call of [check_guess] *)

Lemma check_guess_not_started (w : world) (g : WordGuruGame) (raw : str) :
  current_word g = None -> check_guess w g raw = (w, g, Raise RuntimeError_not_started).
Proof. unfold check_guess. by intros ->. Qed.

Lemma check_guess_reject (w : world) (g : WordGuruGame) (target raw : str) :
  current_word g = Some target ->
  valid_guess target raw = false ->
  check_guess w g raw
  = (w, g,
     if negb (upper_fits raw) then Unmodelled
     else if negb (length (strip (upper raw)) =? length target)%nat
     then Raise (ValueError_length (length target))
     else Raise ValueError_letters).
Proof.
  unfold check_guess, valid_guess, normalize. intros -> Hv.
  destruct (upper_fits raw); simpl in *; [| done].
  destruct (_ =? _)%nat; simpl in *; [| done].
  by rewrite Hv.
Qed.

Lemma check_guess_accept (w : world) (g : WordGuruGame) (target raw : str) :
  current_word g = Some target ->
  valid_guess target raw = true ->
  exists w' r fb,
    check_guess w g raw = (w', after_guess g target (strip (upper raw)), r)
    /\ letter_feedback target (strip (upper raw)) = Ok fb
    /\ (r = Ok (letter_statuses fb, feedback_summary fb)
        \/ (r = Unmodelled /\ scores_path g <> None)).
Proof.
  unfold check_guess, valid_guess, normalize, after_guess. intros Hcw Hv. rewrite Hcw.
  apply andb_true_iff in Hv as [[Ha Hl]%andb_true_iff Hal].
  rewrite Ha, Hl, Hal. simpl.
  apply Nat.eqb_eq in Hl.
  destruct (letter_feedback_ok target (strip (upper raw)) Hl) as (sm & U & Hfb & _).
  rewrite Hfb.
  set (g1 := set_attempts g _).
  set (g2 := if decide (_ = target) then _ else g1).
  set (g3 := if _ <=? _ then _ else g2).
  destruct (game_over g3); [| by eauto 10].
  unfold _save_game_score.
  assert (Hsp : scores_path g3 = scores_path g).
  { subst g3 g2 g1. destruct (decide _), (_ <=? _); done. }
  rewrite Hsp.
  destruct (scores_path g) as [path |]; [| by eauto 10].
  destruct (current_word g3); [| by eauto 10].
  destruct (save_score _ _ _); eauto 10.
Qed.

(** Attempts, won flag and terminal flag after an accepted guess. *)
Lemma after_guess_fields (g : WordGuruGame) (target guess : str) :
  attempts (after_guess g target guess) = attempts g ++ [guess]
  /\ won (after_guess g target guess) = (won g || bool_decide (guess = target))
  /\ game_over (after_guess g target guess)
     = (game_over g || bool_decide (guess = target)
        || (max_attempts g <=? Z.of_nat (length (attempts g ++ [guess]))))
  /\ current_word (after_guess g target guess) = current_word g
  /\ max_attempts (after_guess g target guess) = max_attempts g.
Proof.
  unfold after_guess.
  destruct (decide (guess = target)) as [Heq | Hne];
    [rewrite (bool_decide_eq_true_2 _ Heq) | rewrite (bool_decide_eq_false_2 _ Hne)];
    simpl; destruct (_ <=? _); simpl; rewrite ?orb_true_r, ?orb_false_r; done.
Qed.

Lemma normalize_Ok_inv (s t : str) :
  normalize s = Ok t -> upper_fits s = true /\ strip (upper s) = t.
Proof. unfold normalize. destruct (upper_fits s); [| done]. by intros [= ->]. Qed.

Lemma uppercase_valid_guess (target guess : str) :
  uppercase_alphabetic guess = true ->
  length guess = length target ->
  valid_guess target guess = true /\ strip (upper guess) = guess.
Proof.
  intros [[Ha Hn]%normalize_Ok_inv Hal]%uppercase_normalize Hlen.
  unfold valid_guess. rewrite Ha, Hn, Hal, Hlen, Nat.eqb_refl. done.
Qed.

(** The scorer on any two strings of equal length. *)
Lemma scorer_length_and_count (target guess : str) :
  length guess = length target ->
  exists fb,
    letter_feedback target guess = Ok fb
    /\ length (letter_statuses fb) = length guess
    /\ length (feedback_summary fb) = length guess
    /\ count_status Correct (letter_statuses fb) = matching_positions target guess
    /\ Forall (fun s => s = Correct \/ s = Present \/ s = Absent) (letter_statuses fb).
Proof.
  intros Hlen. destruct (letter_feedback_ok target guess Hlen) as (sm & U & -> & Hsm).
  eexists. split; [done |]. simpl.
  rewrite pass2_length, length_zip_with, pass2_count_correct, count_correct_mark1.
  repeat split; [lia | done |].
  apply pass2_no_pending. rewrite length_zip_with. lia.
Qed.

(** ** The claims about the scorer *)

(** C2. For every pair of equal-length uppercase alphabetic strings [target]
    and [guess], the letter-status computation of [check_guess] returns a
    status sequence as long as the guess, in which the number of entries
    marked correct is the number of positions [i] with
    [guess[i] == target[i]]; a call of [check_guess] on a session whose word
    is [target] returns that sequence. *)
Theorem C2_scorer_length_and_correct_count (target guess : str) :
  uppercase_alphabetic target = true ->
  uppercase_alphabetic guess = true ->
  length guess = length target ->
  exists fb,
    letter_feedback target guess = Ok fb
    /\ length (letter_statuses fb) = length guess
    /\ count_status Correct (letter_statuses fb) = matching_positions target guess
    /\ forall (w : world) (g : WordGuruGame),
         current_word g = Some target ->
         (check_guess w g guess).2 = Ok (letter_statuses fb, feedback_summary fb)
         \/ ((check_guess w g guess).2 = Unmodelled /\ scores_path g <> None).
Proof.
  intros _ Hg Hlen.
  destruct (scorer_length_and_count target guess Hlen) as (fb & Hfb & Hl & _ & Hc & _).
  exists fb. repeat split; try done.
  intros w g Hcw.
  destruct (uppercase_valid_guess target guess Hg Hlen) as [Hv Hn].
  destruct (check_guess_accept w g target guess Hcw Hv) as (w' & r & fb' & -> & Hfb' & Hr).
  rewrite Hn, Hfb in Hfb'. injection Hfb' as <-. exact Hr.
Qed.

Lemma C2_witness :
  exists fb,
    letter_feedback (lit "APPLE") (lit "PLANE") = Ok fb
    /\ length (letter_statuses fb) = 5%nat
    /\ count_status Correct (letter_statuses fb) = 1%nat.
Proof.
  destruct (C2_scorer_length_and_correct_count (lit "APPLE") (lit "PLANE"))
    as (fb & H1 & H2 & H3 & _); [reflexivity | reflexivity | reflexivity |].
  exists fb. split; [exact H1 |]. split; [exact H2 |]. rewrite H3. reflexivity.
Defined.

Lemma get0_empty (c : ascii) : get0 ∅ c = 0.
Proof. unfold get0. by rewrite lookup_empty. Qed.

(** C3. The two passes do not over-count duplicate letters.  Scoring ALLOW
    against APPLE yields correct, present, absent, absent, absent.  For any
    target and guess of equal length: a position is marked correct exactly
    when it is an exact match; for every letter, the positions of the guess
    holding it that are marked correct or present are at most its
    occurrences in the target; when a later copy of a letter is marked
    present, every earlier copy is marked correct or present; and when the
    exact matches of a letter use up all its occurrences in the target,
    every other copy in the guess is marked absent. *)
Theorem C3_duplicate_letters :
  (exists fb, letter_feedback (lit "APPLE") (lit "ALLOW") = Ok fb
     /\ letter_statuses fb = [Correct; Present; Absent; Absent; Absent])
  /\ (exists fb, letter_feedback (lit "ABBEY") (lit "EAGER") = Ok fb
     /\ letter_statuses fb = [Absent; Present; Absent; Correct; Absent])
  /\ forall target guess : str,
       length guess = length target ->
       exists fb,
         letter_feedback target guess = Ok fb
         /\ (forall i : nat,
               letter_statuses fb !! i = Some Correct
               <-> exists c, guess !! i = Some c /\ target !! i = Some c)
         /\ (forall c : ascii,
               (claimed c guess (letter_statuses fb) <= occurrences c target)%nat)
         /\ (forall (c : ascii) (i j : nat),
               (i < j)%nat ->
               guess !! i = Some c -> guess !! j = Some c ->
               letter_statuses fb !! j = Some Present ->
               letter_statuses fb !! i = Some Correct
               \/ letter_statuses fb !! i = Some Present)
         /\ (forall (c : ascii) (j : nat),
               marked_as Correct c guess (letter_statuses fb) = occurrences c target ->
               guess !! j = Some c ->
               letter_statuses fb !! j <> Some Correct ->
               letter_statuses fb !! j = Some Absent).
Proof.
  split; [eexists; split; vm_compute; reflexivity |].
  split; [eexists; split; vm_compute; reflexivity |].
  intros target guess Hlen.
  destruct (letter_feedback_ok target guess Hlen) as (sm & U & -> & _).
  eexists. split; [done |]. cbn [letter_statuses].
  set (counts := count_letters target). set (U1 := used1 ∅ guess target).
  set (ss1 := zip_with mark1 guess target).
  pose proof (mark1_first_pass_status guess target) as Hss1. fold ss1 in Hss1.
  assert (HU1 : forall c, get0 U1 c = Z.of_nat (marked_as Correct c guess ss1)).
  { intros c. subst U1 ss1. rewrite used1_get0, get0_empty. lia. }
  assert (Hcounts : forall c, get0 counts c = Z.of_nat (occurrences c target)).
  { intros c. apply count_letters_get0. }
  repeat split.
  - rewrite pass2_correct_iff. by apply mark1_correct_iff.
  - rewrite pass2_correct_iff. by apply mark1_correct_iff.
  - intros c. unfold claimed. rewrite pass2_marked_correct.
    pose proof (exact_le_occurrences c guess target) as Hex. fold ss1 in Hex.
    pose proof (pass2_present_bound counts c guess ss1 U1 Hss1) as Hb.
    rewrite HU1, Hcounts in Hb. lia.
  - intros c i j. by apply pass2_earlier_first.
  - intros c j Hall Hj Hnc.
    rewrite pass2_marked_correct in Hall.
    assert (Hlt : (j < length (pass2 counts U1 guess ss1))%nat).
    { rewrite pass2_length. subst ss1. rewrite length_zip_with.
      apply lookup_lt_Some in Hj. lia. }
    destruct (lookup_lt_is_Some_2 _ _ Hlt) as [s Hs].
    pose proof (pass2_no_pending counts guess ss1 U1) as Hnp.
    rewrite Forall_lookup in Hnp.
    destruct (Hnp ltac:(subst ss1; rewrite length_zip_with; lia) j s Hs)
      as [-> | [-> | ->]]; [done | | done].
    exfalso. eapply (pass2_exhausted counts c); [exact Hss1 | | exact Hj | exact Hs].
    rewrite HU1, Hcounts, Hall. lia.
Qed.

Lemma C3_witness :
  exists fb,
    letter_feedback (lit "SPEED") (lit "EERIE") = Ok fb
    /\ (claimed "E"%char (lit "EERIE") (letter_statuses fb) <= 2)%nat.
Proof.
  destruct C3_duplicate_letters as (_ & _ & H).
  destruct (H (lit "SPEED") (lit "EERIE")) as (fb & Hfb & _ & Hb & _); [reflexivity |].
  exists fb. split; [exact Hfb |]. exact (Hb "E"%char).
Defined.

(** ** The claims about the session *)

(** C1, as stated, fails: the session below is reached by [__init__],
    [start_game] and one losing guess, it is terminal, and yet a further
    [check_guess] raises nothing, appends to the attempts and sets the won
    flag. *)
Lemma C1_counterexample :
  exists g0 w1,
    __init__ [lit "APPLE"] 1 None (lit "anonymous") false = Ok g0
    /\ start_game world0 g0 = (w1, apple_session 1 [] false false, Ok ())
    /\ (check_guess w1 (apple_session 1 [] false false) (lit "GRAPE")).1
       = (w1, apple_session 1 [lit "GRAPE"] true false)
    /\ game_over (apple_session 1 [lit "GRAPE"] true false) = true
    /\ check_guess w1 (apple_session 1 [lit "GRAPE"] true false) (lit "APPLE")
       = (w1, apple_session 1 [lit "GRAPE"; lit "APPLE"] true true,
          Ok ([Correct; Correct; Correct; Correct; Correct],
              [("A"%char, Check_mark); ("P"%char, Check_mark); ("P"%char, Check_mark);
               ("L"%char, Check_mark); ("E"%char, Check_mark)])).
Proof. do 2 eexists. repeat split; vm_compute; reflexivity. Qed.

(** C1, amended.  For every session in a terminal state, a further
    [check_guess] raises no finished-state error and leaves [game_over]
    true; a won flag that is set stays set.  A session that was never
    started gets the not-started error.  Otherwise the guess is validated:
    a normalised guess of another length than the target's raises the
    length-mismatch error, one of that length that is not alphabetic raises
    the invalid-character error, and either leaves the session and the
    world unchanged; a guess that passes both is appended to the attempts,
    sets the won flag if it equals the target, and its letter feedback is
    returned (unless the score store is one the model does not read).  The
    cases of the validation are those of a guess that [normalize] is
    modelled on. *)
Theorem C1_terminal_session_amended (w : world) (g : WordGuruGame) (raw : str)
    (w' : world) (g' : WordGuruGame) (r : result (list status * list (ascii * mark))) :
  game_over g = true ->
  check_guess w g raw = (w', g', r) ->
  game_over g' = true
  /\ (won g = true -> won g' = true)
  /\ (current_word g = None ->
      r = Raise RuntimeError_not_started /\ g' = g /\ w' = w)
  /\ (forall target guess,
        current_word g = Some target ->
        normalize raw = Ok guess ->
        (length guess <> length target ->
         r = Raise (ValueError_length (length target)) /\ g' = g /\ w' = w)
        /\ (length guess = length target -> isalpha guess = false ->
            r = Raise ValueError_letters /\ g' = g /\ w' = w)
        /\ (length guess = length target -> isalpha guess = true ->
            attempts g' = attempts g ++ [guess]
            /\ won g' = (won g || bool_decide (guess = target))
            /\ exists fb,
                 letter_feedback target guess = Ok fb
                 /\ (r = Ok (letter_statuses fb, feedback_summary fb)
                     \/ (r = Unmodelled /\ scores_path g <> None)))).
Proof.
  intros Hover Hcall.
  destruct (current_word g) as [target |] eqn:Hcw.
  - destruct (valid_guess target raw) eqn:Hv.
    + destruct (check_guess_accept w g target raw Hcw Hv) as (w1 & r1 & fb & Hcg & Hfb & Hr).
      rewrite Hcg in Hcall. injection Hcall as <- <- <-.
      destruct (after_guess_fields g target (strip (upper raw))) as (Ha & Hw & Hg & _).
      rewrite Hg, Hw, Hover.
      split; [done |]. split; [by intros -> |]. split; [done |].
      intros target0 guess [= <-] [_ <-]%normalize_Ok_inv.
      unfold valid_guess in Hv.
      apply andb_true_iff in Hv as [[_ Hl%Nat.eqb_eq]%andb_true_iff Hal].
      split; [done |]. split; [by rewrite Hal |].
      intros _ _. split; [done |]. split; [done |]. by exists fb.
    + rewrite (check_guess_reject w g target raw Hcw Hv) in Hcall.
      injection Hcall as <- <- <-.
      split; [done |]. split; [done |]. split; [done |].
      intros target0 guess [= <-] [Hf <-]%normalize_Ok_inv.
      unfold valid_guess in Hv. rewrite Hf in *. cbn [negb andb] in *.
      destruct (_ =? _)%nat eqn:Hl; cbn [negb andb] in *.
      * apply Nat.eqb_eq in Hl. split; [done |]. split; [done |].
        intros _ Hal. by rewrite Hal in Hv.
      * apply Nat.eqb_neq in Hl. done.
  - rewrite (check_guess_not_started w g raw Hcw) in Hcall.
    injection Hcall as <- <- <-. done.
Qed.

Lemma C1_witness :
  attempts (apple_session 1 [lit "GRAPE"; lit "APPLE"] true true)
  = attempts (apple_session 1 [lit "GRAPE"] true false) ++ [lit "APPLE"]
  /\ won (apple_session 1 [lit "GRAPE"; lit "APPLE"] true true)
     = (won (apple_session 1 [lit "GRAPE"] true false)
        || bool_decide (lit "APPLE" = lit "APPLE")).
Proof.
  destruct (C1_terminal_session_amended world0
              (apple_session 1 [lit "GRAPE"] true false) (lit "APPLE")
              world0 (apple_session 1 [lit "GRAPE"; lit "APPLE"] true true)
              (Ok ([Correct; Correct; Correct; Correct; Correct],
                   [("A"%char, Check_mark); ("P"%char, Check_mark);
                    ("P"%char, Check_mark); ("L"%char, Check_mark);
                    ("E"%char, Check_mark)])))
    as (_ & _ & _ & H); [reflexivity | vm_compute; reflexivity |].
  destruct (H (lit "APPLE") (lit "APPLE")) as (_ & _ & H3);
    [reflexivity | vm_compute; reflexivity |].
  destruct H3 as (Ha & Hw & _); [reflexivity | reflexivity |].
  split; [exact Ha | exact Hw].
Defined.

(** C7, as stated, fails, on each of its readings of the invalid-character
    test.  Against the five-letter word APPLE: the guess 12 is not
    alphabetic, before normalisation or after it, yet the error raised is
    the length-mismatch one; the guess that ends in a small e with an acute
    accent matches the pattern neither before nor after normalisation, yet
    it is accepted and scored; and the guess apple behind a space does not
    match the pattern before normalisation, yet it is accepted and wins. *)
Lemma C7_counterexample :
  current_word (apple_session 6 [] false false) = Some (lit "APPLE")
  /\ (matches_letters (lit "12") = false
      /\ matches_letters (strip (upper (lit "12"))) = false
      /\ check_guess world0 (apple_session 6 [] false false) (lit "12")
         = (world0, apple_session 6 [] false false, Raise (ValueError_length 5))
      /\ Raise (ValueError_length 5)
         <> @Raise (list status * list (ascii * mark)) ValueError_letters)
  /\ (matches_letters (lit "appl" ++ [small_e_acute]) = false
      /\ normalize (lit "appl" ++ [small_e_acute]) = Ok (lit "APPL" ++ [capital_e_acute])
      /\ matches_letters (lit "APPL" ++ [capital_e_acute]) = false
      /\ check_guess world0 (apple_session 6 [] false false)
           (lit "appl" ++ [small_e_acute])
         = (world0, apple_session 6 [lit "APPL" ++ [capital_e_acute]] false false,
            Ok ([Correct; Correct; Correct; Correct; Absent],
                [("A"%char, Check_mark); ("P"%char, Check_mark);
                 ("P"%char, Check_mark); ("L"%char, Check_mark);
                 (capital_e_acute, Cross_mark)])))
  /\ (matches_letters (lit " apple") = false
      /\ check_guess world0 (apple_session 6 [] false false) (lit " apple")
         = (world0, apple_session 6 [lit "APPLE"] true true,
            Ok ([Correct; Correct; Correct; Correct; Correct],
                [("A"%char, Check_mark); ("P"%char, Check_mark);
                 ("P"%char, Check_mark); ("L"%char, Check_mark);
                 ("E"%char, Check_mark)]))).
Proof. repeat split; try (vm_compute; reflexivity). discriminate. Qed.

(** C7, amended.  For every started session and every raw guess,
    [check_guess] raises the length-mismatch error exactly when the length
    of the normalised guess differs from the target's; it raises the
    invalid-character error exactly when the normalised guess has the
    target's length and is not alphabetic in the sense of [str.isalpha]; and
    on either error the session and the world are unchanged.  Every string
    that matches the pattern of letters is alphabetic in that sense, and an
    ASCII string is so only if it matches the pattern.  The guess is one
    that [normalize] is modelled on. *)
Theorem C7_validation_amended (w : world) (g : WordGuruGame) (target raw guess : str)
    (w' : world) (g' : WordGuruGame) (r : result (list status * list (ascii * mark))) :
  current_word g = Some target ->
  normalize raw = Ok guess ->
  check_guess w g raw = (w', g', r) ->
  ((exists n, r = Raise (ValueError_length n)) <-> length guess <> length target)
  /\ (r = Raise ValueError_letters
      <-> length guess = length target /\ isalpha guess = false)
  /\ ((exists n, r = Raise (ValueError_length n)) \/ r = Raise ValueError_letters ->
      w' = w /\ g' = g)
  /\ (forall n, r = Raise (ValueError_length n) -> n = length target)
  /\ (matches_letters guess = true -> isalpha guess = true)
  /\ (ascii_text guess = true -> isalpha guess = matches_letters guess).
Proof.
  intros Hcw [Hf <-]%normalize_Ok_inv Hcall.
  assert (Hpat : (matches_letters (strip (upper raw)) = true
                  -> isalpha (strip (upper raw)) = true)
                 /\ (ascii_text (strip (upper raw)) = true
                     -> isalpha (strip (upper raw)) = matches_letters (strip (upper raw)))).
  { split; [apply matches_letters_isalpha | apply isalpha_matches_letters]. }
  destruct (valid_guess target raw) eqn:Hv.
  - destruct (check_guess_accept w g target raw Hcw Hv) as (w1 & r1 & fb & Hcg & _ & Hr).
    rewrite Hcg in Hcall. injection Hcall as <- <- <-.
    unfold valid_guess in Hv. rewrite Hf in Hv. simpl in Hv.
    apply andb_true_iff in Hv as [Hl%Nat.eqb_eq Hal].
    rewrite Hal.
    assert (Hno : forall e, r1 <> Raise e) by (intros e ->; by destruct Hr as [? | [? _]]).
    split; [| split; [| split; [| split]]].
    + split; [intros [n Hn]; by destruct (Hno _ Hn) | done].
    + split; [intros Hn; by destruct (Hno _ Hn) | by intros [_ ?]].
    + intros [[n Hn] | Hn]; by destruct (Hno _ Hn).
    + intros n Hn. by destruct (Hno _ Hn).
    + by rewrite Hal in Hpat.
  - rewrite (check_guess_reject w g target raw Hcw Hv) in Hcall.
    injection Hcall as <- <- <-.
    unfold valid_guess in Hv. rewrite Hf in *. simpl in *.
    destruct (_ =? _)%nat eqn:Hl; simpl in *.
    + apply Nat.eqb_eq in Hl. split; [| split; [| split; [| split]]].
      * split; [by intros [n [=]] | done].
      * done.
      * done.
      * by intros n [=].
      * done.
    + apply Nat.eqb_neq in Hl. split; [| split; [| split; [| split]]].
      * split; [done | eauto].
      * split; [done | by intros [? _]].
      * done.
      * by intros n [= <-].
      * done.
Qed.

Lemma C7_witness :
  (Raise (ValueError_length 5)
   = @Raise (list status * list (ascii * mark)) ValueError_letters
   <-> length (lit "12") = length (lit "APPLE") /\ isalpha (lit "12") = false)
  /\ (@Raise (list status * list (ascii * mark)) ValueError_letters
      = Raise ValueError_letters
      <-> length (lit "APPL1") = length (lit "APPLE") /\ isalpha (lit "APPL1") = false).
Proof.
  split.
  - destruct (C7_validation_amended world0 (apple_session 6 [] false false)
                (lit "APPLE") (lit "12") (lit "12") world0
                (apple_session 6 [] false false) (Raise (ValueError_length 5)))
      as (_ & H & _); [reflexivity | reflexivity | vm_compute; reflexivity |].
    exact H.
  - destruct (C7_validation_amended world0 (apple_session 6 [] false false)
                (lit "APPLE") (lit "appl1") (lit "APPL1") world0
                (apple_session 6 [] false false) (Raise ValueError_letters))
      as (_ & H & _); [reflexivity | reflexivity | vm_compute; reflexivity |].
    exact H.
Defined.

(** ** The attempt budget *)

Lemma start_game_fresh (w0 : world) (g0 : WordGuruGame) (w : world) (g : WordGuruGame) :
  start_game w0 g0 = (w, g, Ok ()) ->
  attempts g = [] /\ game_over g = false /\ won g = false
  /\ max_attempts g = max_attempts g0 /\ is_Some (current_word g).
Proof.
  unfold start_game. destruct (word_list g0); [done |].
  destruct (if daily_mode g0 then _ else _) as [w1 [word | e |]]; [| done..].
  intros [= <- <-]. simpl. eauto 10.
Qed.

(** The terminal flag along a run without a winning guess. *)
Lemma submit_all_no_win (target : str) (N : Z) : forall (guesses : list str) w g,
  current_word g = Some target ->
  max_attempts g = N ->
  won g = false ->
  game_over g = bool_decide (N <= Z.of_nat (length (attempts g))) ->
  Forall (fun raw => normalize raw <> Ok target) guesses ->
  let g' := (submit_all w g guesses).2 in
  let k := length (filter (fun raw => valid_guess target raw = true) guesses) in
  game_over g' = bool_decide (N <= Z.of_nat (length (attempts g) + k))
  /\ won g' = false
  /\ length (attempts g') = (length (attempts g) + k)%nat.
Proof.
  induction guesses as [|raw guesses IH]; intros w g Hcw HN Hwon Hover Hall.
  - simpl. rewrite Nat.add_0_r. done.
  - apply Forall_cons in Hall as [Hraw Hall]. cbn [submit_all].
    rewrite filter_cons.
    destruct (valid_guess target raw) eqn:Hv.
    + destruct (check_guess_accept w g target raw Hcw Hv) as (w1 & r1 & fb & -> & _).
      destruct (after_guess_fields g target (strip (upper raw)))
        as (Ha & Hw & Hg & Hc & Hm).
      assert (Hne : strip (upper raw) <> target).
      { intros Heq. apply Hraw. unfold normalize, valid_guess in *.
        destruct (upper_fits raw); [by rewrite Heq | done]. }
      rewrite (bool_decide_eq_false_2 _ Hne), orb_false_r in Hw, Hg.
      specialize (IH w1 (after_guess g target (strip (upper raw)))).
      rewrite Ha, Hm, Hw, Hg, Hc, length_app in IH. simpl in IH.
      rewrite decide_True by done.
      cbn [length]. rewrite Nat.add_1_r in IH. rewrite Nat.add_succ_r, <- Nat.add_succ_l.
      apply IH; try done.
      rewrite Hover, HN. repeat case_bool_decide; destruct (N <=? _) eqn:Hle;
        try done; try (apply Z.leb_le in Hle); try (apply Z.leb_gt in Hle); lia.
    + rewrite (check_guess_reject w g target raw Hcw Hv).
      rewrite decide_False by done.
      by apply IH.
Qed.

(** C6. A session started with [max_attempts = N >= 1] to which no guess
    equal to the target is submitted is terminal exactly when at least [N]
    of the submitted guesses were valid, and it is then lost: after fewer
    than [N] valid guesses [game_over] is false, from the [N]-th on it is
    true, and [won] stays false.  The guesses are of characters that
    [upper] is modelled on. *)
Theorem C6_attempt_budget (w0 : world) (g0 : WordGuruGame) (w : world)
    (g : WordGuruGame) (target : str) (guesses : list str) :
  start_game w0 g0 = (w, g, Ok ()) ->
  1 <= max_attempts g0 ->
  current_word g = Some target ->
  Forall (fun raw => upper_fits raw = true) guesses ->
  Forall (fun raw => normalize raw <> Ok target) guesses ->
  let g' := (submit_all w g guesses).2 in
  let k := length (filter (fun raw => valid_guess target raw = true) guesses) in
  game_over g' = bool_decide (max_attempts g0 <= Z.of_nat k)
  /\ won g' = false
  /\ length (attempts g') = k.
Proof.
  intros Hstart HN Hcw _ Hall.
  destruct (start_game_fresh w0 g0 w g Hstart) as (Ha & Hg & Hw & Hm & _).
  pose proof (submit_all_no_win target (max_attempts g0) guesses w g Hcw Hm Hw) as H.
  rewrite Ha, Hg in H. simpl in H. apply H; [| done].
  symmetry. apply bool_decide_eq_false_2. lia.
Qed.

Lemma C6_witness :
  game_over (submit_all (World ∅ ∅ (now world0) (rng world0) 1)
               (apple_session 2 [] false false)
               [lit "WRONG"; lit "12"; lit "appl" ++ [small_e_acute]]).2 = true
  /\ game_over (submit_all (World ∅ ∅ (now world0) (rng world0) 1)
                  (apple_session 2 [] false false)
                  [lit "WRONG"; lit "12"]).2 = false.
Proof.
  split.
  - edestruct (C6_attempt_budget world0
                 (Game [lit "APPLE"] 2 None (lit "anonymous") false None [] false false)
                 (World ∅ ∅ (now world0) (rng world0) 1)
                 (apple_session 2 [] false false) (lit "APPLE")
                 [lit "WRONG"; lit "12"; lit "appl" ++ [small_e_acute]]) as (H & _);
      [reflexivity | vm_compute; discriminate | reflexivity
      | repeat (constructor; [vm_compute; reflexivity |]); constructor
      | repeat (constructor; [vm_compute; discriminate |]); constructor |].
    exact H.
  - edestruct (C6_attempt_budget world0
                 (Game [lit "APPLE"] 2 None (lit "anonymous") false None [] false false)
                 (World ∅ ∅ (now world0) (rng world0) 1)
                 (apple_session 2 [] false false) (lit "APPLE")
                 [lit "WRONG"; lit "12"]) as (H & _);
      [reflexivity | vm_compute; discriminate | reflexivity
      | repeat (constructor; [vm_compute; reflexivity |]); constructor
      | repeat (constructor; [vm_compute; discriminate |]); constructor |].
    exact H.
Defined.

(** ** The daily selector *)

Lemma be_bytes_length (n : nat) : forall x, length (be_bytes n x) = n.
Proof.
  induction n as [|n IH]; intros x; simpl; [done |].
  rewrite length_app, IH. simpl. lia.
Qed.

Lemma be_bytes_range (n : nat) : forall x, Forall is_byte (be_bytes n x).
Proof.
  induction n as [|n IH]; intros x; simpl; [constructor |].
  apply Forall_app. split; [apply IH |]. constructor; [| constructor].
  unfold is_byte. apply Z.mod_pos_bound. lia.
Qed.

Lemma sha256_round_length (vars : list Z) (kw : Z * Z) :
  length (sha256_round vars kw) = length vars.
Proof.
  unfold sha256_round.
  repeat (destruct vars as [|? vars]; try done).
Qed.

Lemma sha256_block_length (H block : list Z) :
  length (sha256_block H block) = length H.
Proof.
  unfold sha256_block. rewrite length_zip_with.
  enough (forall l vars, length (foldl sha256_round vars l) = length vars) as -> by lia.
  induction l as [|kw l IH]; intros vars; simpl; [done |].
  by rewrite IH, sha256_round_length.
Qed.

Lemma sha256_blocks_length (count : nat) : forall H bytes,
  length (sha256_blocks count H bytes) = length H.
Proof.
  induction count as [|count IH]; intros H bytes; simpl; [done |].
  by rewrite IH, sha256_block_length.
Qed.

(** A digest is 32 bytes. *)
Lemma sha256_digest (msg : list Z) :
  length (sha256 msg) = 32%nat /\ Forall is_byte (sha256 msg).
Proof.
  unfold sha256.
  set (H := sha256_blocks _ _ _).
  assert (HH : length H = 8%nat) by (subst H; by rewrite sha256_blocks_length).
  clearbody H.
  enough (length (flat_map (be_bytes 4) H) = (4 * length H)%nat
          /\ Forall is_byte (flat_map (be_bytes 4) H)) as [-> ?] by (split; [lia | done]).
  clear HH. induction H as [|x H [IH1 IH2]]; [by split |].
  cbn [flat_map]. rewrite length_app, be_bytes_length, IH1. split; [simpl; lia |].
  apply Forall_app. split; [apply be_bytes_range | done].
Qed.

Lemma hex_digit_hex_chr (n : N) : (n < 16)%N -> hex_digit (hex_chr n) = Some n.
Proof.
  intros Hn.
  assert (Hcases : n ∈ [0; 1; 2; 3; 4; 5; 6; 7; 8; 9; 10; 11; 12; 13; 14; 15]%N).
  { destruct n as [|p]; [set_solver |].
    do 4 (destruct p as [p | p |]; try lia; try set_solver). }
  repeat (apply elem_of_cons in Hcases as [-> | Hcases]; [done |]).
  by apply elem_of_nil in Hcases.
Qed.

Lemma hex_chars (bytes : list Z) :
  Forall is_byte bytes ->
  length (hex bytes) = (2 * length bytes)%nat /\ Forall is_hex_digit (hex bytes).
Proof.
  induction 1 as [|b bytes [Hb1 Hb2] _ [IH1 IH2]]; [by split |].
  unfold hex in *. cbn [flat_map]. split; [simpl; lia |].
  assert (Hlt : (Z.to_N b < 256)%N) by lia.
  apply Forall_app. split; [| done].
  repeat constructor; unfold is_hex_digit; rewrite hex_digit_hex_chr; try done.
  - apply N.Div0.div_lt_upper_bound. lia.
  - apply N.mod_lt. lia.
Qed.

Lemma int_base16_digits (s : str) :
  s <> [] ->
  Forall is_hex_digit s ->
  int_base16 s = Ok (hex_value s) /\ 0 <= hex_value s < 16 ^ Z.of_nat (length s).
Proof.
  intros Hne Hs. unfold int_base16.
  set (step := fun (acc : result Z) (c : ascii) => _).
  assert (Hgen : forall acc, 0 <= acc ->
            foldl step (Ok acc) s = Ok (acc * 16 ^ Z.of_nat (length s) + hex_value s)
            /\ 0 <= hex_value s < 16 ^ Z.of_nat (length s)).
  { clear Hne. induction Hs as [|c s [n Hc] _ IH]; intros acc Hacc.
    - simpl. split; [f_equal |]; lia.
    - cbn [foldl hex_value length]. subst step. cbn beta. cbn [mbind result_bind].
      rewrite Hc. cbn [default].
      assert (Hn : (n < 16)%N).
      { unfold hex_digit in Hc. repeat case_match; simplify_eq;
          repeat match goal with
                 | H : (_ && _) = true |- _ => apply andb_true_iff in H as [? ?]
                 | H : (_ <=? _)%N = true |- _ => apply N.leb_le in H
                 end; lia. }
      destruct (IH (acc * 16 + Z.of_N n)) as [-> [H0 H1]]; [lia |].
      unfold id. rewrite Nat2Z.inj_succ, Z.pow_succ_r by lia.
      set (P := 16 ^ Z.of_nat (length s)) in *.
      split; [f_equal; ring | nia]. }
  destruct s as [|c s]; [done |].
  destruct (Hgen 0) as [-> ?]; [lia |]. split; [f_equal; lia | done].
Qed.

Lemma daily_seed_ok (d : date) :
  int_base16 (take 8 (hexdigest (encode (str_of_date d)))) = Ok (daily_seed d)
  /\ 0 <= daily_seed d < 2 ^ 32.
Proof.
  unfold daily_seed, hexdigest.
  destruct (sha256_digest (encode (str_of_date d))) as [Hlen Hbytes].
  destruct (hex_chars _ Hbytes) as [Hhl Hhex]. rewrite Hlen in Hhl.
  set (hash_hex := hex _) in *.
  assert (Ht : length (take 8 hash_hex) = 8%nat) by (rewrite length_take; lia).
  destruct (int_base16_digits (take 8 hash_hex)) as [-> Hr].
  - intros Heq. by rewrite Heq in Ht.
  - by apply Forall_take.
  - rewrite Ht in Hr. split; [done |]. change (2 ^ 32) with (16 ^ Z.of_nat 8). lia.
Qed.

Lemma list_getitem_mod {A} (l : list A) (seed : Z) :
  l <> [] -> 0 <= seed ->
  exists x, l !! Z.to_nat (seed `mod` Z.of_nat (length l)) = Some x
            /\ list_getitem l (seed `mod` Z.of_nat (length l)) = Ok x.
Proof.
  intros Hne Hseed. unfold list_getitem.
  assert (Hpos : 0 < Z.of_nat (length l)) by (destruct l; [done | simpl; lia]).
  pose proof (Z.mod_pos_bound seed (Z.of_nat (length l)) Hpos) as Hb.
  set (i := seed `mod` Z.of_nat (length l)) in *.
  destruct (i <? 0) eqn:H0; [apply Z.ltb_lt in H0; lia |].
  rewrite H0. destruct (_ <=? i) eqn:H1; [apply Z.leb_le in H1; lia |]. simpl.
  destruct (lookup_lt_is_Some_2 l (Z.to_nat i)) as [x Hx]; [lia |].
  exists x. by rewrite Hx.
Qed.

(** [select_daily_word] with an explicit date. *)
Lemma select_daily_word_spec (w : world) (words : list str) (od : option date) :
  words <> [] ->
  let d := match od with Some d => d | None => date_of (now w) end in
  exists word,
    words !! Z.to_nat (daily_seed d `mod` Z.of_nat (length words)) = Some word
    /\ select_daily_word w words od = normalize word.
Proof.
  intros Hne d. unfold select_daily_word.
  destruct words as [|w0 words]; [done |].
  fold d. destruct (daily_seed_ok d) as [-> [H0 _]]. cbn [mbind result_bind].
  destruct (list_getitem_mod (w0 :: words) (daily_seed d)) as (word & Hw & ->); [done.. |].
  exists word. split; done.
Qed.

(** C4. For a non-empty word list and a date, [select_daily_word] returns
    the word at index [seed mod len(words)], uppercased and trimmed, where
    [seed] is the unsigned 32-bit integer written by the first eight
    hexadecimal characters of the SHA-256 digest of the date in the form
    YYYY-MM-DD; it raises the empty-list error for an empty list. *)
Theorem C4_select_daily_word (w : world) (words : list str) (d : date) :
  (words = [] -> select_daily_word w words (Some d) = Raise ValueError_empty_words)
  /\ (words <> [] ->
      exists word,
        0 <= daily_seed d < 2 ^ 32
        /\ words !! Z.to_nat (daily_seed d `mod` Z.of_nat (length words)) = Some word
        /\ select_daily_word w words (Some d) = normalize word
        /\ (ascii_text word = true ->
            select_daily_word w words (Some d) = Ok (strip (upper word)))).
Proof.
  split; [by intros -> |]. intros Hne.
  destruct (select_daily_word_spec w words (Some d) Hne) as (word & Hw & Hs).
  exists word. split; [apply daily_seed_ok |]. split; [done |]. split; [done |].
  intros Ha. rewrite Hs. unfold normalize. by rewrite (ascii_upper_fits _ Ha).
Qed.

Lemma C4_witness :
  select_daily_word world0 [] (Some (Date 2024 6 15)) = Raise ValueError_empty_words
  /\ exists word,
       [lit "apple"; lit "grape"; lit "peach"] !! 1%nat = Some word
       /\ select_daily_word world0 [lit "apple"; lit "grape"; lit "peach"]
            (Some (Date 2024 6 15)) = Ok (strip (upper word)).
Proof.
  split.
  - exact (proj1 (C4_select_daily_word world0 [] (Date 2024 6 15)) eq_refl).
  - destruct (proj2 (C4_select_daily_word world0 [lit "apple"; lit "grape"; lit "peach"]
                       (Date 2024 6 15)) ltac:(discriminate))
      as (word & _ & Hw & _ & Hs).
    exists word. split.
    + rewrite <- Hw. vm_compute. reflexivity.
    + apply Hs. vm_compute in Hw. injection Hw as <-. reflexivity.
Defined.

(** C5. [select_daily_word] is deterministic: with the same word list and
    date the result is the same whatever the state of the world (files,
    clock, random generator); and for a one-word list the result is that
    word, uppercased and trimmed, whatever the date. *)
Theorem C5_select_daily_word_deterministic :
  (forall (w1 w2 : world) (words : list str) (d : date),
     select_daily_word w1 words (Some d) = select_daily_word w2 words (Some d))
  /\ (forall (w : world) (word : str) (od : option date),
        select_daily_word w [word] od = normalize word)
  /\ (forall (w : world) (word : str) (od : option date),
        ascii_text word = true ->
        select_daily_word w [word] od = Ok (strip (upper word))).
Proof.
  assert (Hone : forall w word od, select_daily_word w [word] od = normalize word).
  { intros w word od.
    destruct (select_daily_word_spec w [word] od) as (x & Hx & ->); [done |].
    simpl in Hx. rewrite Z.mod_1_r in Hx. simpl in Hx. by injection Hx as ->. }
  split; [| split; [done |]].
  - intros w1 w2 words d. by destruct words.
  - intros w word od Ha. rewrite Hone. unfold normalize.
    by rewrite (ascii_upper_fits _ Ha).
Qed.

Example str_of_date_2024_06_15 : str_of_date (Date 2024 6 15) = lit "2024-06-15".
Proof. reflexivity. Qed.

Example hexdigest_abc :
  hexdigest (encode (lit "abc"))
  = lit "ba7816bf8f01cfea414140de5dae2223b00361a396177a9cb410ff61f20015ad".
Proof. vm_compute. reflexivity. Qed.

Example daily_seed_2024_06_15 : daily_seed (Date 2024 6 15) = 243143980.
Proof. vm_compute. reflexivity. Qed.

Lemma C5_witness :
  select_daily_word world0 [lit " tiger "] None = Ok (lit "TIGER")
  /\ select_daily_word world0 [lit " tiger "] (Some (Date 1999 12 31)) = Ok (lit "TIGER").
Proof.
  destruct C5_select_daily_word_deterministic as (_ & _ & H).
  split; apply (H world0 (lit " tiger ")); reflexivity.
Defined.

(** ** The JSON codec: decoding what was encoded *)

Lemma value_ind' (P : value -> Prop) :
  P VNone -> (forall b, P (VBool b)) -> (forall z, P (VInt z)) -> (forall s, P (VStr s)) ->
  (forall l, Forall P l -> P (VList l)) ->
  (forall d, Forall (fun kv => P kv.2) d -> P (VDict d)) ->
  forall v, P v.
Proof.
  intros HN HB HI HS HL HD. fix IH 1. intros [| b | z | s | l | d]; [done.. | |].
  - apply HL. induction l as [|x l IHl]; constructor; [apply IH | apply IHl].
  - apply HD. induction d as [|[k x] d IHd]; constructor; [apply IH | apply IHd].
Qed.

Lemma scanstring_escape_chr (c : ascii) (r : str) :
  scanstring (escape_chr c ++ r) = '(t, rest) ← scanstring r; Ok (c :: t, rest).
Proof.
  unfold escape_chr.
  repeat (destruct (decide _) as [-> | ?]; [reflexivity |]).
  destruct (ord c <? 32)%N eqn:Hlt.
  - destruct c as [[] [] [] [] [] [] [] []]; try discriminate Hlt; try done.
  - cbn [app scanstring]. rewrite !decide_False by done. by rewrite Hlt.
Qed.

Lemma scanstring_encoded (s rest : str) :
  scanstring (flat_map escape_chr s ++ quote_chr :: rest) = Ok (s, rest).
Proof.
  induction s as [|c s IH]; [done |].
  cbn [flat_map]. rewrite <- app_assoc, scanstring_escape_chr, IH. done.
Qed.

Lemma scan_digits_chars (d : Decimal.uint) (rest : str) :
  match rest with [] => True | c :: _ => is_digit c = false end ->
  scan_digits (uint_chars d ++ rest) = (d, rest).
Proof.
  intros Hrest. induction d as [| d IH | d IH | d IH | d IH | d IH | d IH | d IH | d IH
                                | d IH | d IH]; cbn [uint_chars app];
    try (cbn [scan_digits]; rewrite IH; reflexivity).
  destruct rest as [|c rest]; [done |]. cbn [scan_digits]. by rewrite Hrest.
Qed.

Lemma to_uint_head (p : positive) :
  exists c r, uint_chars (Pos.to_uint p) = c :: r
              /\ is_digit c = true /\ c <> "0"%char.
Proof.
  pose proof (DecimalPos.Unsigned.to_uint_nonzero p) as Hnz.
  pose proof (DecimalPos.Unsigned.to_uint_nonnil p) as Hnn.
  pose proof (DecimalPos.Unsigned.to_of (Pos.to_uint p)) as Hun.
  rewrite DecimalPos.Unsigned.of_to in Hun. cbn [N.to_uint] in Hun.
  destruct (Pos.to_uint p) as [| d | d | d | d | d | d | d | d | d | d] eqn:Hd;
    try done; try (cbn [uint_chars]; by eauto).
  exfalso. rewrite DecimalFacts.unorm_D0 in Hun.
  unfold Decimal.unorm in Hun.
  destruct (Decimal.nzhead d) as [| u | | | | | | | | |] eqn:Hh; try done.
  by apply (DecimalFacts.nzhead_nonzero d u).
Qed.

Lemma scan_integer_repr (z : Z) (rest : str) :
  match rest with [] => True | c :: _ => is_digit c = false end ->
  scan_integer (int_repr z ++ rest) = Some (z, rest)
  /\ exists c r, int_repr z = c :: r /\ (is_digit c = true \/ c = "-"%char).
Proof.
  intros Hrest. unfold int_repr.
  destruct z as [| p | p]; cbn [Z.ltb Z.compare Z.abs_N N.to_uint].
  - split; [done | by eauto].
  - destruct (to_uint_head p) as (c & r & Hc & Hdig & Hnz).
    split; [| by eauto].
    unfold scan_integer. rewrite Hc. cbn [app].
    rewrite decide_False by (intros ->; done).
    rewrite decide_False by done. rewrite Hdig.
    change (c :: r ++ rest) with ((c :: r) ++ rest).
    rewrite <- Hc, scan_digits_chars by done.
    pose proof (DecimalPos.Unsigned.of_to p) as Hof. unfold N.of_uint. by rewrite Hof.
  - destruct (to_uint_head p) as (c & r & Hc & Hdig & Hnz).
    split; [| by eauto].
    unfold scan_integer. cbn [app]. rewrite decide_True by done.
    rewrite Hc. cbn [app]. rewrite decide_False by done. rewrite Hdig.
    change (c :: r ++ rest) with ((c :: r) ++ rest).
    rewrite <- Hc, scan_digits_chars by done.
    pose proof (DecimalPos.Unsigned.of_to p) as Hof. unfold N.of_uint. by rewrite Hof.
Qed.

Lemma skip_ws_head (c : ascii) (r : str) :
  is_json_ws c = false -> skip_ws (c :: r) = c :: r.
Proof. intros H. simpl. by rewrite H. Qed.

Lemma skip_ws_newline_indent (n : nat) (s : str) :
  skip_ws (newline_indent n ++ s) = skip_ws s.
Proof.
  unfold newline_indent. cbn [app skip_ws].
  change (is_json_ws newline_chr) with true. cbn iota.
  induction (2 * n)%nat as [|k IH]; [done |]. simpl. exact IH.
Qed.

Lemma digit_or_minus_head (c : ascii) :
  is_digit c = true \/ c = "-"%char ->
  starts_value c /\ c <> quote_chr /\ c <> "{"%char /\ c <> "["%char
  /\ c <> "n"%char /\ c <> "t"%char /\ c <> "f"%char.
Proof.
  intros [H | ->]; [| by repeat split].
  destruct c as [[] [] [] [] [] [] [] []]; try discriminate H; by repeat split.
Qed.

Lemma iterencode_head (level : nat) (v : value) :
  exists c r, iterencode level v = c :: r /\ starts_value c.
Proof.
  destruct v as [| [] | z | s | [|x l] | [|[k x] d]];
    try (do 2 eexists; split; [reflexivity | by repeat split]).
  cbn [iterencode].
  destruct (scan_integer_repr z []) as [_ (c & r & -> & Hc)]; [done |].
  exists c, r. split; [done |]. by apply digit_or_minus_head.
Qed.

Lemma dict_set_fresh (d : list (str * value)) (k : str) (v : value) :
  k ∉ map fst d -> dict_set d k v = d ++ [(k, v)].
Proof.
  induction d as [|[k' v'] d IH]; intros Hk; [done |]. simpl in *.
  apply not_elem_of_cons in Hk as [Hne Hk].
  rewrite decide_False by done. by rewrite IH.
Qed.

Lemma dict_of_pairs_nodup (d : list (str * value)) :
  NoDup (map fst d) -> dict_of_pairs d = d.
Proof.
  unfold dict_of_pairs.
  enough (forall acc, NoDup (map fst (acc ++ d)) ->
            foldl (fun d kv => dict_set d kv.1 kv.2) acc d = acc ++ d) as H
    by (intros Hd; by apply (H [])).
  induction d as [|[k v] d IH]; intros acc Hnd; simpl.
  - by rewrite app_nil_r.
  - rewrite dict_set_fresh.
    + rewrite IH; rewrite <- app_assoc; done.
    + rewrite map_app in Hnd. simpl in Hnd.
      apply NoDup_app in Hnd as (_ & Hdis & _).
      intros Hin. apply (Hdis k Hin). by left.
Qed.

Ltac normalize_app :=
  repeat first [ rewrite <- app_assoc
               | progress cbn [app fst snd flat_map lit list_ascii_of_string] ].

Lemma iterencode_list_cons (level : nat) (x : value) (xs : list value) (rest : str) :
  iterencode level (VList (x :: xs)) ++ rest
  = "["%char :: newline_indent (S level) ++ iterencode (S level) x
    ++ more_items level xs ++ newline_indent level ++ "]"%char :: rest.
Proof.
  cbn [iterencode]. fold (more_items level xs). by normalize_app.
Qed.

Lemma iterencode_dict_cons (level : nat) (k : str) (x : value) (d : list (str * value))
    (rest : str) :
  iterencode level (VDict ((k, x) :: d)) ++ rest
  = "{"%char :: newline_indent (S level) ++ quote_chr :: flat_map escape_chr k
    ++ quote_chr :: ":"%char :: " "%char :: iterencode (S level) x
    ++ more_pairs level d ++ newline_indent level ++ "}"%char :: rest.
Proof.
  cbn [iterencode]. fold (more_pairs level d). unfold encode_basestring.
  by normalize_app.
Qed.

Lemma more_items_cons (level : nat) (y : value) (ys : list value) (rest : str) :
  more_items level (y :: ys) ++ rest
  = ","%char :: newline_indent (S level) ++ iterencode (S level) y
    ++ more_items level ys ++ rest.
Proof. unfold more_items. by normalize_app. Qed.

Lemma more_pairs_cons (level : nat) (k : str) (y : value) (d : list (str * value))
    (rest : str) :
  more_pairs level ((k, y) :: d) ++ rest
  = ","%char :: newline_indent (S level) ++ quote_chr :: flat_map escape_chr k
    ++ quote_chr :: ":"%char :: " "%char :: iterencode (S level) y
    ++ more_pairs level d ++ rest.
Proof.
  unfold more_pairs, encode_basestring. by normalize_app.
Qed.

Lemma skip_ws_iterencode (level : nat) (v : value) (rest : str) :
  skip_ws (iterencode level v ++ rest) = iterencode level v ++ rest
  /\ exists c r, iterencode level v ++ rest = c :: r /\ starts_value c.
Proof.
  destruct (iterencode_head level v) as (c & r & -> & Hc).
  split; [apply skip_ws_head, Hc | by eauto].
Qed.

Lemma array_loop_encoded (level : nat) :
  forall (xs : list value) (x : value) (fuel : nat) (rest : str),
  Forall decodes (x :: xs) ->
  forallb well_formed (x :: xs) = true ->
  (list_sum (map (fun y => S (value_size y)) (x :: xs)) <= fuel)%nat ->
  array_loop fuel (iterencode (S level) x ++ more_items level xs
                   ++ newline_indent level ++ "]"%char :: rest)
  = Ok (x :: xs, rest).
Proof.
  induction xs as [|y ys IH]; intros x fuel rest Hdec Hwf Hfuel;
    apply Forall_cons in Hdec as [Hx Hdec];
    cbn [forallb] in Hwf; apply andb_true_iff in Hwf as [Hwx Hwf];
    cbn [map list_sum fold_right] in Hfuel;
    (destruct fuel as [|fuel]; [lia |]); cbn [array_loop].
  - cbn [more_items flat_map app].
    rewrite Hx; [| done | by right | lia]. cbn [mbind result_bind].
    rewrite skip_ws_newline_indent, skip_ws_head by done.
    by rewrite decide_True.
  - rewrite more_items_cons.
    rewrite Hx; [| done | by left | lia]. cbn [mbind result_bind].
    rewrite skip_ws_head by done.
    rewrite decide_False by done. rewrite decide_True by done.
    rewrite skip_ws_newline_indent.
    destruct (skip_ws_iterencode (S level) y
                (more_items level ys ++ newline_indent level ++ "]"%char :: rest))
      as [-> _].
    rewrite IH; [done | done | done |]. cbn [map list_sum fold_right]. lia.
Qed.

Lemma object_loop_encoded (level : nat) :
  forall (d : list (str * value)) (k : str) (x : value) (fuel : nat) (rest : str),
  Forall (fun kv => decodes kv.2) ((k, x) :: d) ->
  forallb (fun kv => well_formed kv.2) ((k, x) :: d) = true ->
  (list_sum (map (fun kv => S (value_size kv.2)) ((k, x) :: d)) <= fuel)%nat ->
  object_loop fuel (flat_map escape_chr k ++ quote_chr :: ":"%char :: " "%char
                    :: iterencode (S level) x ++ more_pairs level d
                    ++ newline_indent level ++ "}"%char :: rest)
  = Ok ((k, x) :: d, rest).
Proof.
  induction d as [|[k' y] d IH]; intros k x fuel rest Hdec Hwf Hfuel;
    apply Forall_cons in Hdec as [Hx Hdec];
    cbn [forallb] in Hwf; apply andb_true_iff in Hwf as [Hwx Hwf];
    cbn [map list_sum fold_right snd] in Hfuel; cbn [snd] in Hx, Hwx;
    (destruct fuel as [|fuel]; [lia |]); cbn [object_loop];
    rewrite scanstring_encoded; cbn [mbind result_bind];
    rewrite skip_ws_head by done; rewrite decide_True by done;
    change (skip_ws (" "%char :: ?s)) with (skip_ws s).
  - cbn [more_pairs flat_map app].
    destruct (skip_ws_iterencode (S level) x (newline_indent level ++ "}"%char :: rest))
      as [-> _].
    rewrite Hx; [| done | by right | lia]. cbn [mbind result_bind].
    rewrite skip_ws_newline_indent, skip_ws_head by done.
    by rewrite decide_True.
  - rewrite more_pairs_cons.
    match goal with
    | |- context [skip_ws (iterencode ?l x ++ ?t)] =>
        destruct (skip_ws_iterencode l x t) as [-> _]
    end.
    rewrite Hx; [| done | by left | lia]. cbn [mbind result_bind].
    rewrite skip_ws_head by done.
    rewrite decide_False by done. rewrite decide_True by done.
    rewrite skip_ws_newline_indent, skip_ws_head by done.
    rewrite decide_True by done.
    rewrite IH; [done | done | done |]. cbn [map list_sum fold_right snd]. lia.
Qed.

Lemma delimited_not_number (rest : str) :
  delimited rest ->
  match rest with [] => True | c :: _ => is_digit c = false end
  /\ starts_frac rest || starts_exp rest = false.
Proof.
  destruct rest as [|c rest]; [done |]. intros [-> | ->]; by destruct rest.
Qed.

(** Decoding the encoding of a well-formed value gives the value back. *)
Lemma scan_once_encoded : forall v : value, decodes v.
Proof.
  apply value_ind'.
  - intros level rest [|fuel] _ _ Hf; [simpl in Hf; lia | vm_compute; reflexivity].
  - intros [] level rest [|fuel] _ _ Hf; try (simpl in Hf; lia); vm_compute; reflexivity.
  - intros z level rest [|fuel] _ Hdel Hf; [simpl in Hf; lia |].
    destruct (delimited_not_number rest Hdel) as [Hnd Hnf].
    destruct (scan_integer_repr z rest Hnd) as [Hs (c & r & Hc & Hhead)].
    destruct (digit_or_minus_head c Hhead) as (_ & ? & ? & ? & ? & ? & ?).
    cbn [iterencode] in *. revert Hs. rewrite Hc. cbn [app]. intros Hs.
    cbn [scan_once]. rewrite !decide_False by done.
    cbn [startswith lit list_ascii_of_string].
    rewrite !bool_decide_eq_false_2 by done. cbn [andb].
    by rewrite Hs, Hnf.
  - intros s level rest [|fuel] _ _ Hf; [simpl in Hf; lia |].
    cbn [iterencode]. unfold encode_basestring. normalize_app.
    cbn [scan_once]. rewrite decide_True by done.
    by rewrite scanstring_encoded.
  - intros [|x xs] Hall level rest [|fuel] Hwf Hdel Hf;
      try (simpl in Hf; lia); [vm_compute; reflexivity |].
    rewrite iterencode_list_cons. cbn [scan_once].
    rewrite !decide_False by done. rewrite decide_True by done.
    rewrite skip_ws_newline_indent.
    pose proof (array_loop_encoded level xs x fuel rest Hall Hwf) as Harr.
    destruct (skip_ws_iterencode (S level) x
                (more_items level xs ++ newline_indent level ++ "]"%char :: rest))
      as [-> (c & r & Heq & Hc)].
    rewrite Heq in *. destruct Hc as (_ & ? & _).
    rewrite decide_False by done.
    rewrite Harr; [done |]. cbn [value_size] in Hf. lia.
  - intros [|[k x] d] Hall level rest [|fuel] Hwf Hdel Hf;
      try (simpl in Hf; lia); [vm_compute; reflexivity |].
    rewrite iterencode_dict_cons. cbn [scan_once].
    rewrite decide_False by done. rewrite decide_True by done.
    rewrite skip_ws_newline_indent, skip_ws_head by done.
    rewrite decide_False by done. rewrite decide_True by done.
    cbn [well_formed] in Hwf. apply andb_true_iff in Hwf as [Hnd%bool_decide_eq_true Hwf].
    rewrite (object_loop_encoded level d k x fuel rest Hall Hwf);
      [| cbn [value_size] in Hf; lia].
    cbn [mbind result_bind]. by rewrite dict_of_pairs_nodup.
Qed.

Lemma int_repr_nonempty (z : Z) : (1 <= length (int_repr z))%nat.
Proof.
  destruct (scan_integer_repr z []) as [_ (c & r & -> & _)]; [done |]. simpl. lia.
Qed.

Lemma more_items_size (level : nat) (xs : list value) :
  Forall (fun x => forall level, (value_size x <= length (iterencode level x))%nat) xs ->
  (list_sum (map (fun x => S (value_size x)) xs) <= length (more_items level xs))%nat.
Proof.
  induction 1 as [|x xs Hx _ IH]; [done |].
  cbn [map list_sum fold_right]. unfold more_items in *. cbn [flat_map].
  rewrite length_app. cbn [length]. rewrite length_app.
  specialize (Hx (S level)). fold (list_sum (map (fun x0 : value => S (value_size x0)) xs)).
  lia.
Qed.

Lemma more_pairs_size (level : nat) (d : list (str * value)) :
  Forall (fun kv => forall level, (value_size kv.2 <= length (iterencode level kv.2))%nat) d ->
  (list_sum (map (fun kv => S (value_size kv.2)) d) <= length (more_pairs level d))%nat.
Proof.
  induction 1 as [|[k x] d Hx _ IH]; [done |].
  cbn [map list_sum fold_right]. unfold more_pairs in *. cbn [flat_map].
  rewrite length_app. cbn [length]. rewrite !length_app.
  specialize (Hx (S level)). cbn [snd] in *.
  fold (list_sum (map (fun kv : str * value => S (value_size kv.2)) d)).
  lia.
Qed.

Lemma value_size_le_length : forall (v : value) (level : nat),
  (value_size v <= length (iterencode level v))%nat.
Proof.
  apply (value_ind' (fun v => forall level, (value_size v <= length (iterencode level v))%nat)).
  - intros level. simpl. lia.
  - intros [] level; simpl; lia.
  - intros z level. apply int_repr_nonempty.
  - intros s level. simpl. lia.
  - intros [|x xs] Hall level; [simpl; lia |].
    apply Forall_cons in Hall as [Hx Hxs].
    pose proof (more_items_size level xs Hxs) as Hm.
    cbn [iterencode value_size map list_sum fold_right]. fold (more_items level xs).
    fold (list_sum (map (fun x0 : value => S (value_size x0)) xs)).
    cbn [length]. rewrite !length_app. cbn [length]. specialize (Hx (S level)). lia.
  - intros [|[k x] d] Hall level; [simpl; lia |].
    apply Forall_cons in Hall as [Hx Hd].
    pose proof (more_pairs_size level d Hd) as Hm.
    cbn [iterencode value_size map list_sum fold_right snd]. fold (more_pairs level d).
    fold (list_sum (map (fun kv : str * value => S (value_size kv.2)) d)).
    cbn [length]. rewrite !length_app. cbn [length]. specialize (Hx (S level)).
    cbn [snd] in Hx. lia.
Qed.

(** [json.loads(json.dumps(v, indent=2, ensure_ascii=False)) == v]. *)
Lemma json_loads_dumps (v : value) :
  well_formed v = true -> json_loads (json_dumps v) = Ok v.
Proof.
  intros Hwf. unfold json_loads, json_dumps.
  pose proof (skip_ws_iterencode 0 v []) as [Hskip _]. rewrite app_nil_r in Hskip.
  rewrite Hskip.
  pose proof (scan_once_encoded v 0%nat [] (S (length (iterencode 0 v))) Hwf I) as Hdec.
  rewrite app_nil_r in Hdec. rewrite Hdec; [done |].
  pose proof (value_size_le_length v 0). lia.
Qed.

(** ** The text of a store *)

Lemma plain_text_app (s t : str) : plain_text (s ++ t) = plain_text s && plain_text t.
Proof. apply forallb_app. Qed.

Lemma plain_text_cons (c : ascii) (s : str) :
  plain_text (c :: s) = plain_chr c && plain_text s.
Proof. done. Qed.

Lemma plain_text_universal_newlines (s : str) :
  plain_text s = true -> universal_newlines s = s.
Proof.
  induction s as [|c s IH]; [done |]. rewrite plain_text_cons.
  intros [Hc Hs]%andb_true_iff. unfold plain_chr in Hc.
  apply negb_true_iff, bool_decide_eq_false in Hc.
  cbn [universal_newlines]. rewrite decide_False by done. by rewrite IH.
Qed.

Lemma plain_escape_chr (c : ascii) : plain_text (escape_chr c) = true.
Proof. destruct c as [[] [] [] [] [] [] [] []]; vm_compute; reflexivity. Qed.

Lemma plain_encode_basestring (s : str) : plain_text (encode_basestring s) = true.
Proof.
  unfold encode_basestring. rewrite plain_text_cons, plain_text_app. cbn [andb plain_chr].
  induction s as [|c s IH]; [done |]. cbn [flat_map].
  by rewrite plain_text_app, plain_escape_chr.
Qed.

Lemma plain_uint_chars (d : Decimal.uint) : plain_text (uint_chars d) = true.
Proof. induction d; done. Qed.

Lemma plain_int_repr (z : Z) : plain_text (int_repr z) = true.
Proof.
  unfold int_repr. destruct (z <? 0); [rewrite plain_text_cons |]; apply plain_uint_chars.
Qed.

Lemma plain_newline_indent (n : nat) : plain_text (newline_indent n) = true.
Proof.
  unfold newline_indent. rewrite plain_text_cons. cbn [andb plain_chr].
  induction (2 * n)%nat as [|k IH]; done.
Qed.

Lemma plain_more_items (level : nat) (xs : list value) :
  Forall (fun v => forall level, plain_text (iterencode level v) = true) xs ->
  plain_text (more_items level xs) = true.
Proof.
  induction 1 as [|y ys Hy _ IH]; [done |]. unfold more_items in *. cbn [flat_map].
  by rewrite plain_text_app, plain_text_cons, plain_text_app, plain_newline_indent, Hy, IH.
Qed.

Lemma plain_more_pairs (level : nat) (d : list (str * value)) :
  Forall (fun kv => forall level, plain_text (iterencode level kv.2) = true) d ->
  plain_text (more_pairs level d) = true.
Proof.
  induction 1 as [|[k y] d Hy _ IH]; [done |]. cbn [fst snd] in *.
  unfold more_pairs in *. cbn [flat_map fst snd].
  by rewrite plain_text_app, plain_text_cons, !plain_text_app, plain_newline_indent,
    plain_encode_basestring, Hy, IH.
Qed.

(** No carriage return is written: control characters are escaped. *)
Lemma plain_iterencode : forall (v : value) (level : nat),
  plain_text (iterencode level v) = true.
Proof.
  apply (value_ind' (fun v => forall level, plain_text (iterencode level v) = true)).
  - done.
  - by intros [].
  - intros z level. apply plain_int_repr.
  - intros s level. apply plain_encode_basestring.
  - intros [|x xs] Hall level; [done |].
    apply Forall_cons in Hall as [Hx Hxs].
    cbn [iterencode]. fold (more_items level xs).
    by rewrite plain_text_cons, !plain_text_app, !plain_newline_indent, Hx,
      plain_more_items.
  - intros [|[k x] d] Hall level; [done |].
    apply Forall_cons in Hall as [Hx Hd]. cbn [fst snd] in Hx.
    cbn [iterencode]. fold (more_pairs level d).
    by rewrite plain_text_cons, !plain_text_app, !plain_newline_indent,
      plain_encode_basestring, Hx, plain_more_pairs.
Qed.

(** ** What the decoder returns *)

Lemma bind_Ok_inv {A B} (m : result A) (f : A -> result B) (y : B) :
  m ≫= f = Ok y -> exists x, m = Ok x /\ f x = Ok y.
Proof. destruct m as [x | e |]; [by eauto | done..]. Qed.

Lemma dict_set_keys (d : list (str * value)) (k : str) (v : value) :
  map fst (dict_set d k v) = if decide (k ∈ map fst d) then map fst d else map fst d ++ [k].
Proof.
  induction d as [|[k' v'] d IH]; [done |]. cbn [dict_set map fst].
  destruct (decide (k' = k)) as [-> | Hne].
  - rewrite decide_True by left. done.
  - cbn [map fst]. rewrite IH. destruct (decide (k ∈ map fst d)) as [Hin | Hnin].
    + rewrite decide_True by (by right). done.
    + rewrite decide_False; [done |]. intros [? | ?]%elem_of_cons; [congruence | done].
Qed.

Lemma dict_set_Forall (P : str * value -> Prop) (d : list (str * value)) (k : str)
    (v : value) :
  P (k, v) -> Forall P d -> Forall P (dict_set d k v).
Proof.
  intros Hkv. induction 1 as [|[k' v'] d Hx Hd IH]; cbn [dict_set]; [by repeat constructor |].
  destruct (decide (k' = k)); by constructor.
Qed.

Lemma dict_of_pairs_good (P : str * value -> Prop) (pairs : list (str * value)) :
  Forall P pairs ->
  NoDup (map fst (dict_of_pairs pairs)) /\ Forall P (dict_of_pairs pairs).
Proof.
  unfold dict_of_pairs.
  enough (forall acc, NoDup (map fst acc) -> Forall P acc -> Forall P pairs ->
            NoDup (map fst (foldl (fun d kv => dict_set d kv.1 kv.2) acc pairs))
            /\ Forall P (foldl (fun d kv => dict_set d kv.1 kv.2) acc pairs)) as H
    by (apply H; constructor).
  induction pairs as [|[k v] pairs IH]; intros acc Hnd Hacc Hp; [done |].
  apply Forall_cons in Hp as [Hkv Hp]. cbn [foldl fst snd]. apply IH; [| | done].
  - rewrite dict_set_keys. destruct (decide _); [done |].
    apply NoDup_app. repeat split; [done | | apply NoDup_singleton].
    intros x Hx ->%list_elem_of_singleton. done.
  - by apply dict_set_Forall.
Qed.

(** A decoded value is well formed: [dict(pairs)] leaves no repeated key. *)
Lemma scan_good : forall (fuel : nat) (s : str),
  (forall v rest, scan_once fuel s = Ok (v, rest) -> well_formed v = true)
  /\ (forall vs rest, array_loop fuel s = Ok (vs, rest) ->
        forallb well_formed vs = true)
  /\ (forall ps rest, object_loop fuel s = Ok (ps, rest) ->
        Forall (fun kv : str * value => well_formed kv.2 = true) ps).
Proof.
  induction fuel as [|fuel IH]; intros s; [by repeat split |].
  split; [| split].
  - intros v rest. cbn [scan_once]. destruct s as [|c r]; [done |].
    destruct (decide (c = quote_chr)).
    { by intros ([t rest'] & Ht & [= <- <-])%bind_Ok_inv. }
    destruct (decide (c = "{"%char)).
    { destruct (skip_ws r) as [|c1 r1]; [done |].
      destruct (decide (c1 = "}"%char)); [by intros [= <- <-] |].
      destruct (decide (c1 = quote_chr)); [| done].
      intros ([ps rest'] & Hps & [= <- <-])%bind_Ok_inv.
      destruct (IH r1) as (_ & _ & Hobj).
      destruct (dict_of_pairs_good _ ps (Hobj ps rest' Hps)) as [Hnd Hgood].
      cbn [well_formed]. rewrite bool_decide_eq_true_2 by done.
      cbn [andb]. by rewrite forallb_Forall_true. }
    destruct (decide (c = "["%char)).
    { destruct (skip_ws r) as [|c1 r1] eqn:Hskip; [done |].
      destruct (decide (c1 = "]"%char)); [by intros [= <- <-] |].
      intros ([vs rest'] & Hvs & [= <- <-])%bind_Ok_inv.
      destruct (IH (c1 :: r1)) as (_ & Harr & _). by apply (Harr vs rest'). }
    destruct (startswith (c :: r) (lit "null")); [by intros [= <- <-] |].
    destruct (startswith (c :: r) (lit "true")); [by intros [= <- <-] |].
    destruct (startswith (c :: r) (lit "false")); [by intros [= <- <-] |].
    destruct (scan_integer (c :: r)) as [[z rest'] |].
    + destruct (_ || _); [done |]. by intros [= <- <-].
    + by destruct (_ || _).
  - intros vs rest. cbn [array_loop].
    intros ([v rest1] & Hv & Hloop)%bind_Ok_inv.
    destruct (IH s) as (Hone & _ & _). pose proof (Hone v rest1 Hv) as Hwf.
    destruct (skip_ws rest1) as [|c r]; [done |].
    destruct (decide (c = "]"%char)).
    { injection Hloop as <- <-. cbn [forallb]. by rewrite Hwf. }
    destruct (decide (c = ","%char)); [| done].
    apply bind_Ok_inv in Hloop as ([vs' rest'] & Hvs & [= <- <-]).
    destruct (IH (skip_ws r)) as (_ & Harr & _).
    cbn [forallb]. by rewrite Hwf, (Harr vs' rest').
  - intros ps rest. cbn [object_loop].
    intros ([key rest0] & Hkey & Hloop)%bind_Ok_inv.
    destruct (skip_ws rest0) as [|c r]; [done |].
    destruct (decide (c = ":"%char)); [| done].
    apply bind_Ok_inv in Hloop as ([v rest1] & Hv & Hloop).
    destruct (IH (skip_ws r)) as (Hone & _ & _). pose proof (Hone v rest1 Hv) as Hwf.
    destruct (skip_ws rest1) as [|c1 r1]; [done |].
    destruct (decide (c1 = "}"%char)).
    { injection Hloop as <- <-. by repeat constructor. }
    destruct (decide (c1 = ","%char)); [| done].
    destruct (skip_ws r1) as [|c2 r2]; [done |].
    destruct (decide (c2 = quote_chr)); [| done].
    apply bind_Ok_inv in Hloop as ([ps' rest'] & Hps & [= <- <-]).
    destruct (IH r2) as (_ & _ & Hobj).
    constructor; [done | by apply (Hobj ps' rest')].
Qed.

Lemma json_loads_good (s : str) (v : value) :
  json_loads s = Ok v -> well_formed v = true.
Proof.
  unfold json_loads. intros ([obj rest] & Hobj & Hrest)%bind_Ok_inv.
  destruct (scan_good (S (length s)) (skip_ws s)) as (Hone & _).
  pose proof (Hone obj rest Hobj).
  destruct (skip_ws rest); [by injection Hrest as <- | done].
Qed.

(** ** The score store *)

Lemma strip_enclosed (c1 c2 : ascii) (body : str) :
  isspace_chr c1 = false -> isspace_chr c2 = false ->
  strip (c1 :: body ++ [c2]) = c1 :: body ++ [c2].
Proof.
  intros H1 H2. unfold strip, rstrip. cbn [lstrip]. rewrite H1.
  change (c1 :: body ++ [c2]) with ((c1 :: body) ++ [c2]).
  rewrite rev_app_distr. cbn [rev app lstrip]. rewrite H2.
  cbn [rev]. by rewrite rev_app_distr, rev_involutive.
Qed.

Lemma json_dumps_list_enclosed (l : list value) :
  exists body, json_dumps (VList l) = "["%char :: body ++ ["]"%char].
Proof.
  unfold json_dumps. destruct l as [|x xs]; [by exists [] |].
  cbn [iterencode]. eexists. f_equal. rewrite !app_assoc. reflexivity.
Qed.

(** What [load_scores] makes of the text [save_score] writes. *)
Lemma load_written (w : world) (path : string) (l : list value) :
  forallb well_formed l = true ->
  files w !! path = Some (File (json_dumps (VList l))) ->
  load_scores w path = Ok l.
Proof.
  intros Hwf Hfile. unfold load_scores. rewrite Hfile.
  rewrite (plain_text_universal_newlines (json_dumps (VList l)))
    by apply plain_iterencode.
  destruct (json_dumps_list_enclosed l) as [body Hbody].
  rewrite Hbody, strip_enclosed by done. rewrite <- Hbody.
  by rewrite json_loads_dumps.
Qed.

Lemma load_scores_good (w : world) (path : string) (old : list value) :
  load_scores w path = Ok old -> forallb well_formed old = true.
Proof.
  unfold load_scores. destruct (files w !! path) as [[text |] |]; [| done | by intros [= <-]].
  destruct (strip (universal_newlines text)) as [|c content] eqn:Hs; [by intros [= <-] |].
  destruct (json_loads (c :: content)) as [v | e |] eqn:Hv;
    [| cbn; by destruct (is_ValueError e) | done].
  pose proof (json_loads_good _ v Hv) as Hwf.
  cbn. destruct v; try done. by intros [= <-].
Qed.

(** Saving a valid record to a store that loads, and loading it again. *)
Lemma save_then_load (w : world) (path : string) (score : value) (old : list value) :
  validate_score score = Ok () ->
  well_formed score = true ->
  path ∉ unwritable w ->
  load_scores w path = Ok old ->
  exists w',
    save_score w path score = Ok w'
    /\ files w' = <[path := File (json_dumps (VList (old ++ [score])))]> (files w)
    /\ unwritable w' = unwritable w
    /\ load_scores w' path = Ok (old ++ [score]).
Proof.
  intros Hvalid Hwf Hw Hold.
  pose proof (load_scores_good w path old Hold) as Hwfo.
  assert (Hwfl : forallb well_formed (old ++ [score]) = true)
    by (rewrite forallb_app, Hwfo; cbn; by rewrite Hwf).
  unfold save_score. rewrite Hvalid, Hold. cbn [mbind result_bind].
  unfold write_text. rewrite decide_False by done.
  eexists. split; [reflexivity |]. split; [done |]. split; [done |].
  apply load_written; [done |]. cbn [files]. by rewrite lookup_insert_eq.
Qed.

(** ** The claims about the score store *)

(** C8, as stated, fails: a store that exists and holds only blanks, or
    nothing, is not valid JSON, and [load_scores] returns the empty list
    instead of raising. *)
Lemma C8_counterexample :
  files (world_with_store (lit "  ")) !! scores_json = Some (File (lit "  "))
  /\ json_loads (lit "  ") = Raise JSONDecodeError
  /\ load_scores (world_with_store (lit "  ")) scores_json = Ok []
  /\ json_loads [] = Raise JSONDecodeError
  /\ load_scores (world_with_store []) scores_json = Ok [].
Proof. repeat split; vm_compute; reflexivity. Qed.

(** C8, amended.  [load_scores(path)] returns an empty sequence when the
    path does not exist and when the file, read as text and trimmed, is
    empty; it raises whenever the trimmed text is not empty and is not valid
    JSON, or is valid JSON that is not a list; and it returns the list the
    text denotes otherwise. *)
Theorem C8_load_scores_amended (w : world) (path : string) :
  (files w !! path = None -> load_scores w path = Ok [])
  /\ (files w !! path = Some Unreadable ->
      load_scores w path = Raise RuntimeError_loading_unexpected)
  /\ (forall text : str,
        files w !! path = Some (File text) ->
        let content := strip (universal_newlines text) in
        (content = [] -> load_scores w path = Ok [])
        /\ (content <> [] -> json_loads content = Raise JSONDecodeError ->
            load_scores w path = Raise RuntimeError_loading)
        /\ (content <> [] ->
            forall v, json_loads content = Ok v -> (forall l, v <> VList l) ->
            load_scores w path = Raise RuntimeError_loading)
        /\ (content <> [] ->
            forall l, json_loads content = Ok (VList l) -> load_scores w path = Ok l)).
Proof.
  unfold load_scores. split; [by intros -> |]. split; [by intros -> |].
  intros text ->. cbn zeta.
  destruct (strip (universal_newlines text)) as [|c content'];
    (split; [| split; [| split]]); try done.
  - intros _ ->. done.
  - intros _ v -> Hv. cbn. destruct v; try done. by destruct (Hv l).
  - intros _ l ->. done.
Qed.

Lemma C8_witness :
  load_scores world0 scores_json = Ok []
  /\ load_scores (world_with_store (lit "invalid json content")) scores_json
     = Raise RuntimeError_loading
  /\ load_scores (world_with_store (lit "{}")) scores_json = Raise RuntimeError_loading
  /\ load_scores (world_with_store (lit "[1, 2]")) scores_json = Ok [VInt 1; VInt 2].
Proof.
  split; [exact (proj1 (C8_load_scores_amended world0 scores_json) eq_refl) |].
  split; [| split].
  - destruct (C8_load_scores_amended (world_with_store (lit "invalid json content"))
                scores_json) as (_ & _ & H).
    destruct (H (lit "invalid json content") eq_refl) as (_ & H2 & _).
    apply H2; [discriminate | vm_compute; reflexivity].
  - destruct (C8_load_scores_amended (world_with_store (lit "{}")) scores_json)
      as (_ & _ & H).
    destruct (H (lit "{}") eq_refl) as (_ & _ & H3 & _).
    apply (H3 ltac:(discriminate) (VDict [])); [vm_compute; reflexivity | discriminate].
  - destruct (C8_load_scores_amended (world_with_store (lit "[1, 2]")) scores_json)
      as (_ & _ & H).
    destruct (H (lit "[1, 2]") eq_refl) as (_ & _ & _ & H4).
    apply H4; [discriminate | vm_compute; reflexivity].
Defined.

(** C9, as stated, fails: the path below is writable and the record valid,
    but the store holds a JSON object, so [save_score] raises, writes
    nothing, and [load_scores] raises as well. *)
Lemma C9_counterexample :
  validate_score sample_score = Ok ()
  /\ (scores_json ∉ unwritable (world_with_store (lit "{}")))
  /\ save_score (world_with_store (lit "{}")) scores_json sample_score
     = Raise RuntimeError_saving
  /\ load_scores (world_with_store (lit "{}")) scores_json = Raise RuntimeError_loading.
Proof.
  split; [vm_compute; reflexivity |]. split; [apply not_elem_of_empty |].
  split; vm_compute; reflexivity.
Qed.

(** C9, amended.  For every valid score record and every writable path
    whose store loads (the path does not exist, the file is blank, or it
    holds a JSON list), [save_score(path, record)] succeeds and a following
    [load_scores(path)] yields the former sequence with the record
    appended, so that its last element equals the record. *)
Theorem C9_round_trip_amended (w : world) (path : string) (score : value)
    (old : list value) :
  validate_score score = Ok () ->
  well_formed score = true ->
  path ∉ unwritable w ->
  load_scores w path = Ok old ->
  exists w',
    save_score w path score = Ok w'
    /\ load_scores w' path = Ok (old ++ [score])
    /\ last (old ++ [score]) = Some score.
Proof.
  intros Hvalid Hwf Hw Hold.
  destruct (save_then_load w path score old Hvalid Hwf Hw Hold) as (w' & Hs & _ & _ & Hl).
  exists w'. split; [done |]. split; [done |]. apply last_snoc.
Qed.

Lemma C9_witness :
  exists w',
    save_score (world_with_store (lit "[1, 2]")) scores_json sample_score = Ok w'
    /\ load_scores w' scores_json = Ok ([VInt 1; VInt 2] ++ [sample_score])
    /\ last ([VInt 1; VInt 2] ++ [sample_score]) = Some sample_score.
Proof.
  apply (C9_round_trip_amended (world_with_store (lit "[1, 2]")) scores_json
           sample_score [VInt 1; VInt 2]);
    [vm_compute; reflexivity | reflexivity
    | apply not_elem_of_empty | vm_compute; reflexivity].
Defined.

(** C10. The validation of [save_score] accepts a boolean for the
    [attempts] field, since a [bool] is an [int] and is not below zero; the
    record is then written to the store with that boolean. *)
Theorem C10_boolean_attempts_accepted (w : world) (path : string)
    (player word date : str) (b won : bool) (old : list value) :
  let score :=
    VDict [(lit "player", VStr player); (lit "word", VStr word);
           (lit "attempts", VBool b); (lit "won", VBool won);
           (lit "date", VStr date)] in
  validate_score score = Ok ()
  /\ (path ∉ unwritable w ->
      load_scores w path = Ok old ->
      exists w',
        save_score w path score = Ok w'
        /\ files w' !! path = Some (File (json_dumps (VList (old ++ [score]))))
        /\ load_scores w' path = Ok (old ++ [score])).
Proof.
  intros score. assert (Hvalid : validate_score score = Ok ()) by (vm_compute; reflexivity).
  split; [done |]. intros Hw Hold.
  destruct (save_then_load w path score old Hvalid) as (w' & Hs & Hf & _ & Hl);
    [vm_compute; reflexivity | done | done |].
  exists w'. split; [done |]. split; [| done]. by rewrite Hf, lookup_insert_eq.
Qed.

Lemma C10_witness :
  exists w',
    save_score world0 scores_json
      (VDict [(lit "player", VStr (lit "p")); (lit "word", VStr (lit "W"));
              (lit "attempts", VBool true); (lit "won", VBool true);
              (lit "date", VStr (lit "2024-01-01T12:00:00Z"))]) = Ok w'
    /\ load_scores w' scores_json
       = Ok [VDict [(lit "player", VStr (lit "p")); (lit "word", VStr (lit "W"));
                    (lit "attempts", VBool true); (lit "won", VBool true);
                    (lit "date", VStr (lit "2024-01-01T12:00:00Z"))]].
Proof.
  destruct (C10_boolean_attempts_accepted world0 scores_json (lit "p") (lit "W")
              (lit "2024-01-01T12:00:00Z") true true []) as [_ H].
  destruct H as (w' & Hs & _ & Hl);
    [apply not_elem_of_empty | vm_compute; reflexivity |].
  exists w'. split; [exact Hs | exact Hl].
Defined.

(** * Further properties *)

(** ** More on the scorer *)

Lemma pass2_present_count (counts : gmap ascii Z) (c : ascii) :
  forall (g : str) (ss : list status) U,
  Forall first_pass_status ss ->
  get0 U c <= get0 counts c ->
  Z.of_nat (marked_as Present c g (pass2 counts U g ss))
  = Z.min (Z.of_nat (marked_as Pending c g ss)) (get0 counts c - get0 U c).
Proof.
  induction g as [|x g IH]; intros [|s ss] U Hss HU;
    try (rewrite ?marked_as_nil_r; unfold marked_as; simpl; lia).
  apply Forall_cons in Hss as [Hs Hss]. cbn [pass2].
  destruct Hs as [-> | ->].
  - rewrite !marked_as_cons. specialize (IH ss U Hss HU).
    repeat (destruct (decide (_ /\ _)) as [[? ?] | ?]); try done; lia.
  - destruct (0 <? _) eqn:Hav; rewrite !marked_as_cons.
    + apply Z.ltb_lt in Hav.
      specialize (IH ss (bump U x) Hss). rewrite get0_bump in IH.
      destruct (decide (x = c)) as [-> | Hne];
        repeat (destruct (decide (_ /\ _)) as [[? ?] | ?]);
        try done; try tauto; lia.
    + apply Z.ltb_ge in Hav. specialize (IH ss U Hss HU).
      destruct (decide (x = c)) as [-> | Hne];
        repeat (destruct (decide (_ /\ _)) as [[? ?] | ?]);
        try done; try tauto; lia.
Qed.

Lemma mark1_pending_count (c : ascii) : forall (g t : str),
  length g = length t ->
  (marked_as Correct c g (zip_with mark1 g t) + marked_as Pending c g (zip_with mark1 g t)
   = occurrences c g)%nat.
Proof.
  induction g as [|x g IH]; intros [|y t] Hlen; try done.
  cbn [zip_with]. rewrite !marked_as_cons. unfold occurrences in *.
  rewrite filter_cons. injection Hlen as Hlen. specialize (IH t Hlen).
  set (rest := zip_with mark1 g t) in *. unfold mark1.
  destruct (decide (x = y)); destruct (decide (x = c));
    repeat (destruct (decide (_ /\ _)) as [[? ?] | ?]); simpl; try tauto; try lia;
    try congruence.
Qed.

Lemma marked_as_total (c : ascii) : forall (g : str) (ss : list status),
  length ss = length g ->
  (marked_as Correct c g ss + marked_as Present c g ss + marked_as Absent c g ss
   + marked_as Pending c g ss = occurrences c g)%nat.
Proof.
  induction g as [|x g IH]; intros [|s ss] Hlen; try done.
  rewrite !marked_as_cons. unfold occurrences in *. rewrite filter_cons.
  injection Hlen as Hlen. specialize (IH ss Hlen).
  destruct s; destruct (decide (x = c));
    repeat (destruct (decide (_ /\ _)) as [[? ?] | ?]); simpl; try tauto; try lia;
    try congruence.
Qed.

Lemma marked_as_pos (s : status) (c : ascii) : forall (g : str) (ss : list status) (i : nat),
  g !! i = Some c -> ss !! i = Some s -> (0 < marked_as s c g ss)%nat.
Proof.
  induction g as [|x g IH]; intros [|y ss] i Hg Hs; try done.
  rewrite marked_as_cons. destruct i as [|i]; simpl in *.
  - injection Hg as ->. injection Hs as ->. rewrite decide_True by done. lia.
  - specialize (IH ss i Hg Hs). lia.
Qed.

Lemma no_pending_marked (c : ascii) : forall (g : str) (ss : list status),
  Forall (fun s => s = Correct \/ s = Present \/ s = Absent) ss ->
  marked_as Pending c g ss = 0%nat.
Proof.
  induction g as [|x g IH]; intros [|s ss] Hss; try done.
  apply Forall_cons in Hss as [Hs Hss]. rewrite marked_as_cons, IH by done.
  destruct (decide (_ /\ _)) as [[_ ->] | ?]; [| done].
  by destruct Hs as [? | [? | ?]].
Qed.

(** The scorer's statuses, letter by letter. *)
Lemma scorer_counts (target guess : str) :
  length guess = length target ->
  exists fb,
    letter_feedback target guess = Ok fb
    /\ length (letter_statuses fb) = length guess
    /\ Forall (fun s => s = Correct \/ s = Present \/ s = Absent) (letter_statuses fb)
    /\ (forall i : nat,
          letter_statuses fb !! i = Some Correct
          <-> exists c, guess !! i = Some c /\ target !! i = Some c)
    /\ (forall c : ascii,
          claimed c guess (letter_statuses fb)
          = Nat.min (occurrences c guess) (occurrences c target)).
Proof.
  intros Hlen.
  destruct (letter_feedback_ok target guess Hlen) as (sm & U & -> & _).
  eexists. split; [done |]. cbn [letter_statuses].
  set (counts := count_letters target). set (U1 := used1 ∅ guess target).
  set (ss1 := zip_with mark1 guess target).
  assert (Hl1 : length ss1 = length guess)
    by (subst ss1; rewrite length_zip_with; lia).
  split; [by rewrite pass2_length |].
  split; [by apply pass2_no_pending |].
  split; [intros i; rewrite pass2_correct_iff; by apply mark1_correct_iff |].
  intros c. unfold claimed. rewrite pass2_marked_correct.
  pose proof (mark1_first_pass_status guess target) as Hss1. fold ss1 in Hss1.
  pose proof (used1_get0 c guess target ∅) as HU1. fold U1 ss1 in HU1.
  rewrite get0_empty in HU1.
  pose proof (count_letters_get0 c target) as Hc. fold counts in Hc.
  pose proof (exact_le_occurrences c guess target) as Hex. fold ss1 in Hex.
  pose proof (mark1_pending_count c guess target Hlen) as Hp. fold ss1 in Hp.
  pose proof (pass2_present_count counts c guess ss1 U1 Hss1) as Hpc.
  rewrite HU1, Hc in Hpc. lia.
Qed.

Lemma summary_of_snoc (g : str) (ss : list status) (letter : ascii) (s : status) :
  length ss = length g ->
  summary_of (g ++ [letter]) (ss ++ [s]) = summary_of g ss ++ [(letter, mark_of s)].
Proof.
  intros Hlen. unfold summary_of. by rewrite zip_with_app.
Qed.

Lemma first_pass_summary (t : str) : forall (g pre : str) (i : nat) (fb fb' : feedback),
  feedback_summary fb = summary_of pre (letter_statuses fb) ->
  length (letter_statuses fb) = length pre ->
  first_pass t i g fb = Ok fb' ->
  feedback_summary fb' = summary_of (pre ++ g) (letter_statuses fb')
  /\ length (letter_statuses fb') = length (pre ++ g).
Proof.
  induction g as [|letter g IH]; intros pre i fb fb' Hsm Hlen; cbn [first_pass].
  - intros [= <-]. by rewrite app_nil_r.
  - destruct (t !! i) as [x |]; [| done]. intros Hrun.
    replace (pre ++ letter :: g) with ((pre ++ [letter]) ++ g)
      by (by rewrite <- app_assoc).
    eapply IH; [| | exact Hrun];
      destruct (decide (letter = x)); cbn [letter_statuses feedback_summary];
      rewrite ?summary_of_snoc, ?Hsm, ?length_app by done; simpl; try done; lia.
Qed.

Lemma summary_of_insert (g : str) (ss : list status) (i : nat) (letter : ascii)
    (s : status) :
  g !! i = Some letter ->
  <[i := (letter, mark_of s)]> (summary_of g ss) = summary_of g (<[i := s]> ss).
Proof.
  intros Hg. unfold summary_of.
  rewrite <- (list_insert_id g i letter Hg) at 2.
  exact (insert_zip_with (fun letter s => (letter, mark_of s)) g ss i letter s).
Qed.

Lemma second_pass_summary (counts : gmap ascii Z) (all : str) :
  forall (g : str) (i : nat) (fb fb' : feedback),
  feedback_summary fb = summary_of all (letter_statuses fb) ->
  drop i all = g ->
  second_pass counts i g fb = Ok fb' ->
  feedback_summary fb' = summary_of all (letter_statuses fb').
Proof.
  induction g as [|letter g IH]; intros i fb fb' Hsm Hdrop; cbn [second_pass].
  - by intros [= <-].
  - assert (Hi : all !! i = Some letter).
    { rewrite <- (Nat.add_0_r i), <- lookup_drop, Hdrop. done. }
    assert (Hd : drop (S i) all = g).
    { rewrite (drop_S _ _ _ Hi) in Hdrop. by injection Hdrop. }
    destruct (letter_statuses fb !! i) as [s |]; [| done].
    destruct s; try (by apply IH).
    destruct (0 <? _); apply IH; try done;
      cbn [letter_statuses feedback_summary]; rewrite Hsm.
    + by apply (summary_of_insert all _ i letter Present).
    + by apply (summary_of_insert all _ i letter Absent).
Qed.

(** The summary the scorer returns goes with its statuses. *)
Lemma letter_feedback_summary (t g : str) (fb : feedback) :
  letter_feedback t g = Ok fb ->
  feedback_summary fb = summary_of g (letter_statuses fb).
Proof.
  unfold letter_feedback. intros (fb1 & H1 & H2)%bind_Ok_inv.
  destruct (first_pass_summary t g [] 0 (Feedback [] [] ∅) fb1) as [Hsm _]; try done.
  by apply (second_pass_summary (count_letters t) g g 0 fb1 fb).
Qed.

Lemma occurrences_Permutation (c : ascii) (s t : str) :
  s ≡ₚ t -> occurrences c s = occurrences c t.
Proof. intros Hp. unfold occurrences. by rewrite Hp. Qed.

Lemma all_correct_iff (target guess : str) (ss : list status) :
  length guess = length target ->
  length ss = length guess ->
  (forall i : nat,
     ss !! i = Some Correct <-> exists c, guess !! i = Some c /\ target !! i = Some c) ->
  Forall (fun s => s = Correct) ss <-> guess = target.
Proof.
  intros Hlen Hl Hc. rewrite Forall_lookup. split.
  - intros Hall. apply list_eq. intros i.
    destruct (ss !! i) as [s |] eqn:Hs.
    + pose proof (Hall i s Hs) as ->. apply Hc in Hs as (c & -> & ->). done.
    + apply lookup_ge_None in Hs.
      rewrite (lookup_ge_None_2 guess), (lookup_ge_None_2 target); [done | lia..].
  - intros <- i s Hs.
    destruct (lookup_lt_is_Some_2 guess i) as [c Hgi];
      [apply lookup_lt_Some in Hs; lia |].
    assert (ss !! i = Some Correct) by (apply Hc; eauto). congruence.
Qed.

(** X1. For a target and a guess of equal length and for every letter,
    the positions of the guess that hold the letter and are marked correct
    or present are exactly as many as the smaller of its numbers of
    occurrences in the guess and in the target; those marked absent are the
    occurrences the guess has in excess of the target. *)
Theorem X1_claimed_is_min (target guess : str) :
  length guess = length target ->
  exists fb,
    letter_feedback target guess = Ok fb
    /\ (forall c : ascii,
          claimed c guess (letter_statuses fb)
          = Nat.min (occurrences c guess) (occurrences c target))
    /\ (forall c : ascii,
          marked_as Absent c guess (letter_statuses fb)
          = (occurrences c guess - occurrences c target)%nat).
Proof.
  intros Hlen.
  destruct (scorer_counts target guess Hlen) as (fb & Hfb & Hl & Hnp & _ & Hmin).
  exists fb. split; [done |]. split; [done |].
  intros c. pose proof (marked_as_total c guess (letter_statuses fb) Hl) as Ht.
  rewrite (no_pending_marked c _ _ Hnp) in Ht.
  specialize (Hmin c). unfold claimed in Hmin. lia.
Qed.

Lemma X1_witness :
  exists fb,
    letter_feedback (lit "SPEED") (lit "EERIE") = Ok fb
    /\ claimed "E"%char (lit "EERIE") (letter_statuses fb) = 2%nat
    /\ marked_as Absent "E"%char (lit "EERIE") (letter_statuses fb) = 1%nat.
Proof.
  destruct (X1_claimed_is_min (lit "SPEED") (lit "EERIE")) as (fb & Hfb & H1 & H2);
    [reflexivity |].
  exists fb. split; [exact Hfb |]. split; [exact (H1 "E"%char) | exact (H2 "E"%char)].
Defined.

(** X4. For a target and a guess of equal length, a letter that does
    not occur in the target is marked absent at every position of the guess
    that holds it; and when the guess is a rearrangement of the letters of
    the target, no position is marked absent. *)
Theorem X4_outside_letters_and_anagrams (target guess : str) :
  length guess = length target ->
  exists fb,
    letter_feedback target guess = Ok fb
    /\ (forall (c : ascii) (i : nat),
          c ∉ target -> guess !! i = Some c ->
          letter_statuses fb !! i = Some Absent)
    /\ (guess ≡ₚ target ->
        Forall (fun s => s = Correct \/ s = Present) (letter_statuses fb)).
Proof.
  intros Hlen.
  destruct (scorer_counts target guess Hlen) as (fb & Hfb & Hl & Hnp & _ & Hmin).
  exists fb. split; [done |].
  assert (Hcase : forall i c s,
            guess !! i = Some c -> letter_statuses fb !! i = Some s ->
            (0 < marked_as s c guess (letter_statuses fb))%nat)
    by (intros i c s; apply marked_as_pos).
  assert (Htot : forall c,
            (claimed c guess (letter_statuses fb)
             + marked_as Absent c guess (letter_statuses fb) = occurrences c guess)%nat).
  { intros c. pose proof (marked_as_total c guess (letter_statuses fb) Hl) as Ht.
    rewrite (no_pending_marked c _ _ Hnp) in Ht. unfold claimed. lia. }
  split.
  - intros c i Hc Hi.
    destruct (lookup_lt_is_Some_2 (letter_statuses fb) i) as [s Hs];
      [apply lookup_lt_Some in Hi; lia |].
    assert (Hocc : occurrences c target = 0%nat).
    { unfold occurrences. rewrite filter_none; [done |]. by intros x Hx ->. }
    specialize (Hmin c). rewrite Hocc, Nat.min_0_r in Hmin. unfold claimed in Hmin.
    rewrite Forall_lookup in Hnp.
    destruct (Hnp i s Hs) as [-> | [-> | ->]]; [| | done];
      specialize (Hcase i c _ Hi Hs); lia.
  - intros Hp. apply Forall_lookup. intros i s Hs.
    destruct (lookup_lt_is_Some_2 guess i) as [c Hi];
      [apply lookup_lt_Some in Hs; lia |].
    rewrite Forall_lookup in Hnp.
    destruct (Hnp i s Hs) as [-> | [-> | ->]]; [by left | by right |].
    specialize (Hcase i c _ Hi Hs). specialize (Hmin c). specialize (Htot c).
    rewrite (occurrences_Permutation c guess target Hp) in Hmin, Htot. lia.
Qed.

Lemma X4_witness :
  exists fb,
    letter_feedback (lit "LEMON") (lit "MELON") = Ok fb
    /\ Forall (fun s => s = Correct \/ s = Present) (letter_statuses fb).
Proof.
  destruct (X4_outside_letters_and_anagrams (lit "LEMON") (lit "MELON"))
    as (fb & Hfb & _ & H); [reflexivity |].
  exists fb. split; [exact Hfb |]. apply H.
  change (lit "MELON") with ([ "M"; "E" ] ++ "L" :: lit "ON")%char.
  change (lit "LEMON") with ("L" :: [ "E"; "M" ] ++ lit "ON")%char.
  rewrite <- Permutation_middle. constructor. simpl.
  etrans; [apply perm_swap |]. done.
Defined.

(** What a call of [check_guess] that returns has done. *)
Lemma check_guess_Ok_inv (w : world) (g : WordGuruGame) (raw : str) (w' : world)
    (g' : WordGuruGame) (ss : list status) (sm : list (ascii * mark)) :
  check_guess w g raw = (w', g', Ok (ss, sm)) ->
  exists target fb,
    current_word g = Some target
    /\ valid_guess target raw = true
    /\ g' = after_guess g target (strip (upper raw))
    /\ letter_feedback target (strip (upper raw)) = Ok fb
    /\ ss = letter_statuses fb /\ sm = feedback_summary fb.
Proof.
  intros Hcall. destruct (current_word g) as [target |] eqn:Hcw.
  - destruct (valid_guess target raw) eqn:Hv.
    + destruct (check_guess_accept w g target raw Hcw Hv) as (w1 & r1 & fb & Hcg & Hfb & Hr).
      rewrite Hcg in Hcall. injection Hcall as <- <- ->.
      destruct Hr as [[= -> ->] | [? _]]; [| done]. by exists target, fb.
    + rewrite (check_guess_reject w g target raw Hcw Hv) in Hcall.
      destruct (negb (upper_fits raw)); [done |]. by destruct (negb _).
  - by rewrite (check_guess_not_started w g raw Hcw) in Hcall.
Qed.

Lemma valid_guess_inv (target raw : str) :
  valid_guess target raw = true ->
  normalize raw = Ok (strip (upper raw))
  /\ length (strip (upper raw)) = length target
  /\ isalpha (strip (upper raw)) = true.
Proof.
  unfold valid_guess, normalize.
  intros [[-> Hl%Nat.eqb_eq]%andb_true_iff Hal]%andb_true_iff. done.
Qed.

(** X2. When [check_guess] returns, the feedback summary has one entry
    for each letter of the normalised guess, in order: the letter with a
    check mark where the status is correct, a tilde where it is present and
    a cross where it is absent.  The statuses are as many as the letters,
    none of them is left pending and no entry keeps the question mark of
    the first pass. *)
Theorem X2_summary_matches_statuses (w : world) (g : WordGuruGame) (raw : str)
    (w' : world) (g' : WordGuruGame) (ss : list status) (sm : list (ascii * mark)) :
  check_guess w g raw = (w', g', Ok (ss, sm)) ->
  exists guess,
    normalize raw = Ok guess
    /\ length ss = length guess
    /\ sm = summary_of guess ss
    /\ Forall (fun s => s = Correct \/ s = Present \/ s = Absent) ss
    /\ Forall (fun entry => entry.2 <> Question_mark) sm.
Proof.
  intros (target & fb & Hcw & Hv & _ & Hfb & -> & ->)%check_guess_Ok_inv.
  destruct (valid_guess_inv target raw Hv) as (Hn & Hlen & _).
  exists (strip (upper raw)). split; [done |].
  destruct (scorer_length_and_count target _ Hlen) as (fb' & Hfb' & Hl & _ & _ & Hnp).
  rewrite Hfb in Hfb'. injection Hfb' as <-.
  pose proof (letter_feedback_summary _ _ _ Hfb) as Hsm.
  split; [done |]. split; [done |]. split; [done |].
  rewrite Hsm. unfold summary_of. apply Forall_lookup. intros i entry.
  rewrite lookup_zip_with_Some. intros (c & s & -> & _ & Hs). simpl.
  rewrite Forall_lookup in Hnp. by destruct (Hnp i s Hs) as [-> | [-> | ->]].
Qed.

Lemma X2_witness :
  exists guess,
    normalize (lit " allow ") = Ok guess
    /\ [("A"%char, Check_mark); ("L"%char, Tilde_mark); ("L"%char, Cross_mark);
        ("O"%char, Cross_mark); ("W"%char, Cross_mark)]
       = summary_of guess [Correct; Present; Absent; Absent; Absent].
Proof.
  destruct (X2_summary_matches_statuses world0 (apple_session 6 [] false false)
              (lit " allow ") world0 (apple_session 6 [lit "ALLOW"] false false)
              [Correct; Present; Absent; Absent; Absent]
              [("A"%char, Check_mark); ("L"%char, Tilde_mark); ("L"%char, Cross_mark);
               ("O"%char, Cross_mark); ("W"%char, Cross_mark)])
    as (guess & H1 & _ & H3 & _); [vm_compute; reflexivity |].
  exists guess. split; [exact H1 | exact H3].
Defined.

(** X3. When [check_guess] returns on a session whose word is
    [target], every status is correct exactly when the normalised guess is
    the target; the session is then won and over; and a won flag that was
    not set before the call is set only by such a guess. *)
Theorem X3_all_correct_iff_win (w : world) (g : WordGuruGame) (raw : str)
    (w' : world) (g' : WordGuruGame) (ss : list status) (sm : list (ascii * mark))
    (target : str) :
  current_word g = Some target ->
  check_guess w g raw = (w', g', Ok (ss, sm)) ->
  (Forall (fun s => s = Correct) ss <-> normalize raw = Ok target)
  /\ (Forall (fun s => s = Correct) ss -> won g' = true /\ game_over g' = true)
  /\ (won g' = true -> won g = true \/ Forall (fun s => s = Correct) ss).
Proof.
  intros Hcw (target' & fb & Hcw' & Hv & -> & Hfb & -> & ->)%check_guess_Ok_inv.
  rewrite Hcw in Hcw'. injection Hcw' as <-.
  destruct (valid_guess_inv target raw Hv) as (Hn & Hlen & _).
  destruct (scorer_counts target _ Hlen) as (fb' & Hfb' & Hl & _ & Hc & _).
  rewrite Hfb in Hfb'. injection Hfb' as <-.
  pose proof (all_correct_iff target _ _ Hlen Hl Hc) as Hall.
  destruct (after_guess_fields g target (strip (upper raw))) as (_ & Hw & Hg & _).
  rewrite Hw, Hg, Hall, Hn. split; [| split].
  - split; [by intros -> | by intros [= ->]].
  - intros Heq. rewrite (bool_decide_eq_true_2 _ Heq), !orb_true_r. done.
  - intros [? | Heq%bool_decide_eq_true]%orb_true_iff; [by left | by right].
Qed.

Lemma X3_witness :
  Forall (fun s => s = Correct) [Correct; Correct; Correct; Correct; Correct]
  <-> normalize (lit "apple") = Ok (lit "APPLE").
Proof.
  refine (proj1 (X3_all_correct_iff_win world0 (apple_session 6 [] false false)
            (lit "apple") world0 (apple_session 6 [lit "APPLE"] true true)
            [Correct; Correct; Correct; Correct; Correct]
            [("A"%char, Check_mark); ("P"%char, Check_mark); ("P"%char, Check_mark);
             ("L"%char, Check_mark); ("E"%char, Check_mark)] (lit "APPLE") _ _));
    [reflexivity | vm_compute; reflexivity].
Defined.

(** ** Trimming and upper-casing *)

Lemma lstrip_head (s : str) :
  match lstrip s with [] => True | c :: _ => isspace_chr c = false end.
Proof.
  induction s as [|c s IH]; [done |]. cbn [lstrip].
  destruct (isspace_chr c) eqn:Hc; [done | by rewrite Hc].
Qed.

Lemma lstrip_suffix (s : str) :
  exists sp, s = sp ++ lstrip s /\ Forall (fun c => isspace_chr c = true) sp.
Proof.
  induction s as [|c s (sp & Hs & Hsp)]; [by exists [] |]. cbn [lstrip].
  destruct (isspace_chr c) eqn:Hc; [| by exists []].
  exists (c :: sp). split; [by rewrite Hs at 1 | by constructor].
Qed.

(** [strip] removes a run of blanks at each end, and nothing else. *)
Lemma strip_spec (s : str) :
  exists sp1 sp2,
    s = sp1 ++ strip s ++ sp2
    /\ Forall (fun c => isspace_chr c = true) sp1
    /\ Forall (fun c => isspace_chr c = true) sp2
    /\ trimmed (strip s).
Proof.
  unfold strip, rstrip.
  destruct (lstrip_suffix s) as (sp1 & Hs & Hsp1).
  destruct (lstrip_suffix (rev (lstrip s))) as (sp & Hu & Hsp).
  set (u := lstrip s) in *. set (v := lstrip (rev u)) in *.
  assert (Hu' : u = rev v ++ rev sp).
  { rewrite <- (rev_involutive u), Hu, rev_app_distr. done. }
  exists sp1, (rev sp). split; [by rewrite <- Hu' |].
  split; [done |]. split; [by apply Forall_rev |].
  split.
  - pose proof (lstrip_head s) as Hh. fold u in Hh. rewrite Hu' in Hh.
    by destruct (rev v).
  - rewrite rev_involutive. apply lstrip_head.
Qed.

Lemma strip_trimmed (s : str) : trimmed s -> strip s = s.
Proof.
  intros [Hh Hl]. unfold strip, rstrip.
  by rewrite (lstrip_id s), (lstrip_id (rev s)), rev_involutive.
Qed.

Lemma strip_strip (s : str) : strip (strip s) = strip s.
Proof. destruct (strip_spec s) as (_ & _ & _ & _ & _ & Ht). by apply strip_trimmed. Qed.

Lemma elem_of_strip (x : ascii) (s : str) : x ∈ strip s -> x ∈ s.
Proof.
  destruct (strip_spec s) as (sp1 & sp2 & Hs & _). intros Hx.
  rewrite Hs, !elem_of_app. tauto.
Qed.

Lemma upper_chr_facts (c : ascii) :
  isspace_chr (upper_chr c) = isspace_chr c
  /\ upper_chr (upper_chr c) = upper_chr c
  /\ is_ascii (upper_chr c) = is_ascii c
  /\ upper_fits_chr (upper_chr c) = upper_fits_chr c
  /\ (is_ascii c = true -> isalpha_chr (upper_chr c) = true ->
      isupper_chr (upper_chr c) = true).
Proof. destruct c as [[] [] [] [] [] [] [] []]; vm_compute; repeat split; done. Qed.

Lemma upper_lstrip (s : str) : upper (lstrip s) = lstrip (upper s).
Proof.
  induction s as [|c s IH]; [done |]. cbn [lstrip upper map].
  destruct (upper_chr_facts c) as (-> & _).
  destruct (isspace_chr c); [exact IH | done].
Qed.

Lemma upper_rev (s : str) : upper (rev s) = rev (upper s).
Proof. apply map_rev. Qed.

Lemma upper_strip (s : str) : upper (strip s) = strip (upper s).
Proof.
  unfold strip, rstrip.
  by rewrite <- upper_lstrip, <- upper_rev, <- upper_lstrip, <- upper_rev.
Qed.

Lemma upper_upper (s : str) : upper (upper s) = upper s.
Proof.
  unfold upper. rewrite map_map. apply map_ext. intros c.
  by destruct (upper_chr_facts c) as (_ & -> & _).
Qed.

Lemma ascii_text_upper (s : str) : ascii_text (upper s) = ascii_text s.
Proof.
  unfold ascii_text, upper. induction s as [|c s IH]; [done |]. simpl.
  destruct (upper_chr_facts c) as (_ & _ & -> & _). by rewrite IH.
Qed.

Lemma ascii_text_strip (s : str) : ascii_text s = true -> ascii_text (strip s) = true.
Proof.
  unfold ascii_text. rewrite !forallb_Forall_true, !Forall_forall.
  intros Hs x Hx%elem_of_strip. by apply Hs.
Qed.

Lemma upper_fits_upper (s : str) : upper_fits (upper s) = upper_fits s.
Proof.
  unfold upper_fits, upper. induction s as [|c s IH]; [done |]. simpl.
  destruct (upper_chr_facts c) as (_ & _ & _ & -> & _). by rewrite IH.
Qed.

Lemma upper_fits_strip (s : str) : upper_fits s = true -> upper_fits (strip s) = true.
Proof.
  unfold upper_fits. rewrite !forallb_Forall_true, !Forall_forall.
  intros Hs x Hx%elem_of_strip. by apply Hs.
Qed.

(** Normalising a normalised word changes nothing. *)
Lemma normalize_idempotent (s t : str) : normalize s = Ok t -> normalize t = Ok t.
Proof.
  intros [Ha <-]%normalize_Ok_inv. unfold normalize.
  rewrite upper_fits_strip by (by rewrite upper_fits_upper).
  by rewrite <- upper_strip, strip_strip, upper_strip, upper_upper.
Qed.

(** A valid guess of ASCII characters is recorded in the letters A to Z. *)
Lemma valid_guess_uppercase (target raw : str) :
  ascii_text raw = true ->
  valid_guess target raw = true -> uppercase_alphabetic (strip (upper raw)) = true.
Proof.
  intros Ha (_ & _ & Hal)%valid_guess_inv. unfold isalpha, uppercase_alphabetic in *.
  destruct (strip (upper raw)) as [|c s] eqn:Hs; [done |]. rewrite <- Hs in *.
  unfold ascii_text in Ha.
  rewrite forallb_Forall_true, Forall_forall in *. intros x Hx.
  specialize (Hal x Hx). apply elem_of_strip in Hx.
  unfold upper in Hx. apply list_elem_of_fmap in Hx as (y & -> & Hy).
  apply upper_chr_facts; [by apply Ha | done].
Qed.

(** ** The session along a run of guesses *)

Lemma session_invariant_step (target : str) (w : world) (g : WordGuruGame) (raw : str) :
  session_invariant target g ->
  let g' := (check_guess w g raw).1.2 in
  session_invariant target g'
  /\ max_attempts g' = max_attempts g
  /\ attempts g' = attempts g ++ accepted target [raw].
Proof.
  intros (Hcw & Hatt & Hwon & Hover). unfold accepted. rewrite filter_cons, filter_nil.
  destruct (valid_guess target raw) eqn:Hv.
  - destruct (check_guess_accept w g target raw Hcw Hv) as (w1 & r1 & fb & -> & _).
    rewrite decide_True by done. cbn [fst snd map].
    destruct (after_guess_fields g target (strip (upper raw)))
      as (Ha & Hw & Hg & Hc & Hm).
    destruct (valid_guess_inv target raw Hv) as (_ & Hlen & Hup).
    split; [| done]. unfold session_invariant. rewrite Ha, Hc, Hm.
    split; [done |]. split; [apply Forall_app; split; [done | by repeat constructor] |].
    assert (Hin : target ∈ attempts g ++ [strip (upper raw)]
                  <-> target ∈ attempts g \/ strip (upper raw) = target).
    { rewrite elem_of_app, list_elem_of_singleton. split; intros [? | ?]; auto. }
    split.
    + rewrite Hw, orb_true_iff, bool_decide_eq_true, Hwon, Hin. done.
    + rewrite Hg, !orb_true_iff, bool_decide_eq_true, Z.leb_le, Hover, Hin.
      rewrite length_app. cbn [length].
      assert (Hne : attempts g ++ [strip (upper raw)] <> [])
        by (by destruct (attempts g)).
      assert (Hmem : target ∈ attempts g -> attempts g <> [])
        by (intros Hel Hnil; rewrite Hnil in Hel; by apply elem_of_nil in Hel).
      split; [intros [[(_ & [? | ?]) | ?] | ?]; (split; [done |]);
              try tauto; right; lia |].
      intros [_ [[? | ?] | ?]]; tauto.
  - rewrite (check_guess_reject w g target raw Hcw Hv).
    rewrite decide_False by done. cbn [fst snd map]. by rewrite app_nil_r.
Qed.

Lemma accepted_cons (target raw : str) (guesses : list str) :
  accepted target (raw :: guesses) = accepted target [raw] ++ accepted target guesses.
Proof.
  unfold accepted. rewrite !filter_cons, filter_nil.
  by destruct (decide (valid_guess target raw = true)).
Qed.

Lemma submit_all_invariant (target : str) : forall (guesses : list str) w g,
  session_invariant target g ->
  let g' := (submit_all w g guesses).2 in
  session_invariant target g'
  /\ max_attempts g' = max_attempts g
  /\ attempts g' = attempts g ++ accepted target guesses.
Proof.
  induction guesses as [|raw guesses IH]; intros w g Hinv.
  - simpl. by rewrite app_nil_r.
  - cbn [submit_all].
    destruct (session_invariant_step target w g raw Hinv) as (Hinv' & Hm & Ha).
    destruct (check_guess w g raw) as [[w1 g1] r1]. cbn [fst snd] in *.
    destruct (IH w1 g1 Hinv') as (? & ? & Ha'). cbv zeta.
    split; [done |]. split; [congruence |].
    rewrite Ha', Ha, (accepted_cons target raw guesses). symmetry. apply app_assoc.
Qed.

Lemma start_game_invariant (w0 : world) (g0 : WordGuruGame) (w : world)
    (g : WordGuruGame) (target : str) :
  start_game w0 g0 = (w, g, Ok ()) ->
  current_word g = Some target ->
  session_invariant target g.
Proof.
  intros (Ha & Hg & Hw & _)%start_game_fresh Hcw. unfold session_invariant.
  rewrite Ha, Hg, Hw. split; [done |]. split; [constructor |].
  split; (split; [done |]); [by intros ?%elem_of_nil | by intros [? _]].
Qed.

(** X5. After [start_game] and any run of ASCII guesses, submitted one
    after the other whether or not the session is over: the attempts are
    the valid guesses, normalised, in the order of their submission; every
    attempt has the length of the target and consists of the letters A to
    Z; [won] holds exactly when the target is among the attempts; and
    [game_over] holds exactly when there is an attempt and the target is
    among the attempts or the attempts are at least [max_attempts]. *)
Theorem X5_session_flags_follow_attempts (w0 : world) (g0 : WordGuruGame) (w : world)
    (g : WordGuruGame) (target : str) (guesses : list str) :
  start_game w0 g0 = (w, g, Ok ()) ->
  current_word g = Some target ->
  Forall (fun raw => ascii_text raw = true) guesses ->
  let g' := (submit_all w g guesses).2 in
  current_word g' = Some target
  /\ attempts g' = accepted target guesses
  /\ Forall (fun a => length a = length target /\ uppercase_alphabetic a = true)
            (attempts g')
  /\ (won g' = true <-> target ∈ attempts g')
  /\ (game_over g' = true
      <-> attempts g' <> []
          /\ (target ∈ attempts g'
              \/ max_attempts g0 <= Z.of_nat (length (attempts g')))).
Proof.
  intros Hstart Hcw Hascii.
  pose proof (start_game_invariant w0 g0 w g target Hstart Hcw) as Hinv.
  destruct (start_game_fresh w0 g0 w g Hstart) as (Ha & _ & _ & Hm & _).
  destruct (submit_all_invariant target guesses w g Hinv)
    as ((H1 & H2 & H3 & H4) & Hm' & Ha').
  rewrite Ha in Ha'. rewrite Hm', Hm in H4. cbv zeta.
  split; [done |]. split; [done |]. split; [| done].
  rewrite Forall_forall in H2. apply Forall_forall. intros a Hin.
  split; [by apply H2 |]. rewrite Ha' in Hin. cbn [app] in Hin.
  unfold accepted in Hin. apply list_elem_of_fmap in Hin as (raw & -> & Hraw).
  apply list_elem_of_filter in Hraw as [Hv Hraw].
  rewrite Forall_forall in Hascii.
  apply (valid_guess_uppercase target raw); [by apply Hascii | done].
Qed.

Lemma X5_witness :
  let g' := (submit_all (World ∅ ∅ (now world0) (rng world0) 1)
               (apple_session 2 [] false false)
               [lit "grape"; lit "12"; lit " apple "; lit "melon"]).2 in
  attempts g' = [lit "GRAPE"; lit "APPLE"; lit "MELON"]
  /\ (won g' = true <-> lit "APPLE" ∈ attempts g').
Proof.
  destruct (X5_session_flags_follow_attempts world0
              (Game [lit "APPLE"] 2 None (lit "anonymous") false None [] false false)
              (World ∅ ∅ (now world0) (rng world0) 1)
              (apple_session 2 [] false false) (lit "APPLE")
              [lit "grape"; lit "12"; lit " apple "; lit "melon"])
    as (_ & H2 & _ & H4 & _);
    [reflexivity | reflexivity | repeat constructor |].
  split; [exact H2 | exact H4].
Defined.



(** ** The session and the score store *)

Lemma create_score_valid (w : world) (player word : str) (n : nat) (won : bool) :
  validate_score (create_score w player word (Z.of_nat n) won) = Ok ()
  /\ well_formed (create_score w player word (Z.of_nat n) won) = true.
Proof.
  split; [| vm_compute; reflexivity].
  unfold create_score, validate_score.
  replace (filter _ required_fields) with (@nil str) by (vm_compute; reflexivity).
  cbn. by destruct n.
Qed.

(** An accepted guess, step by step. *)
Lemma check_guess_accepted (w : world) (g : WordGuruGame) (target raw : str) :
  current_word g = Some target ->
  valid_guess target raw = true ->
  let g' := after_guess g target (strip (upper raw)) in
  exists fb,
    letter_feedback target (strip (upper raw)) = Ok fb
    /\ check_guess w g raw
       = match (if game_over g' then scores_path g else None) with
         | None => (w, g', Ok (letter_statuses fb, feedback_summary fb))
         | Some path =>
             match save_score w path
                     (create_score w (player g) target
                        (Z.of_nat (length (attempts g'))) (won g')) with
             | Ok w' => (w', g', Ok (letter_statuses fb, feedback_summary fb))
             | Raise _ => (w, g', Ok (letter_statuses fb, feedback_summary fb))
             | Unmodelled => (w, g', Unmodelled)
             end
         end.
Proof.
  unfold check_guess, valid_guess, normalize, after_guess. intros Hcw Hv. rewrite Hcw.
  apply andb_true_iff in Hv as [[Ha Hl]%andb_true_iff Hal].
  rewrite Ha, Hl, Hal. simpl.
  apply Nat.eqb_eq in Hl.
  destruct (letter_feedback_ok target (strip (upper raw)) Hl) as (sm & U & Hfb & _).
  rewrite Hfb. eexists. split; [done |].
  set (g1 := set_attempts g _).
  set (g2 := if decide (_ = target) then _ else g1).
  set (g3 := if _ <=? _ then _ else g2).
  assert (Hsame : scores_path g3 = scores_path g /\ current_word g3 = Some target
                  /\ player g3 = player g).
  { subst g3 g2 g1. destruct (decide _), (_ <=? _); done. }
  destruct Hsame as (Hsp & Hcw3 & Hpl).
  destruct (game_over g3); [| done].
  unfold _save_game_score. rewrite Hsp, Hcw3, Hpl.
  destruct (scores_path g) as [path |]; [| done].
  by destruct (save_score _ _ _).
Qed.

Lemma after_guess_over (g : WordGuruGame) (target guess : str) :
  game_over (after_guess g target guess) = true
  <-> game_over g = true \/ guess = target
      \/ max_attempts g <= Z.of_nat (length (attempts g)) + 1.
Proof.
  destruct (after_guess_fields g target guess) as (_ & _ & -> & _).
  rewrite !orb_true_iff, bool_decide_eq_true, Z.leb_le, length_app. simpl.
  rewrite Nat2Z.inj_add. simpl. tauto.
Qed.

(** X8. When an accepted guess ends the game (it is the target, or it
    uses up the attempts, or the session was over already), the session has
    a score path that can be written and whose store loads, [check_guess]
    returns the feedback and the store then loads as the former records
    followed by one more: the player, the target, the number of attempts
    with this guess, whether the game is won, and the time of the call.  No
    other file changes. *)
Theorem X8_finished_game_is_recorded (w : world) (g : WordGuruGame) (target raw : str)
    (path : string) (old : list value) :
  current_word g = Some target ->
  valid_guess target raw = true ->
  game_over g = true \/ strip (upper raw) = target
  \/ max_attempts g <= Z.of_nat (length (attempts g)) + 1 ->
  scores_path g = Some path ->
  path ∉ unwritable w ->
  load_scores w path = Ok old ->
  exists w' fb,
    check_guess w g raw
    = (w', after_guess g target (strip (upper raw)),
       Ok (letter_statuses fb, feedback_summary fb))
    /\ load_scores w' path
       = Ok (old ++ [create_score w (player g) target
                       (Z.of_nat (length (attempts g)) + 1)
                       (won g || bool_decide (strip (upper raw) = target))])
    /\ (forall q : string, q <> path -> files w' !! q = files w !! q).
Proof.
  intros Hcw Hv Hover%after_guess_over Hsp Hw Hold.
  destruct (check_guess_accepted w g target raw Hcw Hv) as (fb & Hfb & ->).
  destruct (after_guess_fields g target (strip (upper raw))) as (Ha & Hwon & _).
  rewrite Hover, Hsp, Ha, Hwon.
  destruct (create_score_valid w (player g) target
              (length (attempts g ++ [strip (upper raw)]))
              (won g || bool_decide (strip (upper raw) = target))) as [Hvalid Hwf].
  destruct (save_then_load w path _ old Hvalid Hwf Hw Hold) as (w' & -> & Hf & _ & Hl).
  exists w', fb. split; [done |]. split.
  - rewrite Hl, length_app, Nat2Z.inj_add. done.
  - intros q Hq. rewrite Hf. by apply lookup_insert_ne.
Qed.

Lemma X8_witness :
  exists w' fb,
    check_guess world0
      (Game [lit "APPLE"] 6 (Some scores_json) (lit "alice") false
            (Some (lit "APPLE")) [] false false) (lit "apple")
    = (w', after_guess
             (Game [lit "APPLE"] 6 (Some scores_json) (lit "alice") false
                   (Some (lit "APPLE")) [] false false)
             (lit "APPLE") (strip (upper (lit "apple"))),
       Ok (letter_statuses fb, feedback_summary fb))
    /\ load_scores w' scores_json
       = Ok ([] ++ [create_score world0 (lit "alice") (lit "APPLE")
                      (Z.of_nat (length (@nil str)) + 1)
                      (false || bool_decide (strip (upper (lit "apple")) = lit "APPLE"))]).
Proof.
  destruct (X8_finished_game_is_recorded world0
              (Game [lit "APPLE"] 6 (Some scores_json) (lit "alice") false
                    (Some (lit "APPLE")) [] false false)
              (lit "APPLE") (lit "apple") scores_json [])
    as (w' & fb & H1 & H2 & _);
    [reflexivity | reflexivity | right; left; reflexivity | reflexivity
    | apply not_elem_of_empty | reflexivity |].
  exists w', fb. split; [exact H1 | exact H2].
Defined.

(** X9. The store never stands in the way of a guess.  An accepted
    guess returns its feedback and leaves the world as it is when the game
    is not over after it, when the session has no score path, and when the
    store cannot be loaded or cannot be written: a failure to save is
    swallowed. *)
Theorem X9_store_never_blocks_a_guess (w : world) (g : WordGuruGame) (target raw : str) :
  current_word g = Some target ->
  valid_guess target raw = true ->
  game_over (after_guess g target (strip (upper raw))) = false
  \/ scores_path g = None
  \/ (exists path,
        scores_path g = Some path
        /\ ((exists e, load_scores w path = Raise e)
            \/ (path ∈ unwritable w /\ exists old, load_scores w path = Ok old))) ->
  exists fb,
    check_guess w g raw
    = (w, after_guess g target (strip (upper raw)),
       Ok (letter_statuses fb, feedback_summary fb)).
Proof.
  intros Hcw Hv Hwhy.
  destruct (check_guess_accepted w g target raw Hcw Hv) as (fb & Hfb & ->).
  exists fb. destruct Hwhy as [-> | [-> | (path & -> & Hbad)]]; [done | by destruct (game_over _) |].
  destruct (game_over _); [| done].
  set (score := create_score _ _ _ _ _).
  assert (Hvalid : validate_score score = Ok ()) by apply create_score_valid.
  unfold save_score. rewrite Hvalid. cbn [mbind result_bind].
  destruct Hbad as [[e ->] | [Hu [old ->]]]; [done |]. cbn [mbind result_bind].
  unfold write_text. by rewrite decide_True.
Qed.

Lemma X9_witness :
  exists fb,
    check_guess (world_with_store (lit "{}"))
      (Game [lit "APPLE"] 6 (Some scores_json) (lit "alice") false
            (Some (lit "APPLE")) [] false false) (lit "apple")
    = (world_with_store (lit "{}"),
       after_guess
         (Game [lit "APPLE"] 6 (Some scores_json) (lit "alice") false
               (Some (lit "APPLE")) [] false false)
         (lit "APPLE") (strip (upper (lit "apple"))),
       Ok (letter_statuses fb, feedback_summary fb)).
Proof.
  apply (X9_store_never_blocks_a_guess (world_with_store (lit "{}"))
           (Game [lit "APPLE"] 6 (Some scores_json) (lit "alice") false
                 (Some (lit "APPLE")) [] false false)
           (lit "APPLE") (lit "apple")); [reflexivity | reflexivity |].
  right. right. exists scores_json. split; [reflexivity |].
  left. exists RuntimeError_loading. vm_compute. reflexivity.
Defined.

(** ** Starting a session *)

Lemma mapM_normalize (words l : list str) :
  mapM normalize words = Ok l ->
  l = map (fun s => strip (upper s)) words
  /\ Forall (fun x => normalize x = Ok x) l.
Proof.
  revert l. induction words as [|x words IH]; intros l; cbn [mapM].
  - by intros [= <-].
  - intros (y & Hy & (k & Hk & [= <-])%bind_Ok_inv)%bind_Ok_inv.
    destruct (IH k Hk) as [-> Hall].
    pose proof (normalize_idempotent x y Hy) as Hyy.
    apply normalize_Ok_inv in Hy as [_ <-].
    split; [done | by constructor].
Qed.

Lemma init_fields (words : list str) (N : Z) (sp : option string) (pl : str)
    (dm : bool) (g0 : WordGuruGame) :
  __init__ words N sp pl dm = Ok g0 ->
  word_list g0 = map (fun s => strip (upper s)) words
  /\ Forall (fun x => normalize x = Ok x) (word_list g0)
  /\ max_attempts g0 = N /\ scores_path g0 = sp /\ player g0 = pl /\ daily_mode g0 = dm
  /\ current_word g0 = None /\ attempts g0 = [] /\ game_over g0 = false
  /\ won g0 = false.
Proof.
  unfold __init__. intros (l & Hl & [= <-])%bind_Ok_inv.
  destruct (mapM_normalize words l Hl) as [-> Hall]. done.
Qed.

Lemma random_choice_spec {A} (w : world) (seq : list A) :
  seq <> [] ->
  exists x, x ∈ seq
    /\ random_choice w seq
       = (World (files w) (unwritable w) (now w) (rng w) (S (draws w)), Ok x).
Proof.
  intros Hne. unfold random_choice.
  destruct (lookup_lt_is_Some_2 seq (rng w (draws w) `mod` length seq)%nat) as [x Hx].
  { apply Nat.mod_upper_bound. by destruct seq. }
  exists x. rewrite Hx. split; [| done]. by eapply list_elem_of_lookup_2.
Qed.

(** X6. For a game built by [WordGuruGame(words, ...)], at any later
    time of its life, [start_game] raises the no-words error when [words]
    is empty and raises nothing otherwise, in daily mode as in random mode:
    it sets the target to a word of the game's list, which is the
    upper-cased and trimmed form of one of [words], empties the attempts,
    clears both flags, and leaves the files and the clock as they are. *)
Theorem X6_start_game_after_init (w : world) (words : list str) (N : Z)
    (sp : option string) (pl : str) (dm : bool) (g0 g : WordGuruGame) :
  __init__ words N sp pl dm = Ok g0 ->
  word_list g = word_list g0 ->
  (words = [] -> start_game w g = (w, g, Raise ValueError_no_words))
  /\ (words <> [] ->
      exists w' word,
        start_game w g
        = (w',
           set_won (set_game_over (set_attempts (set_current_word g (Some word)) [])
                      false) false,
           Ok ())
        /\ word ∈ word_list g
        /\ (exists raw, raw ∈ words /\ word = strip (upper raw))
        /\ files w' = files w /\ unwritable w' = unwritable w /\ now w' = now w).
Proof.
  intros (Hwl & Hnorm & _)%init_fields Hsame. rewrite <- Hsame in *.
  unfold start_game. split.
  - intros ->. by rewrite Hwl.
  - intros Hne.
    assert (Hne' : word_list g <> []) by (rewrite Hwl; by destruct words).
    assert (Hraw : forall word, word ∈ word_list g ->
              exists raw, raw ∈ words /\ word = strip (upper raw)).
    { intros word. rewrite Hwl. intros (raw & -> & ?)%list_elem_of_fmap. eauto. }
    destruct (word_list g) as [|w0 l] eqn:Hl; [done |]. rewrite <- Hl in *.
    destruct (daily_mode g).
    + destruct (select_daily_word_spec w (word_list g) None Hne') as (word & Hi & ->).
      apply list_elem_of_lookup_2 in Hi.
      rewrite Forall_forall in Hnorm. rewrite (Hnorm word Hi).
      exists w, word. eauto 10.
    + destruct (random_choice_spec w (word_list g) Hne') as (word & Hi & ->).
      eexists _, word. eauto 10.
Qed.

Lemma X6_witness :
  exists w' word,
    start_game world0
      (Game [lit "APPLE"; lit "GRAPE"] 6 None (lit "anonymous") true None [] false false)
    = (w',
       set_won (set_game_over (set_attempts (set_current_word
         (Game [lit "APPLE"; lit "GRAPE"] 6 None (lit "anonymous") true None [] false false)
         (Some word)) []) false) false,
       Ok ())
    /\ word ∈ [lit "APPLE"; lit "GRAPE"].
Proof.
  destruct (X6_start_game_after_init world0 [lit " apple"; lit "grape "] 6 None
              (lit "anonymous") true
              (Game [lit "APPLE"; lit "GRAPE"] 6 None (lit "anonymous") true None []
                    false false)
              (Game [lit "APPLE"; lit "GRAPE"] 6 None (lit "anonymous") true None []
                    false false)) as [_ H]; [reflexivity | reflexivity |].
  destruct H as (w' & word & H1 & H2 & _); [discriminate |].
  exists w', word. split; [exact H1 | exact H2].
Defined.

Example ordinals :
  toordinal (Date 2024 2 28) = 738944 /\ toordinal (Date 1 1 1) = 1
  /\ toordinal (Date 9999 12 31) = 3652059.
Proof. vm_compute. done. Qed.

Example lines_example :
  lines (lit "ab" ++ [newline_chr; newline_chr] ++ lit "c")
  = [lit "ab" ++ [newline_chr]; [newline_chr]; lit "c"].
Proof. reflexivity. Qed.

(** ** The calendar *)

Lemma foldr_add_snoc (l : list Z) (x : Z) :
  foldr Z.add 0 (l ++ [x]) = foldr Z.add 0 l + x.
Proof. induction l as [|y l IH]; simpl; lia. Qed.

Lemma days_before_month_succ (y m : Z) :
  1 <= m -> days_before_month y (m + 1) = days_before_month y m + days_in_month y m.
Proof.
  intros Hm. unfold days_before_month.
  replace (m + 1 - 1) with ((m - 1) + 1) by lia.
  rewrite seqZ_app by lia. replace (1 + (m - 1)) with m by lia.
  change (seqZ m 1) with [m]. rewrite map_app. cbn [map]. by rewrite foldr_add_snoc.
Qed.

Lemma is_leap_spec (y : Z) :
  days_before_year (y + 1) = days_before_year y + 365 + (if is_leap y then 1 else 0).
Proof.
  unfold days_before_year, is_leap. replace (y + 1 - 1) with y by lia.
  destruct (Z.eqb_spec (y `mod` 4) 0), (Z.eqb_spec (y `mod` 100) 0),
    (Z.eqb_spec (y `mod` 400) 0); cbn [negb andb orb];
    Z.div_mod_to_equations; lia.
Qed.

Lemma days_before_month_12 (y : Z) :
  days_before_month y 12 + 31 = 365 + (if is_leap y then 1 else 0).
Proof.
  unfold days_before_month. change (seqZ 1 (12 - 1)) with [1;2;3;4;5;6;7;8;9;10;11].
  cbn [map foldr]. unfold days_in_month. simpl. destruct (is_leap y); lia.
Qed.

Lemma days_in_month_range (y m : Z) : 28 <= days_in_month y m <= 31.
Proof.
  unfold days_in_month. destruct (m =? 2); [destruct (is_leap y); lia |].
  destruct (_ || _); lia.
Qed.

Lemma valid_date_inv (d : date) :
  valid_date d = true ->
  1 <= date_year d <= 9999 /\ 1 <= date_month d <= 12
  /\ 1 <= date_day d <= days_in_month (date_year d) (date_month d).
Proof. unfold valid_date. rewrite !andb_true_iff, !Z.leb_le. lia. Qed.

(** The day after [d] is the next day of the calendar. *)
Lemma next_day_spec (d : date) :
  valid_date d = true ->
  match next_day d with
  | Returns d' => d <> last_day /\ valid_date d' = true /\ toordinal d' = toordinal d + 1
  | Raises e => d = last_day /\ e = OverflowError
  | Outside => False
  end.
Proof.
  intros (Hy & Hm & Hd)%valid_date_inv. unfold next_day, last_day.
  destruct d as [y m dd]. cbn [date_year date_month date_day] in *.
  destruct (Z.ltb_spec dd (days_in_month y m)).
  - split; [intros [= -> -> ->]; change (days_in_month 9999 12) with 31 in *; lia |].
    split; [| unfold toordinal; simpl; lia].
    unfold valid_date. cbn [date_year date_month date_day].
    rewrite !andb_true_iff, !Z.leb_le. lia.
  - destruct (Z.ltb_spec m 12).
    + split; [intros [= -> -> ->]; lia |]. split.
      * unfold valid_date. cbn [date_year date_month date_day].
        pose proof (days_in_month_range y (m + 1)).
        rewrite !andb_true_iff, !Z.leb_le. lia.
      * unfold toordinal. cbn [date_year date_month date_day].
        rewrite days_before_month_succ by lia. lia.
    + assert (m = 12) as -> by lia.
      assert (dd = 31) as -> by (change (days_in_month y 12) with 31 in *; lia).
      destruct (Z.ltb_spec y 9999).
      * split; [intros [= ->]; lia |]. split.
        -- unfold valid_date. cbn [date_year date_month date_day].
           rewrite !andb_true_iff, !Z.leb_le. change (days_in_month (y + 1) 1) with 31. lia.
        -- unfold toordinal. cbn [date_year date_month date_day].
           rewrite is_leap_spec. pose proof (days_before_month_12 y).
           change (days_before_month (y + 1) 1) with 0. lia.
      * assert (y = 9999) as -> by lia. done.
Qed.

Lemma valid_datetime_inv (dt : datetime) :
  valid_datetime dt = true ->
  valid_date (date_of dt) = true
  /\ 0 <= hour dt < 24 /\ 0 <= minute dt < 60 /\ 0 <= second dt < 60
  /\ 0 <= microsecond dt < 1000000.
Proof.
  unfold valid_datetime. rewrite !andb_true_iff, !Z.leb_le, !Z.ltb_lt. tauto.
Qed.

Lemma get_next_daily_reset_spec (w : world) :
  valid_datetime (now w) = true ->
  match get_next_daily_reset w with
  | Returns next_reset =>
      date_of (now w) <> last_day
      /\ valid_datetime next_reset = true
      /\ toordinal (date_of next_reset) = toordinal (date_of (now w)) + 1
      /\ hour next_reset = 0 /\ minute next_reset = 0 /\ second next_reset = 0
      /\ microsecond next_reset = 0
  | Raises e => date_of (now w) = last_day /\ e = OverflowError
  | Outside => False
  end.
Proof.
  intros (Hd & _)%valid_datetime_inv. unfold get_next_daily_reset.
  pose proof (next_day_spec _ Hd) as Hn.
  destruct (next_day (date_of (now w))) as [[y m d] | e |]; [| done..].
  destruct Hn as (Hne & Hv & Ho). split; [done |].
  unfold valid_datetime, combine_min, date_of in *.
  cbn [year month day hour minute second microsecond date_year date_month date_day] in *.
  by rewrite Hv.
Qed.

(** The seconds of the time span from [now] to any midnight. *)
Lemma seconds_until_midnight (reset now : datetime) :
  hour reset = 0 -> minute reset = 0 -> second reset = 0 -> microsecond reset = 0 ->
  valid_datetime now = true ->
  seconds (datetime_sub reset now) = seconds_to_midnight now
  /\ 0 <= seconds_to_midnight now < 86400.
Proof.
  intros H1 H2 H3 H4 (_ & Hh & Hm & Hs & Hus)%valid_datetime_inv.
  unfold datetime_sub, new_timedelta, seconds_to_midnight. cbn [seconds].
  rewrite H1, H2, H3, H4.
  set (elapsed := hour now * 3600 + minute now * 60 + second now).
  assert (He : 0 <= elapsed < 86400) by (subst elapsed; lia).
  replace (0 + 0 * 60 + 0 * 3600 - (second now + minute now * 60 + hour now * 3600))
    with (- elapsed) by (subst elapsed; lia).
  destruct (Z.eqb_spec (microsecond now) 0) as [-> | Hne].
  - change ((0 - 0) `div` 1000000) with 0.
    destruct (Z.eqb_spec elapsed 0) as [-> | He0]; cbn [andb]; [done |].
    split; [| lia]. Z.div_mod_to_equations. lia.
  - rewrite andb_false_r.
    assert ((0 - microsecond now) `div` 1000000 = -1) as ->
      by (Z.div_mod_to_equations; lia).
    split; [| lia]. Z.div_mod_to_equations. lia.
Qed.

(** X13. For a clock that shows a valid date and time,
    [get_next_daily_reset()] raises OverflowError on the last day of the
    calendar, 9999-12-31, and otherwise returns a valid datetime at
    midnight sharp that is strictly later than now and at most 24 hours
    later. *)
Theorem X13_next_reset_within_a_day (w : world) :
  valid_datetime (now w) = true ->
  (date_of (now w) = last_day -> get_next_daily_reset w = Raises OverflowError)
  /\ (date_of (now w) <> last_day ->
      exists next_reset,
        get_next_daily_reset w = Returns next_reset
        /\ valid_datetime next_reset = true
        /\ hour next_reset = 0 /\ minute next_reset = 0 /\ second next_reset = 0
        /\ microsecond next_reset = 0
        /\ instant (now w) < instant next_reset <= instant (now w) + 86400 * 1000000).
Proof.
  intros Hv. pose proof (get_next_daily_reset_spec w Hv) as Hs.
  apply valid_datetime_inv in Hv as (_ & Hh & Hm & Hsec & Hus).
  destruct (get_next_daily_reset w) as [r | e |]; [| | done].
  - destruct Hs as (Hne & Hvr & Ho & H1 & H2 & H3 & H4). split; [done |].
    intros _. exists r. repeat (split; [done |]).
    unfold instant. rewrite Ho, H1, H2, H3, H4. lia.
  - destruct Hs as [Hl ->]. split; [done |]. by intros [].
Qed.

Lemma X13_witness :
  exists next_reset,
    get_next_daily_reset world0 = Returns next_reset
    /\ instant (now world0) < instant next_reset
       <= instant (now world0) + 86400 * 1000000.
Proof.
  destruct (X13_next_reset_within_a_day world0) as [_ H]; [reflexivity |].
  destruct H as (r & H1 & _ & _ & _ & _ & _ & H2); [discriminate |].
  exists r. split; [exact H1 | exact H2].
Defined.

(** X14. [time_until_next_daily()] shows the whole seconds left
    until the next midnight in UTC, split into hours below 24, minutes and
    seconds below 60, of which it prints the two largest units, or the
    seconds alone when less than a minute is left.  The text depends on the
    time of day of the first reading of the clock only.  At midnight
    sharp, when a whole day is left, the text is 0s. *)
Theorem X14_time_until_next_daily (w w_reset : world) :
  valid_datetime (now w) = true ->
  valid_datetime (now w_reset) = true ->
  date_of (now w_reset) <> last_day ->
  exists h m s : Z,
    0 <= h < 24 /\ 0 <= m < 60 /\ 0 <= s < 60
    /\ h * 3600 + m * 60 + s = seconds_to_midnight (now w)
    /\ time_until_next_daily w w_reset
       = Returns (if 0 <? h then int_repr h ++ lit "h " ++ int_repr m ++ lit "m"
                  else if 0 <? m then int_repr m ++ lit "m " ++ int_repr s ++ lit "s"
                  else int_repr s ++ lit "s")
    /\ (hour (now w) = 0 -> minute (now w) = 0 -> second (now w) = 0 ->
        microsecond (now w) = 0 ->
        time_until_next_daily w w_reset = Returns (lit "0s")).
Proof.
  intros Hv Hvr Hne. unfold time_until_next_daily.
  pose proof (get_next_daily_reset_spec w_reset Hvr) as Hs.
  destruct (get_next_daily_reset w_reset) as [r | e |]; [| by destruct Hs | done].
  destruct Hs as (_ & _ & _ & H1 & H2 & H3 & H4).
  destruct (seconds_until_midnight r (now w) H1 H2 H3 H4 Hv) as [-> Hrange].
  set (left := seconds_to_midnight (now w)) in *.
  exists (left `div` 3600), ((left `mod` 3600) `div` 60), (left `mod` 60).
  split; [Z.div_mod_to_equations; lia |].
  split; [Z.div_mod_to_equations; lia |].
  split; [Z.div_mod_to_equations; lia |].
  split; [Z.div_mod_to_equations; lia |].
  split; [done |].
  intros Hh Hm Hsec Hus. subst left. unfold seconds_to_midnight.
  rewrite Hh, Hm, Hsec, Hus. reflexivity.
Qed.

Lemma X14_witness :
  exists h m s : Z,
    h * 3600 + m * 60 + s = seconds_to_midnight (now world0)
    /\ time_until_next_daily world0 world0
       = Returns (if 0 <? h then int_repr h ++ lit "h " ++ int_repr m ++ lit "m"
                  else if 0 <? m then int_repr m ++ lit "m " ++ int_repr s ++ lit "s"
                  else int_repr s ++ lit "s").
Proof.
  destruct (X14_time_until_next_daily world0 world0)
    as (h & m & s & _ & _ & _ & H1 & H2 & _);
    [reflexivity | reflexivity | discriminate |].
  exists h, m, s. split; [exact H1 | exact H2].
Defined.

Example time_until_next_daily_noon :
  time_until_next_daily world0 world0 = Returns (lit "12h 0m").
Proof. vm_compute. reflexivity. Qed.

(** ** Saving *)

Lemma getitem_present (d : list (str * value)) (key : str) :
  key ∈ map fst d -> exists v, getitem d key = Ok v.
Proof.
  induction d as [|[k v] d IH]; [by intros ?%elem_of_nil |]. cbn [getitem map fst].
  destruct (decide (k = key)); [by eauto |].
  intros [? | ?]%elem_of_cons; [congruence | by apply IH].
Qed.

Lemma required_present (d : list (str * value)) :
  filter (fun f => f ∉ map fst d) required_fields = [] ->
  Forall (fun f => exists v, getitem d f = Ok v) required_fields.
Proof.
  intros Hf. apply Forall_forall. intros f Hin. apply getitem_present.
  destruct (decide (f ∈ map fst d)) as [? | Hn]; [done |].
  assert (f ∈ filter (fun f => f ∉ map fst d) required_fields)
    by (by apply list_elem_of_filter).
  rewrite Hf in *. by apply elem_of_nil in H.
Qed.

(** The validation raises nothing but its own errors. *)
Lemma validate_score_raises (score : value) (e : exn) :
  validate_score score = Raise e -> is_ValueError e = true.
Proof.
  unfold validate_score. destruct score as [| | | | |d]; try by intros [= <-].
  destruct (filter _ required_fields) as [|f fs] eqn:Hf; [| by intros [= <-]].
  pose proof (required_present d Hf) as Hall. unfold required_fields in Hall.
  repeat (apply Forall_cons in Hall as [[? ->] Hall]). cbn [mbind result_bind].
  repeat case_match; by intros [= <-].
Qed.

Lemma save_score_inv (w : world) (path : string) (score : value) :
  match save_score w path score with
  | Ok w' =>
      validate_score score = Ok () /\ (path ∉ unwritable w)
      /\ exists old,
           load_scores w path = Ok old
           /\ w' = World (<[path := File (json_dumps (VList (old ++ [score])))]> (files w))
                         (unwritable w) (now w) (rng w) (draws w)
  | Raise e =>
      (validate_score score = Raise e /\ is_ValueError e = true)
      \/ (validate_score score = Ok () /\ e = RuntimeError_saving
          /\ ((exists e', load_scores w path = Raise e')
              \/ (path ∈ unwritable w /\ exists old, load_scores w path = Ok old)))
  | Unmodelled => validate_score score = Ok () /\ load_scores w path = Unmodelled
  end.
Proof.
  unfold save_score.
  destruct (validate_score score) as [[] | e |] eqn:Hv; cbn [mbind result_bind].
  - destruct (load_scores w path) as [old | e |]; cbn [mbind result_bind];
      [| by eauto 10 | done].
    unfold write_text. destruct (decide (path ∈ unwritable w)).
    + right. split; [done |]. split; [done |]. right. split; [done | by exists old].
    + split; [done |]. split; [done |]. by exists old.
  - left. split; [done |]. by apply (validate_score_raises score).
  - exfalso. revert Hv. unfold validate_score.
    destruct score as [| | | | |d]; try done.
    destruct (filter _ required_fields) as [|f fs] eqn:Hf; [| done].
    pose proof (required_present d Hf) as Hall. unfold required_fields in Hall.
    repeat (apply Forall_cons in Hall as [[? ->] Hall]). cbn [mbind result_bind].
    repeat case_match; done.
Qed.

(** X17. The outcomes of [save_score].  When it returns, the record is
    valid, the path can be written, the store loaded, and the file now holds
    the former records and the new one.  When it raises, either the record
    is invalid and the error is the ValueError of the validation, nothing
    else having been done, or the record is valid and the error is the
    RuntimeError, because the store did not load or the path cannot be
    written.  The validation itself raises no KeyError. *)
Theorem X17_save_score_outcomes (w : world) (path : string) (score : value) :
  match save_score w path score with
  | Ok w' =>
      validate_score score = Ok () /\ (path ∉ unwritable w)
      /\ exists old,
           load_scores w path = Ok old
           /\ files w' = <[path := File (json_dumps (VList (old ++ [score])))]> (files w)
  | Raise e =>
      (validate_score score = Raise e /\ is_ValueError e = true)
      \/ (validate_score score = Ok () /\ e = RuntimeError_saving
          /\ ((exists e', load_scores w path = Raise e')
              \/ (path ∈ unwritable w /\ exists old, load_scores w path = Ok old)))
  | Unmodelled => validate_score score = Ok () /\ load_scores w path = Unmodelled
  end.
Proof.
  pose proof (save_score_inv w path score) as H.
  destruct (save_score w path score) as [w' | e |]; [| done..].
  destruct H as (Hv & Hw & old & Hold & ->). eauto 10.
Qed.

Lemma save_all_appends (path : string) : forall (scores : list value) (w : world)
    (old : list value),
  Forall (fun score => validate_score score = Ok () /\ well_formed score = true) scores ->
  path ∉ unwritable w ->
  load_scores w path = Ok old ->
  exists w',
    save_all w path scores = Ok w'
    /\ unwritable w' = unwritable w
    /\ load_scores w' path = Ok (old ++ scores).
Proof.
  induction scores as [|score scores IH]; intros w old Hall Hw Hold.
  - exists w. by rewrite app_nil_r.
  - apply Forall_cons in Hall as [[Hv Hwf] Hall].
    destruct (save_then_load w path score old Hv Hwf Hw Hold) as (w1 & Hs & _ & Hu & Hl).
    destruct (IH w1 (old ++ [score]) Hall) as (w' & Hs' & Hu' & Hl'); [by rewrite Hu | done |].
    exists w'. cbn [save_all]. rewrite Hs. cbn [mbind result_bind].
    split; [done |]. split; [congruence |]. by rewrite Hl', <- app_assoc.
Qed.

(** X18. The store is append-only: saving valid records one after the
    other to a path that can be written and whose store loads succeeds each
    time, and the store then loads as the former records followed by the
    saved ones, in the order of saving. *)
Theorem X18_store_is_append_only (w : world) (path : string) (scores old : list value) :
  Forall (fun score => validate_score score = Ok () /\ well_formed score = true) scores ->
  path ∉ unwritable w ->
  load_scores w path = Ok old ->
  exists w', save_all w path scores = Ok w' /\ load_scores w' path = Ok (old ++ scores).
Proof.
  intros Hall Hw Hold.
  destruct (save_all_appends path scores w old Hall Hw Hold) as (w' & ? & _ & ?).
  by exists w'.
Qed.

Lemma X18_witness :
  exists w',
    save_all (world_with_store (lit "[1]")) scores_json [sample_score; sample_score]
    = Ok w'
    /\ load_scores w' scores_json = Ok ([VInt 1] ++ [sample_score; sample_score]).
Proof.
  apply (X18_store_is_append_only (world_with_store (lit "[1]")) scores_json
           [sample_score; sample_score] [VInt 1]);
    [repeat constructor | apply not_elem_of_empty | vm_compute; reflexivity].
Defined.

(** ** Today's records *)

Lemma startswith_app (p rest : str) : startswith (p ++ rest) p = true.
Proof.
  induction p as [|c p IH]; [done |]. cbn [app startswith].
  by rewrite bool_decide_eq_true_2, IH.
Qed.

Lemma replace_from_prefix (old new p rest : str) (c : ascii) :
  Forall (fun x => x <> c) p ->
  replace_from (c :: old) new 0 (p ++ rest) = p ++ replace_from (c :: old) new 0 rest.
Proof.
  induction 1 as [|x p Hx _ IH]; [done |].
  cbn [app replace_from startswith].
  rewrite bool_decide_eq_false_2 by done. cbn [andb]. by rewrite IH.
Qed.

Lemma uint_chars_no_plus (d : Decimal.uint) : Forall (fun x => x <> "+"%char) (uint_chars d).
Proof. induction d; cbn [uint_chars]; by constructor. Qed.

Lemma zero_padded_no_plus (width : nat) (n : Z) :
  Forall (fun x => x <> "+"%char) (zero_padded width n).
Proof.
  unfold zero_padded, int_repr. apply Forall_app. split.
  - apply Forall_replicate. done.
  - destruct (n <? 0); [constructor; [done |] |]; apply uint_chars_no_plus.
Qed.

Lemma replace_offset_prefix (p rest : str) :
  Forall (fun x => x <> "+"%char) p ->
  replace (p ++ rest) (lit "+00:00") (lit "Z")
  = p ++ replace rest (lit "+00:00") (lit "Z").
Proof. exact (replace_from_prefix (lit "00:00") (lit "Z") p rest "+"%char). Qed.

(** The date a record gets starts with the day it is made on. *)
Lemma create_score_date (dt : datetime) :
  startswith (replace (isoformat dt) (lit "+00:00") (lit "Z")) (str_of_date (date_of dt))
  = true.
Proof.
  unfold isoformat.
  rewrite replace_offset_prefix; [apply startswith_app |].
  unfold str_of_date. rewrite !Forall_app.
  repeat split; first [apply zero_padded_no_plus | by repeat constructor].
Qed.

Lemma completed_today_head (player today_str : str) (score : value)
    (rest : list value) :
  played_on player today_str score = true ->
  completed_today player today_str (score :: rest) = Some true.
Proof.
  unfold played_on. cbn [completed_today].
  destruct (dict_get score (lit "player") VNone) as [p |]; [| done].
  destruct (dict_get score (lit "date") (VStr [])) as [[| | |d| |] |]; try done.
  intros [-> Hd]%andb_true_iff. cbn [value_startswith]. by rewrite Hd.
Qed.

Lemma validate_score_dict_get (score : value) :
  validate_score score = Ok () ->
  exists p d,
    dict_get score (lit "player") VNone = Some (VStr p)
    /\ dict_get score (lit "date") (VStr []) = Some (VStr d).
Proof.
  unfold validate_score. destruct score as [| | | | |dict]; try done.
  destruct (filter _ required_fields) as [|f fs] eqn:Hf; [| done].
  pose proof (required_present dict Hf) as Hall. unfold required_fields in Hall.
  apply Forall_cons in Hall as [[xp Hp] Hall].
  apply Forall_cons in Hall as [[xw Hw] Hall].
  apply Forall_cons in Hall as [[xa Ha] Hall].
  apply Forall_cons in Hall as [[xb Hb] Hall].
  apply Forall_cons in Hall as [[xd Hd] _].
  cbn [dict_get]. rewrite Hp, Hw, Ha, Hb, Hd. cbn [mbind result_bind].
  destruct xp; try done. cbn [isinstance_str negb].
  destruct (negb (isinstance_str xw)); [done |].
  destruct (_ || _); [done |].
  destruct (negb (isinstance_bool xb)); [done |].
  destruct xd; try done. eauto.
Qed.

Lemma completed_today_valid (player today_str : str) : forall scores : list value,
  Forall (fun score => validate_score score = Ok ()) scores ->
  completed_today player today_str scores
  = Some (existsb (played_on player today_str) scores).
Proof.
  induction 1 as [|score scores Hv _ IH]; [done |].
  cbn [completed_today existsb]. unfold played_on at 1.
  destruct (validate_score_dict_get score Hv) as (p & d & -> & ->).
  cbn [value_startswith]. destruct (eq_str (VStr p) player); cbn [andb orb]; [| done].
  by destruct (startswith d today_str).
Qed.

Lemma existsb_reverse {A} (f : A -> bool) (l : list A) :
  existsb f (reverse l) = existsb f l.
Proof.
  induction l as [|x l IH]; [done |].
  rewrite reverse_cons, existsb_app, IH. simpl. by destruct (f x), (existsb f l).
Qed.

(** X16. On a store that loads and holds valid score records only (as
    every record written by [save_score] is), [is_daily_completed] is true
    exactly when some record is of the player and has a date that starts
    with today's date in UTC. *)
Theorem X16_daily_completed_on_valid_store (w : world) (player : str) (path : string)
    (scores : list value) :
  path <> EmptyString ->
  load_scores w path = Ok scores ->
  Forall (fun score => validate_score score = Ok ()) scores ->
  is_daily_completed w player (Some path)
  = Ok (existsb (played_on player (str_of_date (date_of (now w)))) scores).
Proof.
  intros Hp Hl Hv. unfold is_daily_completed. rewrite decide_False by done.
  rewrite Hl, completed_today_valid by (by apply Forall_reverse).
  by rewrite existsb_reverse.
Qed.

Lemma X16_witness :
  is_daily_completed
    (World {[scores_json := File (json_dumps (VList [sample_score]))]} ∅
           (Datetime 2024 1 1 18 30 0 0) (rng world0) 0)
    (lit "alice") (Some scores_json)
  = Ok (existsb (played_on (lit "alice") (str_of_date (Date 2024 1 1))) [sample_score]).
Proof.
  apply (X16_daily_completed_on_valid_store
           (World {[scores_json := File (json_dumps (VList [sample_score]))]} ∅
                  (Datetime 2024 1 1 18 30 0 0) (rng world0) 0)
           (lit "alice") scores_json [sample_score]);
    [discriminate | vm_compute; reflexivity | repeat constructor].
Defined.

Lemma load_scores_files (w1 w2 : world) (path : string) :
  files w1 = files w2 -> load_scores w1 path = load_scores w2 path.
Proof. unfold load_scores. by intros ->. Qed.

(** An accepted guess that ends the game, with a store that can take the
    record. *)
Lemma finished_game_recorded (w : world) (g : WordGuruGame) (target raw : str)
    (path : string) (old : list value) :
  current_word g = Some target ->
  valid_guess target raw = true ->
  game_over g = true \/ strip (upper raw) = target
  \/ max_attempts g <= Z.of_nat (length (attempts g)) + 1 ->
  scores_path g = Some path ->
  path ∉ unwritable w ->
  load_scores w path = Ok old ->
  let score := create_score w (player g) target (Z.of_nat (length (attempts g)) + 1)
                 (won g || bool_decide (strip (upper raw) = target)) in
  exists w' fb,
    check_guess w g raw
    = (w', after_guess g target (strip (upper raw)),
       Ok (letter_statuses fb, feedback_summary fb))
    /\ w' = World (<[path := File (json_dumps (VList (old ++ [score])))]> (files w))
                  (unwritable w) (now w) (rng w) (draws w)
    /\ load_scores w' path = Ok (old ++ [score]).
Proof.
  intros Hcw Hv Hover%after_guess_over Hsp Hw Hold score.
  destruct (check_guess_accepted w g target raw Hcw Hv) as (fb & Hfb & ->).
  destruct (after_guess_fields g target (strip (upper raw))) as (Ha & Hwon & _).
  rewrite Hover, Hsp, Ha, Hwon, length_app, Nat2Z.inj_add. cbn [length].
  assert (Hvalid : validate_score score = Ok () /\ well_formed score = true).
  { subst score. replace (Z.of_nat (length (attempts g)) + 1)
      with (Z.of_nat (S (length (attempts g)))) by lia. apply create_score_valid. }
  destruct Hvalid as [Hvalid Hwf].
  destruct (save_then_load w path score old Hvalid Hwf Hw Hold) as (w' & Hs & _ & _ & Hl).
  pose proof (save_score_inv w path score) as Hinv. rewrite Hs in *.
  destruct Hinv as (_ & _ & old' & Hold' & ->).
  rewrite Hold in Hold'. injection Hold' as <-.
  change (Z.of_nat 1) with 1. fold score. rewrite Hs. eexists _, fb. done.
Qed.

(** X15. After an accepted guess has ended a game whose record could
    be saved, [is_daily_completed(player, scores_path)] is true for the
    player of that session for the rest of that day in UTC, whether the
    game was played in daily mode or not. *)
Theorem X15_finished_game_completes_the_day (w : world) (g : WordGuruGame)
    (target raw : str) (path : string) (old : list value) (w2 : world) :
  current_word g = Some target ->
  valid_guess target raw = true ->
  game_over g = true \/ strip (upper raw) = target
  \/ max_attempts g <= Z.of_nat (length (attempts g)) + 1 ->
  scores_path g = Some path ->
  path <> EmptyString ->
  path ∉ unwritable w ->
  load_scores w path = Ok old ->
  files w2 = files (check_guess w g raw).1.1 ->
  date_of (now w2) = date_of (now w) ->
  is_daily_completed w2 (player g) (scores_path g) = Ok true.
Proof.
  intros Hcw Hv Hover Hsp Hne Hw Hold Hfiles Hlater.
  destruct (finished_game_recorded w g target raw path old Hcw Hv Hover Hsp Hw Hold)
    as (w' & fb & Hcg & _ & Hl).
  rewrite Hcg in Hfiles. cbn [fst snd] in Hfiles. rewrite Hsp.
  unfold is_daily_completed. rewrite decide_False by done.
  rewrite (load_scores_files w2 w' path Hfiles), Hl.
  rewrite reverse_snoc, Hlater, completed_today_head; [done |].
  unfold played_on, create_score. cbn [dict_get].
  replace (getitem _ (lit "player")) with (Ok (VStr (player g))) by reflexivity.
  replace (getitem _ (lit "date"))
    with (Ok (VStr (replace (isoformat (now w)) (lit "+00:00") (lit "Z"))))
    by reflexivity.
  cbn [eq_str]. rewrite bool_decide_eq_true_2 by done.
  apply create_score_date.
Qed.

Lemma X15_witness :
  is_daily_completed
    (World {[scores_json := File (json_dumps (VList
              [create_score world0 (lit "alice") (lit "APPLE") 1 false]))]}
           ∅ (Datetime 2024 6 15 23 59 59 0) (rng world0) 7)
    (lit "alice") (Some scores_json)
  = Ok true.
Proof.
  apply (X15_finished_game_completes_the_day world0
           (Game [lit "APPLE"] 1 (Some scores_json) (lit "alice") false
                 (Some (lit "APPLE")) [] false false)
           (lit "APPLE") (lit "grape") scores_json []
           (World {[scores_json := File (json_dumps (VList
                     [create_score world0 (lit "alice") (lit "APPLE") 1 false]))]}
                  ∅ (Datetime 2024 6 15 23 59 59 0) (rng world0) 7));
    [reflexivity | reflexivity | right; right; vm_compute; discriminate | reflexivity
    | discriminate | apply not_elem_of_empty | reflexivity | vm_compute; reflexivity
    | reflexivity].
Defined.

(** ** The word file *)

Lemma lines_concat (s : str) : concat (lines s) = s.
Proof.
  induction s as [|c s IH]; [done |]. cbn [lines].
  destruct (decide (c = newline_chr)); [by rewrite <- IH at 2 |].
  destruct (lines s) as [|line rest]; simpl in *; by rewrite <- IH.
Qed.

Lemma ascii_text_Forall (s : str) :
  ascii_text s = true <-> Forall (fun c => is_ascii c = true) s.
Proof. apply forallb_Forall_true. Qed.

Lemma ascii_text_universal_newlines (s : str) :
  ascii_text s = true -> ascii_text (universal_newlines s) = true.
Proof.
  rewrite !ascii_text_Forall.
  enough (forall n (t : str), (length t <= n)%nat ->
            Forall (fun c => is_ascii c = true) t ->
            Forall (fun c => is_ascii c = true) (universal_newlines t)) as H
    by (by apply (H (length s))).
  clear s. induction n as [|n IH]; intros [|c t] Hlen Ht; try done;
    cbn [length] in Hlen; [lia |].
  apply Forall_cons in Ht as [Hc Ht]. cbn [universal_newlines].
  destruct (decide (c = chr 13)).
  - constructor; [done |]. destruct t as [|c' t']; [done |].
    apply Forall_cons in Ht as [Hc' Ht'].
    destruct (decide (c' = newline_chr)); apply IH; cbn [length] in *; try lia; try done.
    by constructor.
  - constructor; [done |]. apply IH; [lia | done].
Qed.

Lemma ascii_text_lines (s : str) :
  ascii_text s = true -> Forall (fun line => ascii_text line = true) (lines s).
Proof.
  intros Hs. apply Forall_forall. intros line Hline.
  rewrite ascii_text_Forall in *. rewrite Forall_forall in *. intros c Hc.
  apply Hs. rewrite <- (lines_concat s). apply list_elem_of_In, in_concat.
  exists line. by rewrite <- !list_elem_of_In.
Qed.

(** The loop of [load_words], in closed form. *)
Lemma load_words_loop (ls : list str) :
  foldl (fun words line =>
           let line := upper (strip line) in
           match line with
           | [] => words
           | _ => if startswith line (lit "#") then words else words ++ [line]
           end) [] ls
  = filter (fun line => word_line line = true) (map (fun line => upper (strip line)) ls).
Proof.
  enough (forall acc,
    foldl (fun words line =>
             let line := upper (strip line) in
             match line with
             | [] => words
             | _ => if startswith line (lit "#") then words else words ++ [line]
             end) acc ls
    = acc ++ filter (fun line => word_line line = true)
               (map (fun line => upper (strip line)) ls)) as H by apply H.
  induction ls as [|l ls IH]; intros acc; [by rewrite app_nil_r |].
  cbn [foldl map]. rewrite IH, filter_cons.
  destruct (upper (strip l)) as [|c r]; [by rewrite decide_False |].
  assert (Hwl : word_line (c :: r) = negb (startswith (c :: r) (lit "#"))) by done.
  rewrite Hwl. destruct (startswith (c :: r) (lit "#")); cbn [negb].
  - by rewrite decide_False.
  - rewrite decide_True by done. by rewrite <- app_assoc.
Qed.

Lemma upper_trimmed (s : str) : trimmed s -> trimmed (upper s).
Proof.
  unfold trimmed. rewrite <- upper_rev.
  intros [Hh Hl]. split.
  - destruct s as [|c s]; [done |]. cbn [upper map]. by destruct (upper_chr_facts c) as (-> & _).
  - destruct (rev s) as [|c r]; [done |]. cbn [upper map].
    by destruct (upper_chr_facts c) as (-> & _).
Qed.

(** A word of the file, as [load_words] returns it. *)
Lemma word_of_line (line : str) :
  ascii_text line = true ->
  word_line (upper (strip line)) = true ->
  let word := upper (strip line) in
  word <> [] /\ trimmed word /\ upper word = word /\ startswith word (lit "#") = false
  /\ normalize word = Ok word.
Proof.
  intros Ha Hw word. subst word.
  destruct (strip_spec line) as (_ & _ & _ & _ & _ & Ht).
  split; [by destruct (upper (strip line)) |].
  split; [by apply upper_trimmed |].
  split; [apply upper_upper |].
  split.
  - unfold word_line in Hw. destruct (upper (strip line)); [done |].
    by apply negb_true_iff in Hw.
  - unfold normalize.
    rewrite upper_fits_upper, (upper_fits_strip _ (ascii_upper_fits _ Ha)), upper_upper.
    by rewrite strip_trimmed by (by apply upper_trimmed).
Qed.

Lemma load_words_inv (w : world) (path : string) :
  match load_words w path with
  | Returns words =>
      exists text,
        files w !! path = Some (File text)
        /\ ascii_text text = true
        /\ words <> []
        /\ words = filter (fun line => word_line line = true)
                     (map (fun line => upper (strip line))
                          (lines (universal_newlines text)))
  | Raises e =>
      (e = FileNotFoundError /\ files w !! path = None)
      \/ (e = RuntimeError_words
          /\ (files w !! path = Some Unreadable
              \/ exists text,
                   files w !! path = Some (File text)
                   /\ Forall (fun line => word_line (upper (strip line)) = false)
                             (lines (universal_newlines text))))
  | Outside => exists text, files w !! path = Some (File text) /\ ascii_text text = false
  end.
Proof.
  unfold load_words. destruct (files w !! path) as [[text |] |]; [| by eauto | by eauto].
  destruct (ascii_text text) eqn:Ha; cbn [negb]; [| by eauto].
  rewrite load_words_loop.
  destruct (filter _ _) as [|x l] eqn:Hf; [| by eauto 10].
  right. split; [done |]. right. exists text. split; [done |].
  apply Forall_forall. intros line Hline.
  destruct (word_line (upper (strip line))) eqn:Hw; [| done].
  assert (upper (strip line) ∈ @nil str) as Hin; [| by apply elem_of_nil in Hin].
  rewrite <- Hf. apply list_elem_of_filter. split; [done |].
  apply list_elem_of_fmap. eauto.
Qed.

Lemma load_words_words (w : world) (path : string) (words : list str) :
  load_words w path = Returns words ->
  words <> []
  /\ Forall (fun word =>
       word <> [] /\ trimmed word /\ upper word = word
       /\ startswith word (lit "#") = false /\ normalize word = Ok word) words.
Proof.
  intros Hl. pose proof (load_words_inv w path) as H. rewrite Hl in H.
  destruct H as (text & _ & Ha & Hne & ->). split; [done |].
  apply Forall_forall. intros word [Hw (line & -> & Hline)%list_elem_of_fmap]%list_elem_of_filter.
  apply word_of_line; [| done].
  pose proof (ascii_text_lines _ (ascii_text_universal_newlines _ Ha)) as Hall.
  rewrite Forall_forall in Hall. by apply Hall.
Qed.

(** X10. [load_words(path)] returns, in the order of the file, the
    lines that are neither blank nor comments, each trimmed and
    upper-cased; the list is not empty and every word in it is not empty,
    has no blank at either end, is its own upper-case form and does not
    start with the comment sign.  It raises FileNotFoundError when the path
    does not exist, and RuntimeError when the file cannot be read or when
    every line is blank or a comment.  A text with a character above 127 is
    outside the model. *)
Theorem X10_load_words (w : world) (path : string) :
  match load_words w path with
  | Returns words =>
      exists text,
        files w !! path = Some (File text)
        /\ words <> []
        /\ words = filter (fun line => word_line line = true)
                     (map (fun line => upper (strip line))
                          (lines (universal_newlines text)))
        /\ Forall (fun word =>
             word <> [] /\ trimmed word /\ upper word = word
             /\ startswith word (lit "#") = false) words
  | Raises e =>
      (e = FileNotFoundError /\ files w !! path = None)
      \/ (e = RuntimeError_words
          /\ (files w !! path = Some Unreadable
              \/ exists text,
                   files w !! path = Some (File text)
                   /\ Forall (fun line => word_line (upper (strip line)) = false)
                             (lines (universal_newlines text))))
  | Outside => exists text, files w !! path = Some (File text) /\ ascii_text text = false
  end.
Proof.
  pose proof (load_words_inv w path) as H.
  destruct (load_words w path) as [words | e |] eqn:Hl; [| done..].
  destruct H as (text & ? & _ & ? & ?). exists text.
  repeat (split; [done |]).
  destruct (load_words_words w path words Hl) as [_ Hall].
  eapply Forall_impl; [exact Hall |]. simpl. tauto.
Qed.

Lemma start_game_normalised (w : world) (g : WordGuruGame) :
  Forall (fun x => normalize x = Ok x) (word_list g) ->
  word_list g <> [] ->
  exists w' word,
    start_game w g = (w', started g word, Ok ())
    /\ word ∈ word_list g
    /\ files w' = files w /\ unwritable w' = unwritable w /\ now w' = now w.
Proof.
  intros Hnorm Hne. unfold start_game, started.
  destruct (word_list g) as [|w0 l] eqn:Hl; [done |]. rewrite <- Hl in *.
  destruct (daily_mode g).
  - destruct (select_daily_word_spec w (word_list g) None Hne) as (word & Hi & ->).
    apply list_elem_of_lookup_2 in Hi.
    rewrite Forall_forall in Hnorm. rewrite (Hnorm word Hi).
    exists w, word. eauto 10.
  - destruct (random_choice_spec w (word_list g) Hne) as (word & Hi & ->).
    eexists _, word. eauto 10.
Qed.

Lemma mapM_normalize_fixed (words : list str) :
  Forall (fun x => normalize x = Ok x) words -> mapM normalize words = Ok words.
Proof.
  induction 1 as [|x words Hx _ IH]; [done |]. cbn [mapM]. by rewrite Hx, IH.
Qed.

(** X11. The words [load_words] returns are taken by
    [WordGuruGame(words, ...)] as they are, its normalisation changing none
    of them, and [start_game] on that game succeeds in any world, in daily
    mode as in random mode, with one of these words as the target. *)
Theorem X11_loaded_words_start_a_game (w : world) (path : string) (words : list str)
    (N : Z) (sp : option string) (pl : str) (dm : bool) :
  load_words w path = Returns words ->
  __init__ words N sp pl dm = Ok (Game words N sp pl dm None [] false false)
  /\ forall w1 : world,
       exists w2 word,
         start_game w1 (Game words N sp pl dm None [] false false)
         = (w2, Game words N sp pl dm (Some word) [] false false, Ok ())
         /\ word ∈ words.
Proof.
  intros [Hne Hall]%load_words_words.
  assert (Hnorm : Forall (fun x => normalize x = Ok x) words)
    by (eapply Forall_impl; [exact Hall |]; simpl; tauto).
  split; [unfold __init__; by rewrite mapM_normalize_fixed |].
  intros w1.
  destruct (start_game_normalised w1 (Game words N sp pl dm None [] false false))
    as (w2 & word & Hs & Hin & _); [done.. |].
  by exists w2, word.
Qed.

Lemma X11_witness :
  exists w2 word,
    start_game world0
      (Game [lit "APPLE"; lit "GRAPE"] 6 None (lit "anonymous") true None [] false false)
    = (w2, Game [lit "APPLE"; lit "GRAPE"] 6 None (lit "anonymous") true (Some word) []
             false false, Ok ())
    /\ word ∈ [lit "APPLE"; lit "GRAPE"].
Proof.
  destruct (X11_loaded_words_start_a_game
              (World {[ "words.txt"%string :=
                          File (lit "# fruit" ++ [newline_chr] ++ lit " apple"
                                ++ [newline_chr; newline_chr] ++ lit "grape ") ]}
                     ∅ (now world0) (rng world0) 0)
              "words.txt"%string [lit "APPLE"; lit "GRAPE"] 6 None (lit "anonymous") true)
    as [_ H]; [vm_compute; reflexivity |].
  exact (H world0).
Defined.

(** ** The interactive loop *)

Lemma play_loop_finished (w : world) (g : WordGuruGame) (stdin : list keyboard) :
  game_over g = true -> play_loop w g stdin = (w, g, stdin, Returns ()).
Proof. intros Hg. destruct stdin; cbn [play_loop]; [done |]. unfold is_finished. by rewrite Hg. Qed.

Lemma after_guess_more_fields (g : WordGuruGame) (target guess : str) :
  scores_path (after_guess g target guess) = scores_path g
  /\ player (after_guess g target guess) = player g
  /\ daily_mode (after_guess g target guess) = daily_mode g.
Proof. unfold after_guess. destruct (decide _), (_ <=? _); done. Qed.

Lemma check_guess_rejected (w : world) (g : WordGuruGame) (target raw : str) :
  current_word g = Some target ->
  valid_guess target raw = false ->
  (check_guess w g raw).1 = (w, g)
  /\ ((check_guess w g raw).2 = Unmodelled
      \/ exists e, (check_guess w g raw).2 = Raise e /\ is_ValueError e = true).
Proof.
  intros Hcw Hv. rewrite (check_guess_reject w g target raw Hcw Hv). split; [done |].
  destruct (negb (upper_fits raw)); [by left |]. right.
  destruct (negb _); eauto.
Qed.

(** After a call that leaves the session finished, the loop ends where it
    is. *)
Lemma play_loop_last (w1 : world) (g1 : WordGuruGame)
    (r : result (list status * list (ascii * mark))) (stdin : list keyboard)
    (w' : world) (g' : WordGuruGame) (rest : list keyboard) :
  game_over g1 = true ->
  match r with
  | Ok _ =>
      if is_finished g1 && daily_mode g1 then
        match time_until_next_daily w1 w1 with
        | Returns _ => play_loop w1 g1 stdin
        | Raises e => (w1, g1, stdin, Raises e)
        | Outside => (w1, g1, stdin, Outside)
        end
      else play_loop w1 g1 stdin
  | Raise e =>
      if is_ValueError e then play_loop w1 g1 stdin
      else (w1, g1, stdin, Raises (Exn e))
  | Unmodelled => (w1, g1, stdin, Outside)
  end = (w', g', rest, Returns ()) ->
  (w1, g1) = (w', g').
Proof.
  intros Hover. rewrite !play_loop_finished by done.
  destruct r as [fbs | e |]; [| | done].
  - destruct (_ && _); [destruct (time_until_next_daily w1 w1) |]; try done;
      by intros [= <- <-].
  - destruct (is_ValueError e); [| done]. by intros [= <- <-].
Qed.

Lemma check_guess_quiet (w : world) (g : WordGuruGame) (target raw : str) :
  current_word g = Some target ->
  valid_guess target raw = true ->
  game_over (after_guess g target (strip (upper raw))) = false ->
  exists fb,
    check_guess w g raw
    = (w, after_guess g target (strip (upper raw)),
       Ok (letter_statuses fb, feedback_summary fb)).
Proof.
  intros Hcw Hv Hover.
  destruct (check_guess_accepted w g target raw Hcw Hv) as (fb & _ & ->).
  rewrite Hover. by exists fb.
Qed.

(** The loop submits guesses to a session in progress only: when it ends,
    the session is the one before the last accepted guess, or that guess
    has just ended the game. *)
Lemma play_loop_spec (target : str) : forall (stdin : list keyboard) (w : world)
    (g : WordGuruGame) (w' : world) (g' : WordGuruGame) (rest : list keyboard),
  session_invariant target g ->
  game_over g = false ->
  play_loop w g stdin = (w', g', rest, Returns ()) ->
  exists g_p,
    session_invariant target g_p /\ game_over g_p = false
    /\ max_attempts g_p = max_attempts g /\ scores_path g_p = scores_path g
    /\ player g_p = player g
    /\ ((g' = g_p /\ w' = w)
        \/ exists raw,
             valid_guess target raw = true
             /\ game_over (after_guess g_p target (strip (upper raw))) = true
             /\ (check_guess w g_p raw).1 = (w', g')).
Proof.
  induction stdin as [|key stdin IH]; intros w g w' g' rest Hinv Hover; cbn [play_loop].
  - intros [= <- <- <-]. exists g. eauto 10.
  - unfold is_finished at 1. rewrite Hover.
    destruct key as [text |]; [| intros [= <- <- <-]; exists g; eauto 10].
    destruct (strip text) as [|c guess] eqn:Hg; [by apply IH |]. rewrite <- Hg. clear Hg.
    set (raw := strip text). clearbody raw.
    pose proof Hinv as (Hcw & _).
    destruct (valid_guess target raw) eqn:Hv.
    + destruct (session_invariant_step target w g raw Hinv) as (Hinv1 & Hm1 & _).
      destruct (after_guess_more_fields g target (strip (upper raw))) as (Hsp1 & Hpl1 & _).
      destruct (game_over (after_guess g target (strip (upper raw)))) eqn:Hover1.
      * destruct (check_guess_accept w g target raw Hcw Hv) as (w1 & r & fb & Hcg & _).
        rewrite Hcg. intros Hrun%play_loop_last; [| done].
        exists g. repeat (split; [done |]). right. exists raw.
        split; [done |]. split; [done |]. by rewrite Hcg.
      * destruct (check_guess_quiet w g target raw Hcw Hv Hover1) as (fb & Hcg).
        rewrite Hcg in *. cbn [fst snd] in *.
        unfold is_finished. rewrite Hover1. cbn [andb]. intros Hrun.
        destruct (IH w _ w' g' rest Hinv1 Hover1 Hrun) as (g_p & ? & ? & ? & ? & ? & ?).
        exists g_p. repeat (split; [congruence || done |]). done.
    + destruct (check_guess_rejected w g target raw Hcw Hv) as [Hst Hr].
      destruct (check_guess w g raw) as [[w1 g1] r]. cbn [fst snd] in *.
      injection Hst as -> ->.
      destruct Hr as [-> | (e & -> & He)]; [done |]. rewrite He. by apply IH.
Qed.

Lemma start_game_Ok_inv (w : world) (g : WordGuruGame) (w1 : world) (g1 : WordGuruGame) :
  start_game w g = (w1, g1, Ok ()) ->
  exists word,
    g1 = started g word
    /\ files w1 = files w /\ unwritable w1 = unwritable w /\ now w1 = now w.
Proof.
  unfold start_game, started. destruct (word_list g); [done |].
  destruct (daily_mode g).
  - destruct (select_daily_word _ _ _) as [word | e |]; [| done..].
    intros [= <- <-]. by exists word.
  - unfold random_choice. destruct (_ !! _) as [word |]; [| done].
    intros [= <- <-]. by exists word.
Qed.

Lemma play_loop_stops : forall (stdin : list keyboard) (w : world) (g : WordGuruGame)
    (w' : world) (g' : WordGuruGame) (rest : list keyboard),
  play_loop w g stdin = (w', g', rest, Returns ()) ->
  game_over g' = true \/ rest = []
  \/ exists before, stdin = before ++ Interrupt :: rest.
Proof.
  induction stdin as [|key stdin IH]; intros w g w' g' rest; cbn [play_loop].
  - intros [= <- <- <-]. by right; left.
  - assert (Hrec : forall w1 g1,
              play_loop w1 g1 stdin = (w', g', rest, Returns ()) ->
              game_over g' = true \/ rest = []
              \/ exists before, key :: stdin = before ++ Interrupt :: rest).
    { intros w1 g1 [? | [? | [before ->]]]%IH; [by left | by right; left |].
      right. right. by exists (key :: before). }
    unfold is_finished at 1. destruct (game_over g) eqn:Hover.
    { intros [= <- <- <-]. by left. }
    destruct key as [text |]; [| intros [= <- <- <-]; right; right; by exists []].
    destruct (strip text) as [|c guess]; [by apply Hrec |].
    destruct (check_guess w g (c :: guess)) as [[w1 g1] [fbs | e |]]; [| | done].
    + destruct (_ && _); [destruct (time_until_next_daily w1 w1) |]; try done;
        by apply Hrec.
    + destruct (is_ValueError e); [by apply Hrec | done].
Qed.

Lemma create_score_now (w1 w : world) (player word : str) (n : Z) (won : bool) :
  now w1 = now w -> create_score w1 player word n won = create_score w player word n won.
Proof. unfold create_score. by intros ->. Qed.

Lemma in_progress (target : str) (g : WordGuruGame) :
  session_invariant target g ->
  game_over g = false ->
  won g = false /\ (target ∉ attempts g)
  /\ Z.of_nat (length (attempts g)) + 1 <= Z.max 1 (max_attempts g).
Proof.
  intros (_ & _ & Hwon & Hover) Hg.
  assert (Hno : ~ (attempts g <> []
                   /\ (target ∈ attempts g
                       \/ max_attempts g <= Z.of_nat (length (attempts g)))))
    by (rewrite <- Hover, Hg; done).
  assert (Hnin : target ∉ attempts g).
  { intros Hin. apply Hno. split; [| by left]. intros Hnil. rewrite Hnil in Hin.
    by apply elem_of_nil in Hin. }
  split; [| split; [done |]].
  - destruct (won g); [| done]. exfalso. by apply Hnin, Hwon.
  - destruct (attempts g) as [|a l] eqn:Ha; [simpl; lia |].
    destruct (decide (max_attempts g <= Z.of_nat (length (a :: l)))); [| lia].
    exfalso. apply Hno. split; [done | by right].
Qed.

(** X12. When [play_interactive_game] returns: the number of attempts
    is at most [max_attempts], or at most 1 when [max_attempts] is below 1;
    if the game is won the target is the last attempt and occurs in no
    other; the game is over, or the input ended, or the interrupt key was
    met; and the files are as before the call, or the game is over and one
    record was appended to the store of the session, none else: the loop
    submits no guess to a finished session. *)
Theorem X12_interactive_game (w : world) (g : WordGuruGame) (stdin : list keyboard)
    (w' : world) (g' : WordGuruGame) (rest : list keyboard) :
  play_interactive_game w g stdin = (w', g', rest, Returns ()) ->
  exists target,
    current_word g' = Some target
    /\ Z.of_nat (length (attempts g')) <= Z.max 1 (max_attempts g)
    /\ (won g' = true -> exists before, attempts g' = before ++ [target] /\ target ∉ before)
    /\ (game_over g' = true
        \/ rest = [] \/ exists before, stdin = before ++ Interrupt :: rest)
    /\ (files w' = files w
        \/ game_over g' = true
           /\ exists path old,
                scores_path g = Some path /\ load_scores w path = Ok old
                /\ files w'
                   = <[path := File (json_dumps (VList (old ++
                        [create_score w (player g) target
                           (Z.of_nat (length (attempts g'))) (won g')])))]> (files w)).
Proof.
  unfold play_interactive_game.
  destruct (start_game w g) as [[w1 g1] [[] | e |]] eqn:Hstart; [| done..].
  intros Hrun.
  destruct (start_game_Ok_inv w g w1 g1 Hstart) as (target & Hg1 & Hf1 & _ & Hnow1).
  assert (Hcw1 : current_word g1 = Some target) by (by rewrite Hg1).
  pose proof (start_game_invariant w g w1 g1 target Hstart Hcw1) as Hinv1.
  destruct (start_game_fresh w g w1 g1 Hstart) as (_ & Hover1 & _ & Hm1 & _).
  pose proof (play_loop_stops stdin w1 g1 w' g' rest Hrun) as Hstop.
  destruct (play_loop_spec target stdin w1 g1 w' g' rest Hinv1 Hover1 Hrun)
    as (g_p & Hinv & Hover & Hm & Hsp & Hpl & Hlast).
  assert (Hsp1 : scores_path g1 = scores_path g) by (by rewrite Hg1).
  assert (Hpl1 : player g1 = player g) by (by rewrite Hg1).
  destruct (in_progress target g_p Hinv Hover) as (Hwon & Hnin & Hlen).
  rewrite Hm, Hm1 in Hlen. pose proof Hinv as (Hcw & _).
  exists target. destruct Hlast as [[-> ->] | (raw & Hv & Hover' & Hcg)].
  - split; [done |]. split; [lia |]. split; [by rewrite Hwon |].
    split; [done |]. by left.
  - destruct (check_guess_accepted w1 g_p target raw Hcw Hv) as (fb & _ & Hshape).
    rewrite Hover' in Hshape.
    destruct (after_guess_fields g_p target (strip (upper raw)))
      as (Ha & Hw & _ & Hc & _).
    assert (Hg' : g' = after_guess g_p target (strip (upper raw))).
    { rewrite Hshape in Hcg. destruct (scores_path g_p); [destruct (save_score _ _ _) |];
        by injection Hcg. }
    split; [by rewrite Hg', Hc |].
    split; [rewrite Hg', Ha, length_app; cbn [length]; lia |].
    split.
    { rewrite Hg', Hw, Hwon, Ha. cbn [orb]. intros ->%bool_decide_eq_true.
      by exists (attempts g_p). }
    split; [done |].
    rewrite Hsp, Hsp1 in Hshape. destruct (scores_path g) as [path |];
      [| left; rewrite Hshape in Hcg; injection Hcg as <- _; done].
    pose proof (save_score_inv w1 path
                  (create_score w1 (player g_p) target
                     (Z.of_nat (length (attempts (after_guess g_p target (strip (upper raw))))))
                     (won (after_guess g_p target (strip (upper raw)))))) as Hsave.
    destruct (save_score w1 path _) as [w2 | e |];
      [| left; rewrite Hshape in Hcg; injection Hcg as <- _; done..].
    destruct Hsave as (_ & _ & old & Hold & ->).
    rewrite Hshape in Hcg. injection Hcg as <- _. right.
    split; [by rewrite Hg' |]. exists path, old. split; [done |].
    split; [by rewrite <- (load_scores_files w1 w path Hf1) |].
    cbn [files]. by rewrite Hf1, Hg', Hpl, Hpl1, (create_score_now w1 w _ _ _ _ Hnow1).
Qed.

Lemma X12_witness :
  exists target,
    current_word (Game [lit "APPLE"] 2 None (lit "anonymous") false
                       (Some (lit "APPLE")) [lit "GRAPE"; lit "APPLE"] true true)
    = Some target
    /\ Z.of_nat (length [lit "GRAPE"; lit "APPLE"]) <= Z.max 1 2.
Proof.
  destruct (X12_interactive_game world0
              (Game [lit "APPLE"] 2 None (lit "anonymous") false None [] false false)
              [Line (lit "grape"); Line (lit "  "); Line (lit "pear"); Line (lit "apple");
               Line (lit "melon")]
              (World ∅ ∅ (now world0) (rng world0) 1)
              (Game [lit "APPLE"] 2 None (lit "anonymous") false
                    (Some (lit "APPLE")) [lit "GRAPE"; lit "APPLE"] true true)
              [Line (lit "melon")])
    as (target & H1 & H2 & _); [vm_compute; reflexivity |].
  exists target. split; [exact H1 | exact H2].
Defined.

(** ** The daily game *)

Lemma mapM_normalize_fits (words l : list str) :
  mapM normalize words = Ok l -> Forall (fun x => upper_fits x = true) words.
Proof.
  revert l. induction words as [|x words IH]; intros l; cbn [mapM]; [done |].
  intros (y & Hy & (k & Hk & _)%bind_Ok_inv)%bind_Ok_inv.
  apply normalize_Ok_inv in Hy as [Ha _]. constructor; [done | by eapply IH].
Qed.

(** X19. In daily mode the target of a started game is the daily word:
    [start_game] on a game built from [words] sets the target that
    [select_daily_word(words, today)] returns on the list as it was given,
    and so does [select_daily_word(words)] in any world that shows the same
    date, whatever its files, its generator and the other settings of the
    game. *)
Theorem X19_daily_game_plays_the_daily_word (w : world) (words : list str) (N : Z)
    (sp : option string) (pl : str) (g0 : WordGuruGame) (w' : world)
    (g' : WordGuruGame) :
  __init__ words N sp pl true = Ok g0 ->
  start_game w g0 = (w', g', Ok ()) ->
  exists target,
    current_word g' = Some target
    /\ select_daily_word w words (Some (date_of (now w))) = Ok target
    /\ forall w2 : world,
         date_of (now w2) = date_of (now w) ->
         select_daily_word w2 words None = Ok target.
Proof.
  intros Hinit Hstart.
  assert (Hascii : Forall (fun x => upper_fits x = true) words).
  { unfold __init__ in Hinit. apply bind_Ok_inv in Hinit as (l & Hl & _).
    by apply (mapM_normalize_fits words l). }
  apply init_fields in Hinit as (Hwl & Hnorm & _ & _ & _ & Hdm & _).
  unfold start_game in Hstart. rewrite Hdm in Hstart.
  destruct (word_list g0) as [|x l] eqn:Hl; [done |]. rewrite <- Hl in *.
  assert (Hne : word_list g0 <> []) by (by rewrite Hl).
  assert (Hne' : words <> []) by (intros ->; by rewrite Hwl in Hne).
  destruct (select_daily_word_spec w (word_list g0) None Hne) as (word & Hi & Hsel).
  rewrite Hsel in Hstart. cbv zeta in Hi.
  rewrite Hwl, length_map, list_lookup_fmap in Hi.
  destruct (words !! _) as [raw |] eqn:Hraw; [| done]. injection Hi as <-.
  assert (Ha : upper_fits raw = true).
  { rewrite Forall_forall in Hascii. apply Hascii. by eapply list_elem_of_lookup_2. }
  assert (Hn : normalize raw = Ok (strip (upper raw)))
    by (unfold normalize; by rewrite Ha).
  rewrite (normalize_idempotent raw _ Hn) in Hstart. injection Hstart as <- <-.
  exists (strip (upper raw)). split; [done |].
  assert (Hany : forall w2 od,
            match od with Some d => d | None => date_of (now w2) end = date_of (now w) ->
            select_daily_word w2 words od = Ok (strip (upper raw))).
  { intros w2 od Hd.
    destruct (select_daily_word_spec w2 words od Hne') as (word & Hi & ->).
    cbv zeta in Hi. rewrite Hd, Hraw in Hi. by injection Hi as <-. }
  split; [by apply (Hany w (Some _)) | intros w2 Hd; by apply (Hany w2 None)].
Qed.

Lemma X19_witness :
  exists target,
    current_word (Game [lit "APPLE"; lit "GRAPE"] 6 None (lit "bob") true
                       (Some (lit "APPLE")) [] false false) = Some target
    /\ select_daily_word world0 [lit " apple"; lit "grape "] (Some (date_of (now world0)))
       = Ok target.
Proof.
  destruct (X19_daily_game_plays_the_daily_word world0 [lit " apple"; lit "grape "] 6
              None (lit "bob")
              (Game [lit "APPLE"; lit "GRAPE"] 6 None (lit "bob") true None [] false false)
              world0
              (Game [lit "APPLE"; lit "GRAPE"] 6 None (lit "bob") true
                    (Some (lit "APPLE")) [] false false))
    as (target & H1 & H2 & _); [reflexivity | vm_compute; reflexivity |].
  exists target. split; [exact H1 | exact H2].
Defined.

(** ** Records *)

Lemma getitem_Ok_elem (d : list (str * value)) (key : str) (v : value) :
  getitem d key = Ok v -> key ∈ map fst d.
Proof.
  induction d as [|[k x] d IH]; [done |]. cbn [getitem map fst].
  destruct (decide (k = key)) as [-> | ?]; [by left | right; by apply IH].
Qed.

Lemma required_all_present (d : list (str * value)) :
  Forall (fun f => f ∈ map fst d) required_fields ->
  filter (fun f => f ∉ map fst d) required_fields = [].
Proof.
  intros Hall. apply filter_none. intros f Hf.
  rewrite Forall_forall in Hall. by intros []; apply Hall.
Qed.

(** X21. The validation of [save_score] accepts exactly the dicts in
    which [player], [word] and [date] are strings, [won] is a boolean and
    [attempts] is a boolean or an integer that is not negative; fields
    beyond these five are allowed. *)
Theorem X21_validate_score_accepts (score : value) :
  validate_score score = Ok ()
  <-> exists (d : list (str * value)) (p wd dt : str) (a : value) (b : bool),
        score = VDict d
        /\ getitem d (lit "player") = Ok (VStr p)
        /\ getitem d (lit "word") = Ok (VStr wd)
        /\ getitem d (lit "attempts") = Ok a /\ counts_attempts a
        /\ getitem d (lit "won") = Ok (VBool b)
        /\ getitem d (lit "date") = Ok (VStr dt).
Proof.
  split.
  - unfold validate_score. destruct score as [| | | | |d]; try done.
    destruct (filter _ required_fields) as [|f fs] eqn:Hf; [| done].
    pose proof (required_present d Hf) as Hall. unfold required_fields in Hall.
    apply Forall_cons in Hall as [[xp Hp] Hall].
    apply Forall_cons in Hall as [[xw Hw] Hall].
    apply Forall_cons in Hall as [[xa Ha] Hall].
    apply Forall_cons in Hall as [[xb Hb] Hall].
    apply Forall_cons in Hall as [[xd Hd] _].
    rewrite Hp, Hw, Ha, Hb, Hd. cbn [mbind result_bind].
    destruct xp as [| | |p| |]; try done. cbn [isinstance_str negb].
    destruct xw as [| | |wd| |]; try done. cbn [isinstance_str negb].
    destruct (negb (isinstance_int xa) || lt_zero xa) eqn:Hxa; [done |].
    destruct xb as [|b| | | |]; try done. cbn [isinstance_bool negb].
    destruct xd as [| | |dt| |]; try done. intros _.
    exists d, p, wd, dt, xa, b. repeat (split; [done |]). split; [| done].
    apply orb_false_iff in Hxa as [Hint Hneg].
    destruct xa as [|b'|z| | |]; try done; [left; by eauto | right].
    exists z. split; [done |]. cbn [lt_zero] in Hneg. by apply Z.ltb_ge.
  - intros (d & p & wd & dt & a & b & -> & Hp & Hw & Ha & Hca & Hb & Hd).
    unfold validate_score. rewrite required_all_present.
    + rewrite Hp, Hw, Ha, Hb, Hd. cbn [mbind result_bind isinstance_str isinstance_bool negb].
      destruct Hca as [[b' ->] | (z & -> & Hz)]; cbn [isinstance_int lt_zero negb orb];
        [done |]. by destruct (Z.ltb_spec z 0); [lia |].
    + unfold required_fields.
      repeat (constructor; [by eapply getitem_Ok_elem |]). constructor.
Qed.

(** X20. [is_daily_completed] swallows every failure and answers no: it
    returns [False] when the store does not load, and when the last element
    of the store, the first one it looks at, is not a dict, whatever the
    records before it are. *)
Theorem X20_daily_completed_swallows_failures (w : world) (player : str)
    (path : string) :
  path <> EmptyString ->
  ((exists e, load_scores w path = Raise e) ->
   is_daily_completed w player (Some path) = Ok false)
  /\ (forall (scores : list value) (v : value),
        load_scores w path = Ok (scores ++ [v]) ->
        (forall d, v <> VDict d) ->
        is_daily_completed w player (Some path) = Ok false).
Proof.
  intros Hne. unfold is_daily_completed. rewrite decide_False by done. split.
  - by intros [e ->].
  - intros scores v -> Hv. rewrite reverse_snoc. cbn [completed_today].
    destruct v; try done. by destruct (Hv d).
Qed.

Lemma X20_witness :
  is_daily_completed
    (World {[scores_json := File (json_dumps (VList
              [create_score world0 (lit "alice") (lit "APPLE") 1 true; VInt 1]))]}
           ∅ (now world0) (rng world0) 0)
    (lit "alice") (Some scores_json)
  = Ok false.
Proof.
  destruct (X20_daily_completed_swallows_failures
              (World {[scores_json := File (json_dumps (VList
                        [create_score world0 (lit "alice") (lit "APPLE") 1 true; VInt 1]))]}
                     ∅ (now world0) (rng world0) 0)
              (lit "alice") scores_json) as [_ H]; [discriminate |].
  apply (H [create_score world0 (lit "alice") (lit "APPLE") 1 true] (VInt 1));
    [vm_compute; reflexivity | discriminate].
Defined.

Lemma replace_offset (p : str) :
  Forall (fun x => x <> "+"%char) p ->
  replace (p ++ lit "+00:00") (lit "+00:00") (lit "Z") = p ++ lit "Z".
Proof. intros Hp. by rewrite replace_offset_prefix. Qed.

Lemma validate_created (w : world) (player word : str) (attempts : Z) (won : bool) :
  validate_score (create_score w player word attempts won)
  = if attempts <? 0 then Raise ValueError_score_attempts else Ok ().
Proof.
  unfold create_score, validate_score.
  replace (filter _ required_fields) with (@nil str) by (vm_compute; reflexivity).
  replace (getitem _ (lit "player")) with (Ok (VStr player)) by reflexivity.
  replace (getitem _ (lit "word")) with (Ok (VStr word)) by reflexivity.
  replace (getitem _ (lit "attempts")) with (Ok (VInt attempts)) by reflexivity.
  replace (getitem _ (lit "won")) with (Ok (VBool won)) by reflexivity.
  replace (getitem _ (lit "date"))
    with (Ok (VStr (replace (isoformat (now w)) (lit "+00:00") (lit "Z"))))
    by reflexivity.
  cbn [mbind result_bind isinstance_str isinstance_bool isinstance_int negb lt_zero orb].
  by destruct (attempts <? 0).
Qed.

(** X22. The record [create_score] makes has the five fields in the
    order player, word, attempts, won, date; its date is the UTC time of
    the call as YYYY-MM-DDTHH:MM:SS, followed by a dot and six digits when
    the microseconds are not 0, and by a Z in place of the offset.  The
    validation of [save_score] accepts the record exactly when [attempts]
    is not negative, and rejects it with the attempts error otherwise. *)
Theorem X22_created_records (w : world) (player word : str) (attempts : Z) (won : bool) :
  create_score w player word attempts won
  = VDict [(lit "player", VStr player); (lit "word", VStr word);
           (lit "attempts", VInt attempts); (lit "won", VBool won);
           (lit "date",
            VStr (str_of_date (date_of (now w)) ++ lit "T"
                  ++ zero_padded 2 (hour (now w)) ++ lit ":"
                  ++ zero_padded 2 (minute (now w)) ++ lit ":"
                  ++ zero_padded 2 (second (now w))
                  ++ (if microsecond (now w) =? 0 then []
                      else lit "." ++ zero_padded 6 (microsecond (now w)))
                  ++ lit "Z"))]
  /\ (validate_score (create_score w player word attempts won) = Ok ()
      <-> 0 <= attempts)
  /\ (attempts < 0 ->
      validate_score (create_score w player word attempts won)
      = Raise ValueError_score_attempts).
Proof.
  split; [| split].
  - unfold create_score, isoformat. do 6 f_equal.
    rewrite !app_assoc. rewrite replace_offset; [done |].
    unfold str_of_date. rewrite !Forall_app.
    repeat split; try apply zero_padded_no_plus; try (by repeat constructor).
    destruct (_ =? 0); [constructor |].
    apply Forall_app. split; [by repeat constructor | apply zero_padded_no_plus].
  - rewrite validate_created. destruct (Z.ltb_spec attempts 0); split; intros; try done; lia.
  - intros Hneg. rewrite validate_created. by destruct (Z.ltb_spec attempts 0); [| lia].
Qed.

Lemma X22_witness :
  validate_score (create_score world0 (lit "alice") (lit "APPLE") (-1) false)
  = Raise ValueError_score_attempts.
Proof.
  apply (X22_created_records world0 (lit "alice") (lit "APPLE") (-1) false). lia.
Defined.

Example create_score_2024_06_15 :
  create_score world0 (lit "alice") (lit "APPLE") 3 true
  = VDict [(lit "player", VStr (lit "alice")); (lit "word", VStr (lit "APPLE"));
           (lit "attempts", VInt 3); (lit "won", VBool true);
           (lit "date", VStr (lit "2024-06-15T12:00:00Z"))].
Proof. vm_compute. reflexivity. Qed.
